(** * STLLayout: volumetric layout of a network inside a triangle mesh

    A shallow embedding of [src/viz/STLLayout.js] (class [STLLayout] and the
    module-level function [_rayTriX]) and the properties of it that the
    specification states.

    JavaScript numbers are kept abstract: the program is written once over an
    interface [JSNumber] that lists the operations the source applies to
    numbers, and is then read at two instances.

    - [Ideal.real_number]: the real numbers, i.e. the arithmetic the
      specification reasons in (no rounding, no overflow, no NaN).
    - [Binary64.float_number]: IEEE-754 binary64 as specified by the standard
      library's [SpecFloat], i.e. the numbers a JavaScript engine really
      computes with, including infinities and NaN.  It is executable, so the
      program can be run on concrete inputs.

    three.js ([Vector3], [Box3], [BufferGeometry]) is a library the source
    calls; the handful of its methods that are used are transcribed from the
    library's documented behaviour. *)

From Stdlib Require Import ZArith List Bool Lia Reals Lra Psatz.
From Stdlib Require Import Sorting.Sorted Sorting.Permutation.
From Stdlib Require Import Floats.SpecFloat.
From stdpp Require Import base list.

Set Default Proof Using "Type".
Local Open Scope Z_scope.

(** ** The number interface *)

Declare Scope js_scope.
Delimit Scope js_scope with js.

(** The operations of JavaScript's [number] that [STLLayout.js] uses.
    [num_lt]/[num_le] are [<] and [<=]; the source's [a > b] and [a >= b] are
    [num_lt b a] and [num_le b a].  [num_truthy] is the coercion to boolean
    ([length() || 1]), [num_to_Z] the integer a number denotes when it is one
    (array indexing, loop bounds), [num_lt_Infinity d] the test
    [d < Infinity]. *)
Class JSNumber (num : Type) : Type := {
  num_of_Z : Z -> num;
  num_add : num -> num -> num;
  num_sub : num -> num -> num;
  num_mul : num -> num -> num;
  num_div : num -> num -> num;
  num_neg : num -> num;
  num_lt : num -> num -> bool;
  num_le : num -> num -> bool;
  Math_floor : num -> num;
  Math_abs : num -> num;
  Math_sqrt : num -> num;
  Math_max : num -> num -> num;
  Math_min : num -> num -> num;
  num_truthy : num -> bool;
  num_to_Z : num -> option Z;
  num_lt_Infinity : num -> bool;
}.

Infix "+" := num_add : js_scope.
Infix "-" := num_sub : js_scope.
Infix "*" := num_mul : js_scope.
Infix "/" := num_div : js_scope.
Notation "- a" := (num_neg a) : js_scope.
Notation "a <? b" := (num_lt a b) : js_scope.
Notation "a <=? b" := (num_le a b) : js_scope.
Notation "a >? b" := (num_lt b a) : js_scope.
Notation "a >=? b" := (num_le b a) : js_scope.
Notation "# n" := (num_of_Z n%Z) (at level 1, format "# n") : js_scope.

Module Ideal.

(** Real arithmetic.  Division by zero is the library's total [Rdiv]; every
    statement proved at this instance that divides says when the divisor is
    not zero. *)

Definition Rltb (a b : R) : bool := if Rlt_dec a b then true else false.
Definition Rleb (a b : R) : bool := if Rle_dec a b then true else false.

Definition Rfloor (a : R) : R := IZR (Int_part a).

Definition R_to_Z (a : R) : option Z :=
  if Req_dec_T (IZR (Int_part a)) a then Some (Int_part a) else None.

Definition R_truthy (a : R) : bool := if Req_dec_T a 0%R then false else true.

#[global] Instance real_number : JSNumber R := {|
  num_of_Z := IZR;
  num_add := Rplus;
  num_sub := Rminus;
  num_mul := Rmult;
  num_div := Rdiv;
  num_neg := Ropp;
  num_lt := Rltb;
  num_le := Rleb;
  Math_floor := Rfloor;
  Math_abs := Rabs;
  Math_sqrt := sqrt;
  Math_max := Rmax;
  Math_min := Rmin;
  num_truthy := R_truthy;
  num_to_Z := R_to_Z;
  num_lt_Infinity := fun _ => true;
|}.

End Ideal.

Module Binary64.

(** IEEE-754 double precision: 53 bits of precision, exponents up to 1024.
    Arithmetic is [SpecFloat]'s, rounding to nearest, ties to even. *)

Definition prec : Z := 53.
Definition emax : Z := 1024.

Definition float : Type := spec_float.

Definition of_Z (n : Z) : float := binary_normalize prec emax n 0 false.

Definition is_nan (a : float) : bool :=
  match a with S754_nan => true | _ => false end.

Definition is_finite (a : float) : bool :=
  match a with S754_zero _ | S754_finite _ _ _ => true | _ => false end.

(** The integer part [floor] of a finite float, as an integer. *)
Definition floorZ (s : bool) (m : positive) (e : Z) : Z :=
  let v := if s then Z.neg m else Z.pos m in
  if 0 <=? e then v * 2 ^ e else v / 2 ^ (- e).

(** [Math.floor]: zeros, infinities and NaN are returned unchanged; a finite
    number with a non-negative exponent is already an integer. *)
Definition floor (a : float) : float :=
  match a with
  | S754_finite s m e =>
      if 0 <=? e then a
      else let n := floorZ s m e in
           if n =? 0 then S754_zero s else of_Z n
  | _ => a
  end.

(** The integer a float denotes, when it is one. *)
Definition to_Z (a : float) : option Z :=
  match a with
  | S754_zero _ => Some 0
  | S754_finite s m e =>
      if 0 <=? e then Some (floorZ s m e)
      else if (Z.pos m) mod 2 ^ (- e) =? 0 then Some (floorZ s m e) else None
  | _ => None
  end.

(** [Math.max] and [Math.min]: NaN if either argument is NaN; [-0 < +0]. *)
Definition fmax (a b : float) : float :=
  if is_nan a || is_nan b then S754_nan
  else if SFltb a b then b
  else if SFltb b a then a
  else match a with S754_zero true => b | _ => a end.

Definition fmin (a b : float) : float :=
  if is_nan a || is_nan b then S754_nan
  else if SFltb a b then a
  else if SFltb b a then b
  else match a with S754_zero true => a | _ => b end.

Definition truthy (a : float) : bool :=
  match a with S754_zero _ | S754_nan => false | _ => true end.

#[global] Instance float_number : JSNumber float := {|
  num_of_Z := of_Z;
  num_add := SFadd prec emax;
  num_sub := SFsub prec emax;
  num_mul := SFmul prec emax;
  num_div := SFdiv prec emax;
  num_neg := SFopp;
  num_lt := SFltb;
  num_le := SFleb;
  Math_floor := floor;
  Math_abs := SFabs;
  Math_sqrt := SFsqrt prec emax;
  Math_max := fmax;
  Math_min := fmin;
  num_truthy := truthy;
  num_to_Z := to_Z;
  num_lt_Infinity := fun d => SFltb d (S754_infinity false);
|}.

End Binary64.

(** ** three.js vectors and the ray-triangle test *)

Section Program.

Context {num : Type} {JSN : JSNumber num}.
Local Open Scope js_scope.

(** A decimal literal [n / d] with [d] a power of ten: the source's [0.09] is
    [dec 9 100].  At binary64 the quotient of two exactly represented integers
    is correctly rounded, which is the value of the literal. *)
Definition dec (n d : Z) : num := #n / #d.

Record Vec3 : Type := Vector3 { x : num; y : num; z : num }.

Definition subVectors (a b : Vec3) : Vec3 :=
  Vector3 (a.(x) - b.(x)) (a.(y) - b.(y)) (a.(z) - b.(z)).

Definition add (a b : Vec3) : Vec3 :=
  Vector3 (a.(x) + b.(x)) (a.(y) + b.(y)) (a.(z) + b.(z)).

Definition sub (a b : Vec3) : Vec3 :=
  Vector3 (a.(x) - b.(x)) (a.(y) - b.(y)) (a.(z) - b.(z)).

Definition multiplyScalar (a : Vec3) (s : num) : Vec3 :=
  Vector3 (a.(x) * s) (a.(y) * s) (a.(z) * s).

Definition divideScalar (a : Vec3) (s : num) : Vec3 :=
  multiplyScalar a (#1 / s).

Definition lengthSq (a : Vec3) : num :=
  a.(x) * a.(x) + a.(y) * a.(y) + a.(z) * a.(z).

(** [Vector3.length()]; renamed, [length] being the length of a list. *)
Definition vec_length (a : Vec3) : num := Math_sqrt (lengthSq a).

(** [normalize() { return this.divideScalar( this.length() || 1 ); }] *)
Definition normalize (a : Vec3) : Vec3 :=
  divideScalar a (if num_truthy (vec_length a) then vec_length a else #1).

Definition addScaledVector (a v : Vec3) (s : num) : Vec3 :=
  Vector3 (a.(x) + v.(x) * s) (a.(y) + v.(y) * s) (a.(z) + v.(z) * s).

Definition distanceToSquared (a v : Vec3) : num :=
  let dx := a.(x) - v.(x) in
  let dy := a.(y) - v.(y) in
  let dz := a.(z) - v.(z) in
  dx * dx + dy * dy + dz * dz.

Definition EPSILON : num := dec 1 100000000.

(** Moeller-Trumbore for the ray from [(rayOX, wy, wz)] along +X.  [None] is
    the source's [null]. *)
Definition _rayTriX (rayOX wy wz : num) (v0 v1 v2 : Vec3) : option num :=
  let e1x := v1.(x) - v0.(x) in
  let e1y := v1.(y) - v0.(y) in
  let e1z := v1.(z) - v0.(z) in
  let e2x := v2.(x) - v0.(x) in
  let e2y := v2.(y) - v0.(y) in
  let e2z := v2.(z) - v0.(z) in
  let hy := - e2z in
  let hz := e2y in
  let a := e1y * hy + e1z * hz in
  if Math_abs a <? EPSILON then None else
  let f := #1 / a in
  let sx := rayOX - v0.(x) in
  let sy := wy - v0.(y) in
  let sz := wz - v0.(z) in
  let u := f * (sy * hy + sz * hz) in
  if (u <? - EPSILON) || (u >? #1 + EPSILON) then None else
  let qx := sy * e1z - sz * e1y in
  let qy := sz * e1x - sx * e1z in
  let qz := sx * e1y - sy * e1x in
  let v := f * qx in
  if (v <? - EPSILON) || (u + v >? #1 + EPSILON) then None else
  let t := f * (e2x * qx + e2y * qy + e2z * qz) in
  if t <? EPSILON then None else
  Some (rayOX + t).


(** ** Geometry and normalisation ([loadFile], lines 48-67) *)

(** A [BufferGeometry]: the position attribute and the optional index. *)
Record BufferGeometry : Type := {
  position : list Vec3;
  index : option (list nat);
}.

(** three.js's [Box3].  The empty box, whose corners three.js sets to
    +Infinity and -Infinity, is [None] below. *)
Record Box3 : Type := { box_min : Vec3; box_max : Vec3 }.

Definition vec_min (a b : Vec3) : Vec3 :=
  Vector3 (Math_min a.(x) b.(x)) (Math_min a.(y) b.(y)) (Math_min a.(z) b.(z)).

Definition vec_max (a b : Vec3) : Vec3 :=
  Vector3 (Math_max a.(x) b.(x)) (Math_max a.(y) b.(y)) (Math_max a.(z) b.(z)).

Definition expandByPoint (b : option Box3) (p : Vec3) : option Box3 :=
  match b with
  | None => Some {| box_min := p; box_max := p |}
  | Some b => Some {| box_min := vec_min b.(box_min) p;
                      box_max := vec_max b.(box_max) p |}
  end.

Definition computeBoundingBox (geo : BufferGeometry) : option Box3 :=
  foldl expandByPoint None geo.(position).

Definition getCenter (b : Box3) : Vec3 :=
  multiplyScalar (add b.(box_min) b.(box_max)) (dec 1 2).

Definition getSize (b : Box3) : Vec3 := subVectors b.(box_max) b.(box_min).

Definition translate (geo : BufferGeometry) (tx ty tz : num) : BufferGeometry :=
  {| position := map (fun p => Vector3 (p.(x) + tx) (p.(y) + ty) (p.(z) + tz))
                     geo.(position);
     index := geo.(index) |}.

Definition scale (geo : BufferGeometry) (sx sy sz : num) : BufferGeometry :=
  {| position := map (fun p => Vector3 (p.(x) * sx) (p.(y) * sy) (p.(z) * sz))
                     geo.(position);
     index := geo.(index) |}.

(** [{min, max, size}], the layout's [_bounds]. *)
Record Bounds : Type := { min : Vec3; max : Vec3; size : Vec3 }.

(** The normalisation block of [loadFile]: centre, then scale so that the
    largest dimension is 10.  [None] stands for a geometry without vertices,
    whose three.js bounding box is the empty box. *)
Definition normalizeGeometry (geo : BufferGeometry)
  : option (BufferGeometry * Bounds) :=
  box0 ← computeBoundingBox geo;
  let cent := getCenter box0 in
  let geo1 := translate geo (- cent.(x)) (- cent.(y)) (- cent.(z)) in
  box1 ← computeBoundingBox geo1;
  let sizeV := getSize box1 in
  let maxDim := Math_max (Math_max sizeV.(x) sizeV.(y)) sizeV.(z) in
  let s := #10 / maxDim in
  let geo2 := scale geo1 s s s in
  box2 ← computeBoundingBox geo2;
  Some (geo2, {| min := box2.(box_min); max := box2.(box_max);
                 size := getSize box2 |}).

(** ** The layout object *)

Definition GRID_SIZE : Z := 32.
Definition SUB_STEPS : Z := 3.
Definition FIXED_DT : num := #1 / (#60 * #SUB_STEPS).
Definition MIN_DIST_SQ : num := dec 9 100.

(** An entry [{ix, iy, iz}] of [_insideCache]. *)
Record Cell : Type := { ix : nat; iy : nat; iz : nat }.

(** A simulated particle.  The source's field [index] is [idx] here, [index]
    being the geometry's. *)
Record Neuron : Type := {
  pos : Vec3;
  prev : Vec3;
  vel : Vec3;
  force : Vec3;
  layer : nat;
  idx : nat;
}.

(** The fields of [STLLayout] once a load has assigned [_bounds] and
    [_voxels] (a [Uint8Array], one byte per cell).  The three callbacks are
    the collaborators' and are left unset. *)
Record STLLayout : Type := {
  kRepel : num;
  kLayer : num;
  kBoundary : num;
  damping : num;
  _voxels : list Z;
  _insideCache : list Cell;
  _bounds : Bounds;
  _neurons : list Neuron;
  _layerTargets : list Vec3;
  _positions : list (list Vec3);
  _rafId : option nat;
  isLoaded : bool;
  energy : num;
}.

(** [this._voxels[k]] for a number [k]: the byte when [k] is an integer index
    of the array, [undefined] ([None]) otherwise. *)
Definition voxel_at (voxels : list Z) (k : num) : option Z :=
  match num_to_Z k with
  | Some n => if (0 <=? n)%Z then voxels !! Z.to_nat n else None
  | None => None
  end.

Definition _isInside (this : STLLayout) (p : Vec3) : bool :=
  let min := this.(_bounds).(min) in
  let size := this.(_bounds).(size) in
  let G := #GRID_SIZE in
  let ix := Math_floor ((p.(x) - min.(x)) / size.(x) * G) in
  let iy := Math_floor ((p.(y) - min.(y)) / size.(y) * G) in
  let iz := Math_floor ((p.(z) - min.(z)) / size.(z) * G) in
  if (ix <? #0) || (ix >=? G) || (iy <? #0) || (iy >=? G)
     || (iz <? #0) || (iz >=? G) then false
  else match voxel_at this.(_voxels) (ix * G * G + iy * G + iz) with
       | Some 1%Z => true
       | _ => false
       end.

Definition _cellToWorld (this : STLLayout) (ix iy iz : nat) : Vec3 :=
  let min := this.(_bounds).(min) in
  let size := this.(_bounds).(size) in
  let G := #GRID_SIZE in
  Vector3 (min.(x) + (#(Z.of_nat ix) + dec 1 2) / G * size.(x))
          (min.(y) + (#(Z.of_nat iy) + dec 1 2) / G * size.(y))
          (min.(z) + (#(Z.of_nat iz) + dec 1 2) / G * size.(z)).

(** *** [Math.random] and [x | 0] *)

(** The numbers [Math.random()] returns, in call order; a function that
    draws takes the number of calls made so far and returns the new count. *)
Definition Random : Type := nat -> num.

Definition trunc (a : num) : num :=
  if a <? #0 then - Math_floor (- a) else Math_floor a.

(** [a | 0], i.e. ToInt32: 0 for NaN and the infinities, otherwise the
    truncation of [a] wrapped to 32 signed bits. *)
Definition ToInt32 (a : num) : Z :=
  match num_to_Z (trunc a) with
  | Some n => ((n + 2 ^ 31) mod 2 ^ 32 - 2 ^ 31)%Z
  | None => 0%Z
  end.

(** [cache[k]] for the integer [k]. *)
Definition cell_at (cache : list Cell) (k : Z) : option Cell :=
  if (0 <=? k)%Z then cache !! Z.to_nat k else None.

(** *** The inside-point sampler *)

(** The random tries of [_findInsidePointNear]: [tries] candidates, each from
    three draws; the first interior one is returned with the number of
    draws made. *)
Fixpoint sample_tries (this : STLLayout) (rnd : Random) (target : Vec3)
    (spread : num) (tries : nat) (k : nat) : option Vec3 * nat :=
  match tries with
  | O => (None, k)
  | S tries' =>
      let p := Vector3
        (target.(x) + (rnd k - dec 1 2) * spread)
        (target.(y) + (rnd (k + 1)%nat - dec 1 2) * spread)
        (target.(z) + (rnd (k + 2)%nat - dec 1 2) * spread) in
      if _isInside this p then (Some p, (k + 3)%nat)
      else sample_tries this rnd target spread tries' (k + 3)%nat
  end.

(** The fallback loop: [sample] random entries of the cache, keeping the
    cell centre closest to [target].  [bestDist = None] is the initial
    [Infinity].  The outer [None] is the TypeError of reading [c.ix] from an
    [undefined] entry. *)
Fixpoint sample_cache (this : STLLayout) (rnd : Random) (target : Vec3)
    (sample : nat) (k : nat) (best : option Vec3) (bestDist : option num)
  : option (option Vec3) :=
  match sample with
  | O => Some best
  | S sample' =>
      let len := #(Z.of_nat (List.length this.(_insideCache))) in
      c ← cell_at this.(_insideCache) (ToInt32 (rnd k * len));
      let p := _cellToWorld this c.(ix) c.(iy) c.(iz) in
      let d := distanceToSquared p target in
      let closer := match bestDist with
                    | None => num_lt_Infinity d
                    | Some b => d <? b
                    end in
      if closer
      then sample_cache this rnd target sample' (k + 1)%nat (Some p) (Some d)
      else sample_cache this rnd target sample' (k + 1)%nat best bestDist
  end.

(** [_findInsidePointNear(target, maxTries)], started after [k] draws.
    [None]: a TypeError was thrown. *)
Definition _findInsidePointNear (this : STLLayout) (rnd : Random) (k : nat)
    (target : Vec3) (maxTries : nat) : option Vec3 :=
  let spread := vec_length this.(_bounds).(size) * dec 25 100 in
  match sample_tries this rnd target spread maxTries k with
  | (Some p, _) => Some p
  | (None, k') =>
      let sample := Nat.min 60 (List.length this.(_insideCache)) in
      best ← sample_cache this rnd target sample k' None None;
      match best with
      | Some p => Some p
      | None =>
          c ← this.(_insideCache) !! 0%nat;
          Some (_cellToWorld this c.(ix) c.(iy) c.(iz))
      end
  end.

(** ** Voxelisation ([_voxelize]) *)

(** [getTri(tri)]: the three vertices of triangle [tri], through the index
    when the geometry has one.  A triangle that names a vertex the position
    attribute does not have (never the case for a decoded STL file) has no
    vertices here. *)
Definition getTri (geo : BufferGeometry) (tri : nat)
  : option (Vec3 * Vec3 * Vec3) :=
  match geo.(index) with
  | Some ia =>
      i0 ← ia !! (tri * 3)%nat;
      i1 ← ia !! (tri * 3 + 1)%nat;
      i2 ← ia !! (tri * 3 + 2)%nat;
      v0 ← geo.(position) !! i0;
      v1 ← geo.(position) !! i1;
      v2 ← geo.(position) !! i2;
      Some (v0, v1, v2)
  | None =>
      v0 ← geo.(position) !! (tri * 3)%nat;
      v1 ← geo.(position) !! (tri * 3 + 1)%nat;
      v2 ← geo.(position) !! (tri * 3 + 2)%nat;
      Some (v0, v1, v2)
  end.

Definition triCount (geo : BufferGeometry) : nat :=
  match geo.(index) with
  | Some ia => (List.length ia / 3)%nat
  | None => (List.length geo.(position) / 3)%nat
  end.

(** The hits of one scanline, in triangle order. *)
Definition scan_hits (geo : BufferGeometry) (rayOX wy wz : num) : list num :=
  foldl (fun hits tri =>
           match getTri geo tri with
           | Some (v0, v1, v2) =>
               match _rayTriX rayOX wy wz v0 v1 v2 with
               | Some wx => hits ++ [wx]
               | None => hits
               end
           | None => hits
           end)
        [] (seq 0 (triCount geo)).

(** [hits.sort((a, b) => a - b)], as a stable insertion sort: [h] goes in
    front of the first element [h'] with [h - h' < 0]. *)
Fixpoint sort_insert (h : num) (l : list num) : list num :=
  match l with
  | [] => [h]
  | h' :: l' => if h - h' <? #0 then h :: l else h' :: sort_insert h l'
  end.

Definition sort_hits (hits : list num) : list num :=
  foldl (fun sorted h => sort_insert h sorted) [] hits.

(** The deduplication loop: a hit is kept when it exceeds the last kept one
    by more than [1e-5]. *)
Fixpoint dedupe_from (last : num) (hits : list num) : list num :=
  match hits with
  | [] => []
  | h :: hits' =>
      if h - last >? dec 1 100000 then h :: dedupe_from h hits'
      else dedupe_from last hits'
  end.

Definition dedupe (hits : list num) : list num :=
  match hits with
  | [] => []
  | h0 :: hits' => h0 :: dedupe_from h0 hits'
  end.

(** [this._voxels[k] = 1] for the integer [k]; a typed array ignores a write
    outside its range. *)
Definition voxel_write (voxels : list Z) (k : Z) : list Z :=
  if (0 <=? k)%Z then <[Z.to_nat k := 1%Z]> voxels else voxels.

Definition cell_index (ix iy iz : Z) : Z :=
  (ix * GRID_SIZE * GRID_SIZE + iy * GRID_SIZE + iz)%Z.

(** The cells of one span [x0 .. x1] of the scanline [(iy, iz)].  The loop
    [for (ix = ix0; ix <= ix1; ix++)] runs over integers; when a bound is
    not one (NaN or an infinity), its test fails at once. *)
Definition mark_span (mn sz : Vec3) (iy iz : nat) (x0 x1 : num)
    (voxels : list Z) : list Z :=
  let G := #GRID_SIZE in
  let ix0 := Math_max #0 (Math_floor ((x0 - mn.(x)) / sz.(x) * G)) in
  let ix1 := Math_min (G - #1) (Math_floor ((x1 - mn.(x)) / sz.(x) * G)) in
  match num_to_Z ix0, num_to_Z ix1 with
  | Some a, Some b =>
      foldl (fun vox ix => voxel_write vox (cell_index ix (Z.of_nat iy) (Z.of_nat iz)))
            voxels (seqZ a (b - a + 1))
  | _, _ => voxels
  end.

(** [for (h = 0; h + 1 < deduped.length; h += 2)], with [h = 2 * k]. *)
Definition mark_pairs (mn sz : Vec3) (iy iz : nat) (deduped : list num)
    (voxels : list Z) : list Z :=
  foldl (fun vox k =>
           match deduped !! (2 * k)%nat, deduped !! (2 * k + 1)%nat with
           | Some x0, Some x1 => mark_span mn sz iy iz x0 x1 vox
           | _, _ => vox
           end)
        voxels (seq 0 (List.length deduped / 2)).

(** The locals of a [_voxelize] call: the geometry, the [min] and [size] it
    destructured from [this._bounds] when it started, and the row [iy] at
    which it continues. *)
Record VoxelJob : Type := {
  job_geo : BufferGeometry;
  job_min : Vec3;
  job_size : Vec3;
  job_iy : nat;
}.

Definition rayOX_of (job : VoxelJob) : num := job.(job_min).(x) - #1.

(** The body of the [iz] loop. *)
Definition voxelize_scanline (job : VoxelJob) (iy iz : nat) (voxels : list Z)
  : list Z :=
  let G := #GRID_SIZE in
  let wy := job.(job_min).(y)
            + (#(Z.of_nat iy) + dec 1 2) / G * job.(job_size).(y) in
  let wz := job.(job_min).(z)
            + (#(Z.of_nat iz) + dec 1 2) / G * job.(job_size).(z) in
  let hits := scan_hits job.(job_geo) (rayOX_of job) wy wz in
  match hits with
  | [] => voxels
  | _ => mark_pairs job.(job_min) job.(job_size) iy iz
           (dedupe (sort_hits hits)) voxels
  end.

Definition voxelize_row (job : VoxelJob) (voxels : list Z) (iy : nat) : list Z :=
  foldl (fun vox iz => voxelize_scanline job iy iz vox)
        voxels (seq 0 (Z.to_nat GRID_SIZE)).

(** The cells with a non-zero byte, in the order of the three nested loops. *)
Definition inside_cells (voxels : list Z) : list Cell :=
  let G := Z.to_nat GRID_SIZE in
  ix ← seq 0 G; iy2 ← seq 0 G; iz2 ← seq 0 G;
  match voxels !! (ix * G * G + iy2 * G + iz2)%nat with
  | Some b => if (b =? 0)%Z then [] else [{| ix := ix; iy := iy2; iz := iz2 |}]
  | None => []
  end.

(** One exchange of the Fisher-Yates shuffle. *)
Definition swap (cache : list Cell) (i : nat) (j : Z) : list Cell :=
  match cache !! i, cell_at cache j with
  | Some t, Some cj => <[Z.to_nat j := t]> (<[i := cj]> cache)
  | _, _ => cache
  end.

(** [for (i = len - 1; i > 0; i--)], entered at [i]. *)
Fixpoint shuffle_from (rnd : Random) (i : nat) (k : nat) (cache : list Cell)
  : list Cell * nat :=
  match i with
  | O => (cache, k)
  | S i' =>
      let j := ToInt32 (rnd k * #(Z.of_nat (i + 1))) in
      shuffle_from rnd i' (k + 1)%nat (swap cache i j)
  end.

Definition shuffle (rnd : Random) (k : nat) (cache : list Cell)
  : list Cell * nat :=
  shuffle_from rnd (List.length cache - 1)%nat k cache.

(** ** The force simulation ([_subStep], [_step]) *)

Definition set_force (n : Neuron) (f : Vec3) : Neuron :=
  {| pos := n.(pos); prev := n.(prev); vel := n.(vel); force := f;
     layer := n.(layer); idx := n.(idx) |}.

(** The index pairs [(i, j)], [i < j < N], in the order of the two loops. *)
Definition pairs (N : nat) : list (nat * nat) :=
  i ← seq 0 N; j ← seq (S i) (N - S i); [(i, j)].

(** The force one pair exchanges: [_d] after
    [_d.normalize().multiplyScalar(f)]. *)
Definition repulsion (kRepel : num) (pi pj : Vec3) : Vec3 :=
  let d := subVectors pi pj in
  let f := kRepel / Math_max (lengthSq d) MIN_DIST_SQ in
  multiplyScalar (normalize d) f.

(** The body of the inner repulsion loop. *)
Definition repel_pair (kRepel : num) (neurons : list Neuron) (ij : nat * nat)
  : list Neuron :=
  match neurons !! ij.1, neurons !! ij.2 with
  | Some ni, Some nj =>
      let d := repulsion kRepel ni.(pos) nj.(pos) in
      <[ij.2 := set_force nj (sub nj.(force) d)]>
        (<[ij.1 := set_force ni (add ni.(force) d)]> neurons)
  | _, _ => neurons
  end.

Definition repel_all (kRepel : num) (neurons : list Neuron) : list Neuron :=
  foldl (repel_pair kRepel) neurons (pairs (List.length neurons)).

(** Layer guidance; [if (!tgt) continue]. *)
Definition layer_guidance (this : STLLayout) (n : Neuron) : Neuron :=
  match this.(_layerTargets) !! n.(layer) with
  | Some tgt =>
      set_force n (add n.(force)
                       (multiplyScalar (subVectors tgt n.(pos)) this.(kLayer)))
  | None => n
  end.

(** The 5 x 5 x 5 offsets [(dx, dy, dz)] in loop order. *)
Definition neighbourhood : list (Z * Z * Z) :=
  dx ← seqZ (-2) 5; dy ← seqZ (-2) 5; dz ← seqZ (-2) 5; [(dx, dy, dz)].

(** [!this._voxels[k]]: [undefined] and 0 are falsy. *)
Definition voxel_falsy (voxels : list Z) (k : num) : bool :=
  match voxel_at voxels k with
  | Some b => (b =? 0)%Z
  | None => true
  end.

(** The body of the innermost boundary loop, for the neuron at [p] in cell
    [(cx, cy, cz)], with [f] its force so far. *)
Definition boundary_cell (this : STLLayout) (p : Vec3) (cx cy cz : num)
    (f : Vec3) (d : Z * Z * Z) : Vec3 :=
  let '(dx, dy, dz) := d in
  let min := this.(_bounds).(min) in
  let size := this.(_bounds).(size) in
  let G := #GRID_SIZE in
  if (dx =? 0)%Z && (dy =? 0)%Z && (dz =? 0)%Z then f else
  let nx := cx + #dx in
  let ny := cy + #dy in
  let nz := cz + #dz in
  let outside :=
    (nx <? #0) || (nx >=? G) || (ny <? #0) || (ny >=? G)
    || (nz <? #0) || (nz >=? G)
    || voxel_falsy this.(_voxels) (nx * G * G + ny * G + nz) in
  if negb outside then f else
  let c := Vector3 (min.(x) + (nx + dec 1 2) / G * size.(x))
                   (min.(y) + (ny + dec 1 2) / G * size.(y))
                   (min.(z) + (nz + dec 1 2) / G * size.(z)) in
  let d := subVectors p c in
  let distSq := Math_max (lengthSq d) (dec 1 100) in
  add f (multiplyScalar (normalize d) (this.(kBoundary) / distSq)).

Definition boundary_force (this : STLLayout) (n : Neuron) : Neuron :=
  let min := this.(_bounds).(min) in
  let size := this.(_bounds).(size) in
  let G := #GRID_SIZE in
  let p := n.(pos) in
  let cx := Math_floor ((p.(x) - min.(x)) / size.(x) * G) in
  let cy := Math_floor ((p.(y) - min.(y)) / size.(y) * G) in
  let cz := Math_floor ((p.(z) - min.(z)) / size.(z) * G) in
  set_force n (foldl (boundary_cell this p cx cy cz) n.(force) neighbourhood).

(** The velocity after [addScaledVector(force, dt).multiplyScalar(damping)]
    and the position after [addScaledVector(vel, dt)]. *)
Definition integrated_vel (this : STLLayout) (dt : num) (n : Neuron) : Vec3 :=
  multiplyScalar (addScaledVector n.(vel) n.(force) dt) this.(damping).

Definition integrated_pos (this : STLLayout) (dt : num) (n : Neuron) : Vec3 :=
  addScaledVector n.(pos) (integrated_vel this dt n) dt.

(** The body of the integration loop, [ke] aside: integrate, then the hard
    clamp. *)
Definition integrate (this : STLLayout) (dt : num) (n : Neuron) : Neuron :=
  let v := integrated_vel this dt n in
  let p := integrated_pos this dt n in
  if negb (_isInside this p)
  then {| pos := n.(pos); prev := n.(pos);
          vel := multiplyScalar v (- dec 3 10);
          force := n.(force); layer := n.(layer); idx := n.(idx) |}
  else {| pos := p; prev := n.(pos); vel := v;
          force := n.(force); layer := n.(layer); idx := n.(idx) |}.

(** [ke] at the end of the integration loop. *)
Definition kinetic (this : STLLayout) (dt : num) (neurons : list Neuron) : num :=
  foldl (fun ke n => ke + lengthSq (integrated_vel this dt n)) #0 neurons.

(** The neurons with their forces accumulated (phases 1 to 3). *)
Definition accumulate_forces (this : STLLayout) : list Neuron :=
  let zeroed := map (fun n => set_force n (Vector3 #0 #0 #0)) this.(_neurons) in
  let repelled := repel_all this.(kRepel) zeroed in
  let guided := map (layer_guidance this) repelled in
  map (boundary_force this) guided.

Definition set_neurons (this : STLLayout) (ns : list Neuron) (e : num)
  : STLLayout :=
  {| kRepel := this.(kRepel); kLayer := this.(kLayer);
     kBoundary := this.(kBoundary); damping := this.(damping);
     _voxels := this.(_voxels); _insideCache := this.(_insideCache);
     _bounds := this.(_bounds); _neurons := ns;
     _layerTargets := this.(_layerTargets); _positions := this.(_positions);
     _rafId := this.(_rafId); isLoaded := this.(isLoaded); energy := e |}.

Definition _subStep (this : STLLayout) (dt : num) : STLLayout :=
  match this.(_neurons) with
  | [] => this
  | _ =>
      let forced := accumulate_forces this in
      let N := #(Z.of_nat (List.length this.(_neurons))) in
      set_neurons this (map (integrate this dt) forced)
                  (kinetic this dt forced / N)
  end.

(** Copying the neurons' positions into [_positions], row by row.  Should a
    row ask for more neurons than there are, the source throws there; the
    slots not reached keep their value. *)
Fixpoint sync_row (row : list Vec3) (ns : list Neuron)
  : list Vec3 * list Neuron :=
  match row, ns with
  | _ :: row', n :: ns' =>
      let '(r, rest) := sync_row row' ns' in (n.(pos) :: r, rest)
  | _, _ => (row, ns)
  end.

Fixpoint sync_positions (rows : list (list Vec3)) (ns : list Neuron)
  : list (list Vec3) :=
  match rows with
  | [] => []
  | row :: rows' =>
      let '(r, rest) := sync_row row ns in r :: sync_positions rows' rest
  end.

Definition set_positions (this : STLLayout) (ps : list (list Vec3))
  : STLLayout :=
  {| kRepel := this.(kRepel); kLayer := this.(kLayer);
     kBoundary := this.(kBoundary); damping := this.(damping);
     _voxels := this.(_voxels); _insideCache := this.(_insideCache);
     _bounds := this.(_bounds); _neurons := this.(_neurons);
     _layerTargets := this.(_layerTargets); _positions := ps;
     _rafId := this.(_rafId); isLoaded := this.(isLoaded);
     energy := this.(energy) |}.

(** [for (s = 0; s < SUB_STEPS; s++) this._subStep(FIXED_DT)] *)
Definition subSteps (this : STLLayout) (n : nat) : STLLayout :=
  Nat.iter n (fun s => _subStep s FIXED_DT) this.

Definition _step (this : STLLayout) : STLLayout :=
  match this.(_neurons) with
  | [] => this
  | _ =>
      let this' := subSteps this (Z.to_nat SUB_STEPS) in
      set_positions this' (sync_positions this'.(_positions) this'.(_neurons))
  end.

(** ** Loading as a cooperative task ([loadFile], [_voxelize]) *)

(** [loadFile] and the [_voxelize] it awaits are [async]: they run until an
    [await], hand control back to the event loop, and continue when they are
    resumed.  A task is what is left to run at such a point, with the locals
    it will continue from; the fields of [this] are not among them, they are
    read from the layout when the task runs again. *)
Inductive LoadTask : Type :=
| AwaitBuffer (geo : BufferGeometry)
    (* at [await file.arrayBuffer()]; [geo] is what the loader will parse *)
| AwaitTimer (job : VoxelJob)
    (* at [await new Promise(r => setTimeout(r, 0))], row [job_iy] *)
| Completed.

Definition set_loading (this : STLLayout) (loaded : bool) (raf : option nat)
  : STLLayout :=
  {| kRepel := this.(kRepel); kLayer := this.(kLayer);
     kBoundary := this.(kBoundary); damping := this.(damping);
     _voxels := this.(_voxels); _insideCache := this.(_insideCache);
     _bounds := this.(_bounds); _neurons := this.(_neurons);
     _layerTargets := this.(_layerTargets); _positions := this.(_positions);
     _rafId := raf; isLoaded := loaded; energy := this.(energy) |}.

Definition set_grid (this : STLLayout) (b : Bounds) (voxels : list Z)
    (cache : list Cell) : STLLayout :=
  {| kRepel := this.(kRepel); kLayer := this.(kLayer);
     kBoundary := this.(kBoundary); damping := this.(damping);
     _voxels := voxels; _insideCache := cache;
     _bounds := b; _neurons := this.(_neurons);
     _layerTargets := this.(_layerTargets); _positions := this.(_positions);
     _rafId := this.(_rafId); isLoaded := this.(isLoaded);
     energy := this.(energy) |}.

(** [stop()] *)
Definition stop (this : STLLayout) : STLLayout :=
  set_loading this this.(isLoaded) None.

(** [loadFile(file)] up to its first [await]. *)
Definition loadFile (this : STLLayout) (geo : BufferGeometry)
  : STLLayout * LoadTask :=
  (set_loading (stop this) false None, AwaitBuffer geo).

(** The rows a resumed job processes before it awaits again: row [iy] and
    the rows after it, up to the next multiple of four or the last row. *)
Fixpoint rows_until_yield (iy : nat) (remaining : nat) : list nat :=
  match remaining with
  | O => []
  | S r =>
      iy :: (if (S iy mod 4 =? 0)%nat then [] else rows_until_yield (S iy) r)
  end.

Definition chunk_rows (iy : nat) : list nat :=
  rows_until_yield iy (Z.to_nat GRID_SIZE - iy).

(** [_voxelize(geo)] up to its first [await], which is at row 0: a fresh
    grid and an empty cache are assigned to [this]. *)
Definition voxelize_begin (this : STLLayout) (geo : BufferGeometry)
  : STLLayout * VoxelJob :=
  (set_grid this this.(_bounds)
            (replicate (Z.to_nat (GRID_SIZE * GRID_SIZE * GRID_SIZE)) 0%Z) [],
   {| job_geo := geo; job_min := this.(_bounds).(min);
      job_size := this.(_bounds).(size); job_iy := 0 |}).

(** A job continuing after its [await]: the rows of its chunk are marked in
    [this._voxels]; then either it awaits again, or the loops are over, the
    interior cells are pushed onto [this._insideCache] and shuffled, and
    [loadFile] sets [isLoaded].  [k] counts the calls of [Math.random]. *)
Definition voxelize_resume (rnd : Random) (job : VoxelJob)
    (this : STLLayout) (k : nat) : STLLayout * nat * LoadTask :=
  let rows := chunk_rows job.(job_iy) in
  let voxels := foldl (voxelize_row job) this.(_voxels) rows in
  let next := (job.(job_iy) + List.length rows)%nat in
  if (next <? Z.to_nat GRID_SIZE)%nat
  then (set_grid this this.(_bounds) voxels this.(_insideCache), k,
        AwaitTimer {| job_geo := job.(job_geo); job_min := job.(job_min);
                      job_size := job.(job_size); job_iy := next |})
  else
    let '(cache, k') :=
      shuffle rnd k (this.(_insideCache) ++ inside_cells voxels) in
    let this' := set_grid this this.(_bounds) voxels cache in
    (set_loading this' true this'.(_rafId), k', Completed).

(** One turn of the event loop given to a task.  A geometry without
    vertices is not followed further (see [normalizeGeometry]). *)
Definition resume (rnd : Random) (task : LoadTask) (this : STLLayout)
    (k : nat) : STLLayout * nat * LoadTask :=
  match task with
  | AwaitBuffer geo =>
      match normalizeGeometry geo with
      | Some (geo', b) =>
          let this1 := set_grid this b this.(_voxels) this.(_insideCache) in
          let '(this2, job) := voxelize_begin this1 geo' in
          (this2, k, AwaitTimer job)
      | None => (this, k, Completed)
      end
  | AwaitTimer job => voxelize_resume rnd job this k
  | Completed => (this, k, Completed)
  end.

(** A task run alone, [turns] turns of the event loop. *)
Fixpoint run_alone (rnd : Random) (turns : nat) (task : LoadTask)
    (this : STLLayout) (k : nat) : STLLayout * nat * LoadTask :=
  match turns with
  | O => (this, k, task)
  | S turns' =>
      let '(this', k', task') := resume rnd task this k in
      run_alone rnd turns' task' this' k'
  end.

End Program.

Arguments Vec3 num : clear implicits.
Arguments BufferGeometry num : clear implicits.
Arguments Box3 num : clear implicits.
Arguments Bounds num : clear implicits.
Arguments Neuron num : clear implicits.
Arguments STLLayout num : clear implicits.
Arguments VoxelJob num : clear implicits.
Arguments LoadTask num : clear implicits.
Arguments Random num : clear implicits.

(** ** The quantities the specification names *)

Section SpecSide.

Context {num : Type} {JSN : JSNumber num}.
Local Open Scope js_scope.

Definition dot (a b : Vec3 num) : num :=
  a.(x) * b.(x) + a.(y) * b.(y) + a.(z) * b.(z).

Definition cross (a b : Vec3 num) : Vec3 num :=
  Vector3 (a.(y) * b.(z) - a.(z) * b.(y))
          (a.(z) * b.(x) - a.(x) * b.(z))
          (a.(x) * b.(y) - a.(y) * b.(x)).

(** The determinant and the parameters [u], [v], [t] of the Moeller-Trumbore
    method, for a ray from [O] with direction [D]: the solution of
    [O + t D = v0 + u (v1 - v0) + v (v2 - v0)]. *)
Record MTParams : Type := { mt_det : num; mt_u : num; mt_v : num; mt_t : num }.

Definition moller_trumbore (O D v0 v1 v2 : Vec3 num) : MTParams :=
  let e1 := subVectors v1 v0 in
  let e2 := subVectors v2 v0 in
  let h := cross D e2 in
  let a := dot e1 h in
  let s := subVectors O v0 in
  let q := cross s e1 in
  {| mt_det := a; mt_u := dot s h / a; mt_v := dot D q / a;
     mt_t := dot e2 q / a |}.

(** The parameters of the scanline ray from [(rayOX, wy, wz)] along +X. *)
Definition ray_params (rayOX wy wz : num) (v0 v1 v2 : Vec3 num) : MTParams :=
  moller_trumbore (Vector3 rayOX wy wz) (Vector3 #1 #0 #0) v0 v1 v2.

(** The specification's words for when a triangle is hit: the determinant
    magnitude is at least the epsilon, [t] is greater than the epsilon, [u]
    and [v] lie within [-eps, 1 + eps], and [u + v <= 1 + eps]. *)
Definition spec_accepts (p : MTParams) : bool :=
  (Math_abs p.(mt_det) >=? EPSILON)
  && (p.(mt_t) >? EPSILON)
  && (p.(mt_u) >=? - EPSILON) && (p.(mt_u) <=? #1 + EPSILON)
  && (p.(mt_v) >=? - EPSILON) && (p.(mt_v) <=? #1 + EPSILON)
  && (p.(mt_u) + p.(mt_v) <=? #1 + EPSILON).

(** The mean of the squared lengths of [vs], summed in list order. *)
Definition mean_sq (vs : list (Vec3 num)) : num :=
  foldl (fun ke v => ke + lengthSq v) #0 vs / #(Z.of_nat (List.length vs)).

End SpecSide.

Arguments MTParams num : clear implicits.

(** ** Concrete inputs at binary64 *)

Module Examples.

Section Triangles.

Context {num : Type} {JSN : JSNumber num}.
Local Open Scope js_scope.

Definition V (a b c : Z) : Vec3 num := Vector3 #a #b #c.

(** The specification's triangle, in the plane [z = 0]. *)
Definition flat_v0 : Vec3 num := V 0 0 0.
Definition flat_v1 : Vec3 num := V 2 0 0.
Definition flat_v2 : Vec3 num := V 0 2 0.

(** A triangle facing the ray, in the plane [x = 0]. *)
Definition wall_v0 : Vec3 num := V 0 0 0.
Definition wall_v1 : Vec3 num := V 0 2 0.
Definition wall_v2 : Vec3 num := V 0 0 2.

(** The unit right triangle in the plane [x = 1e-8]. *)
Definition near_v0 : Vec3 num := Vector3 EPSILON #0 #0.
Definition near_v1 : Vec3 num := Vector3 EPSILON #1 #0.
Definition near_v2 : Vec3 num := Vector3 EPSILON #0 #1.

End Triangles.

End Examples.

(** ** Notions the properties are stated with *)

Section Notions.

Context {num : Type} {JSN : JSNumber num}.
Local Open Scope js_scope.

(** Two neurons that differ at most in their accumulated force (and in
    [prev], which every substep overwrites). *)
Definition same_body (a b : Neuron num) : Prop :=
  a.(pos) = b.(pos) /\ a.(vel) = b.(vel)
  /\ a.(layer) = b.(layer) /\ a.(idx) = b.(idx).

(** Every neuron's position classifies as interior. *)
Definition all_interior (this : STLLayout num) : Prop :=
  Forall (fun n => _isInside this n.(pos) = true) this.(_neurons).

(** What one turn of the integration loop commits for the neuron [m] (with
    its force accumulated): the integrated state when the new position is
    interior, otherwise the old position and the velocity times [-0.3]. *)
Definition committed (this : STLLayout num) (dt : num) (m n' : Neuron num)
  : Prop :=
  if _isInside this (integrated_pos this dt m)
  then n'.(pos) = integrated_pos this dt m
       /\ n'.(vel) = integrated_vel this dt m
  else n'.(pos) = m.(pos)
       /\ n'.(vel) = multiplyScalar (integrated_vel this dt m) (- dec 3 10).

(** The grid [after] has the size of [voxels] and every cell set in
    [voxels] is set in [after]. *)
Definition grows (voxels after : list Z) : Prop :=
  List.length after = List.length voxels
  /\ forall c, voxels !! c = Some 1%Z -> after !! c = Some 1%Z.

(** Everything of the layout but the neurons, the energy and the output
    positions. *)
Definition same_setup (s t : STLLayout num) : Prop :=
  s.(kRepel) = t.(kRepel) /\ s.(kLayer) = t.(kLayer)
  /\ s.(kBoundary) = t.(kBoundary) /\ s.(damping) = t.(damping)
  /\ s.(_voxels) = t.(_voxels) /\ s.(_insideCache) = t.(_insideCache)
  /\ s.(_bounds) = t.(_bounds) /\ s.(_layerTargets) = t.(_layerTargets)
  /\ s.(_rafId) = t.(_rafId) /\ s.(isLoaded) = t.(isLoaded).

End Notions.

(** ** A concrete layout at binary64 *)

Module Block.

Import Binary64.
Local Open Scope js_scope.

(** A 32 x 32 x 32 grid over the cube [-5, 5]^3 whose interior cells are
    those with all three indices in 12 .. 19. *)
Definition block_voxels : list Z :=
  ix ← seq 0 32; iy ← seq 0 32; iz ← seq 0 32;
  [if ((12 <=? ix) && (ix <=? 19) && (12 <=? iy) && (iy <=? 19)
       && (12 <=? iz) && (iz <=? 19))%nat
   then 1%Z else 0%Z].

Definition half : float := dec 1 2.

Definition P (a b c : Z) (d : Z) : Vec3 float :=
  Vector3 (dec a d) (dec b d) (dec c d).

Definition at_rest (p v : Vec3 float) (l i : nat) : Neuron float :=
  {| pos := p; prev := p; vel := v; force := P 0 0 0 1; layer := l; idx := i |}.

Definition block_bounds : Bounds float :=
  {| min := P (-5) (-5) (-5) 1; max := P 5 5 5 1; size := P 10 10 10 1 |}.

(** The layout with repulsion coefficient [k], the constructor's other
    coefficients, and the neurons [ns]. *)
Definition layout_with (k : float) (ns : list (Neuron float)) : STLLayout float :=
  {| kRepel := k; kLayer := dec 4 100; kBoundary := dec 4 10;
     damping := dec 85 100;
     _voxels := block_voxels;
     _insideCache := [{| ix := 16; iy := 16; iz := 16 |};
                      {| ix := 12; iy := 19; iz := 15 |}];
     _bounds := block_bounds;
     _neurons := ns; _layerTargets := [P 0 0 (-2) 1; P 0 0 2 1];
     _positions := [[P 0 0 0 1]; [P 0 0 0 1]];
     _rafId := None; isLoaded := true; energy := #0 |}.

(** The constructor's [kRepel = 0.6]. *)
Definition block (ns : list (Neuron float)) : STLLayout float :=
  layout_with (dec 6 10) ns.

(** Two neurons: one near the centre, one close to the block's +X face and
    heading for it at 3 units per second. *)
Definition two_neurons : STLLayout float :=
  block [at_rest (P 0 0 0 1) (P 1 0 0 100) 0 0;
         at_rest (P 122 25 0 100) (P 300 0 0 100) 1 0].

(** Two neurons at rest, a tenth of a unit apart, with the (finite)
    repulsion coefficient 1e308. *)
Definition overflowing : STLLayout float :=
  layout_with #(10 ^ 308)
    [at_rest (P 0 0 0 1) (P 0 0 0 1) 0 0;
     at_rest (P 1 0 0 10) (P 0 0 0 1) 1 0].

(** Two small parallel squares, at [x = 0] and [x = 1/2], over
    [0, 1/2] x [0, 1/2], and one triangle parallel to the rays that stretches
    the bounding box to [0, 10]^3. *)
Definition slab : BufferGeometry float :=
  {| position := [Vector3 #0 #0 #0; Vector3 #0 half #0; Vector3 #0 half half;
                  Vector3 #0 #0 #0; Vector3 #0 half half; Vector3 #0 #0 half;
                  Vector3 half #0 #0; Vector3 half half #0;
                  Vector3 half half half;
                  Vector3 half #0 #0; Vector3 half half half;
                  Vector3 half #0 half;
                  Vector3 #0 #0 #0; Vector3 #10 #10 #10; Vector3 #10 #0 #0];
     index := None |}.

(** Two parallel squares, at [x = 0] and [x = 1], over [0, 4] x [0, 4]. *)
Definition tall_slab : BufferGeometry float :=
  {| position := [Vector3 #0 #0 #0; Vector3 #0 #4 #0; Vector3 #0 #4 #4;
                  Vector3 #0 #0 #0; Vector3 #0 #4 #4; Vector3 #0 #0 #4;
                  Vector3 #1 #0 #0; Vector3 #1 #4 #0; Vector3 #1 #4 #4;
                  Vector3 #1 #0 #0; Vector3 #1 #4 #4; Vector3 #1 #0 #4];
     index := None |}.

Definition half_draws : Random float := fun _ => dec 1 2.

(** Two loads, the second started while the first is at its first
    checkpoint: the first load is started and its voxelisation begins
    ([first_begun]); the second load is started and its voxelisation begins
    ([second_begun]); then the first job is resumed ([first_resumed]). *)
Definition first_started := loadFile (block []) slab.
Definition first_begun := resume half_draws first_started.2 first_started.1 0.
Definition second_started := loadFile first_begun.1.1 tall_slab.
Definition second_begun :=
  resume half_draws second_started.2 second_started.1 first_begun.1.2.
Definition first_resumed :=
  resume half_draws first_begun.2 second_begun.1.1 second_begun.1.2.

(** All three components are finite numbers. *)
Definition vec_finite (p : Vec3 float) : bool :=
  is_finite p.(x) && is_finite p.(y) && is_finite p.(z).

(** A mesh whose vertices all coincide: one triangle collapsed to the point
    [(1, 2, 3)]. *)
Definition point_mesh : BufferGeometry float :=
  {| position := [Vector3 #1 #2 #3; Vector3 #1 #2 #3; Vector3 #1 #2 #3];
     index := None |}.

(** A square in the plane [x = 0], as two triangles: a mesh without extent
    along X. *)
Definition flat_sheet : BufferGeometry float :=
  {| position := [Vector3 #0 #0 #0; Vector3 #0 #4 #0; Vector3 #0 #4 #4;
                  Vector3 #0 #0 #0; Vector3 #0 #4 #4; Vector3 #0 #0 #4];
     index := None |}.

(** [Math.random] answering 0 every time. *)
Definition zero_draws : Random float := fun _ => #0.

(** Two loads in a row: the load of [slab] is started and its voxelisation
    begins ([slab_begun]); the load of [flat_sheet] is started and its
    voxelisation begins ([sheet_begun]); then the first job is given its
    eight turns and ends ([overlapped]), which is when the first [loadFile]
    sets [isLoaded] and calls [onReady]. *)
Definition slab_begun := resume zero_draws first_started.2 first_started.1 0.
Definition sheet_started := loadFile slab_begun.1.1 flat_sheet.
Definition sheet_begun :=
  resume zero_draws sheet_started.2 sheet_started.1 slab_begun.1.2.
Definition overlapped :=
  run_alone zero_draws 8 slab_begun.2 sheet_begun.1.1 sheet_begun.1.2.

End Block.

(** ** Notions for the scanline *)

Section ScanlineNotions.

Local Open Scope js_scope.
Context {num : Type} {JSN : JSNumber num}.

(** The [ix] values the marking loop of one span runs over. *)
Definition span_columns (mn sz : Vec3 num) (x0 x1 : num) : list Z :=
  let G := #GRID_SIZE in
  let ix0 := Math_max #0 (Math_floor ((x0 - mn.(x)) / sz.(x) * G)) in
  let ix1 := Math_min (G - #1) (Math_floor ((x1 - mn.(x)) / sz.(x) * G)) in
  match num_to_Z ix0, num_to_Z ix1 with
  | Some a, Some b => seqZ a (b - a + 1)
  | _, _ => []
  end.

(** The array indices written for the pair [(deduped[2k], deduped[2k+1])]. *)
Definition pair_writes (mn sz : Vec3 num) (iy iz : nat) (deduped : list num)
    (k : nat) : list Z :=
  match deduped !! (2 * k)%nat, deduped !! (2 * k + 1)%nat with
  | Some x0, Some x1 =>
      map (fun ix => cell_index ix (Z.of_nat iy) (Z.of_nat iz))
          (span_columns mn sz x0 x1)
  | _, _ => []
  end.

(** Index [c] of the array is among the writes [ks]. *)
Definition written (c : nat) (ks : list Z) : Prop :=
  exists k, k ∈ ks /\ (0 <= k)%Z /\ Z.to_nat k = c.

(** The hits collected on the scanline [(iy, iz)], before sorting. *)
Definition scanline_hits (job : VoxelJob num) (iy iz : nat) : list num :=
  let G := #GRID_SIZE in
  scan_hits job.(job_geo) (rayOX_of job)
    (job.(job_min).(y) + (#(Z.of_nat iy) + dec 1 2) / G * job.(job_size).(y))
    (job.(job_min).(z) + (#(Z.of_nat iz) + dec 1 2) / G * job.(job_size).(z)).

(** All the array indices written for the scanline: those of the pairs
    [(deduped[2k], deduped[2k+1])], [2k + 1 < length]. *)
Definition scanline_writes (job : VoxelJob num) (iy iz : nat)
    (deduped : list num) : list Z :=
  k ← seq 0 (List.length deduped / 2);
  pair_writes job.(job_min) job.(job_size) iy iz deduped k.

End ScanlineNotions.

(** ** Notions and inputs over the reals *)

Module RealNotions.

Local Open Scope R_scope.

(** The epsilon of [_rayTriX]. *)
Definition eps : R := 1 / 100000000.

(** The squared Euclidean norm. *)
Definition norm2 (d : Vec3 R) : R :=
  d.(x) * d.(x) + d.(y) * d.(y) + d.(z) * d.(z).

(** Two neurons half a unit apart. *)
Definition apart : list (Neuron R) :=
  [ {| pos := Vector3 0 0 0; prev := Vector3 0 0 0; vel := Vector3 0 0 0;
       force := Vector3 0 0 0; layer := 0; idx := 0 |};
    {| pos := Vector3 (1 / 2) 0 0; prev := Vector3 (1 / 2) 0 0;
       vel := Vector3 0 0 0; force := Vector3 0 0 0; layer := 0; idx := 1 |} ].

(** One step of the bounding-box loop on a non-empty box. *)
Definition expand (b : Box3 R) (p : Vec3 R) : Box3 R :=
  {| box_min := vec_min b.(box_min) p; box_max := vec_max b.(box_max) p |}.

(** A map acting on each coordinate, on vectors and on boxes. *)
Definition vmap (fx fy fz : R -> R) (p : Vec3 R) : Vec3 R :=
  Vector3 (fx p.(x)) (fy p.(y)) (fz p.(z)).

Definition bmap (fx fy fz : R -> R) (b : Box3 R) : Box3 R :=
  {| box_min := vmap fx fy fz b.(box_min); box_max := vmap fx fy fz b.(box_max) |}.

(** The componentwise order. *)
Definition vle (a b : Vec3 R) : Prop :=
  a.(x) <= b.(x) /\ a.(y) <= b.(y) /\ a.(z) <= b.(z).

Definition monotone (f : R -> R) : Prop := forall a b, a <= b -> f a <= f b.

(** A single triangle, as a non-indexed geometry. *)
Definition tri_geo : BufferGeometry R :=
  {| position := [Vector3 0 0 0; Vector3 2 0 0; Vector3 0 4 0];
     index := None |}.

(** A cached cell lies in the grid and its voxel is set. *)
Definition cell_ok (voxels : list Z) (c : Cell) : Prop :=
  (c.(ix) < 32)%nat /\ (c.(iy) < 32)%nat /\ (c.(iz) < 32)%nat
  /\ voxels !! (c.(ix) * 32 * 32 + c.(iy) * 32 + c.(iz))%nat = Some 1%Z.

(** The state in which the sampler runs: bounds of positive extent, and a
    cache of at most [2^31 - 1] interior cells of the grid. *)
Definition cache_wf (this : STLLayout R) : Prop :=
  0 < this.(_bounds).(size).(x) /\ 0 < this.(_bounds).(size).(y)
  /\ 0 < this.(_bounds).(size).(z)
  /\ (Z.of_nat (List.length this.(_insideCache)) < 2 ^ 31)%Z
  /\ Forall (cell_ok this.(_voxels)) this.(_insideCache).

(** [Math.random()] returns numbers in [[0, 1)]. *)
Definition unit_random (rnd : Random R) : Prop := forall k, 0 <= rnd k < 1.

(** The block grid of [Block] with real bounds, one cached cell, and a
    random source that always answers 1/2. *)
Definition real_block : STLLayout R :=
  {| kRepel := 6 / 10; kLayer := 4 / 100; kBoundary := 4 / 10;
     damping := 85 / 100;
     _voxels := Block.block_voxels;
     _insideCache := [{| ix := 16; iy := 16; iz := 16 |}];
     _bounds := {| min := Vector3 (-5) (-5) (-5); max := Vector3 5 5 5;
                   size := Vector3 10 10 10 |};
     _neurons := []; _layerTargets := []; _positions := [];
     _rafId := None; isLoaded := true; energy := 0 |}.

Definition half_random : Random R := fun _ => 1 / 2.

(** Consecutive kept hits are more than [1e-5] apart. *)
Definition gap (a b : R) : Prop := 1 / 100000 < b - a.

(** The sum of the forces of all neurons. *)
Definition total_force (ns : list (Neuron R)) : Vec3 R :=
  foldr (fun n acc => add n.(force) acc) (Vector3 0 0 0) ns.

(** The point [p] lies in the cell [(i, j, k)] of the grid over the bounds
    of [this]: each cell is half-open, [1/32] of the extent wide. *)
Definition in_cell (this : STLLayout R) (p : Vec3 R) (i j k : nat) : Prop :=
  let mn := this.(_bounds).(min) in
  let sz := this.(_bounds).(size) in
  (mn.(x) + IZR (Z.of_nat i) / 32 * sz.(x) <= p.(x)
     < mn.(x) + (IZR (Z.of_nat i) + 1) / 32 * sz.(x))
  /\ (mn.(y) + IZR (Z.of_nat j) / 32 * sz.(y) <= p.(y)
     < mn.(y) + (IZR (Z.of_nat j) + 1) / 32 * sz.(y))
  /\ (mn.(z) + IZR (Z.of_nat k) / 32 * sz.(z) <= p.(z)
     < mn.(z) + (IZR (Z.of_nat k) + 1) / 32 * sz.(z)).

(** Bounds of positive extent along the three axes. *)
Definition positive_extent (this : STLLayout R) : Prop :=
  0 < this.(_bounds).(size).(x) /\ 0 < this.(_bounds).(size).(y)
  /\ 0 < this.(_bounds).(size).(z).

(** The velocity [initNeurons] gives a neuron: each component in
    [[-0.05, 0.05)]. *)
Definition slow (n : Neuron R) : Prop :=
  (-5 / 100 <= n.(vel).(x) < 5 / 100)
  /\ (-5 / 100 <= n.(vel).(y) < 5 / 100)
  /\ (-5 / 100 <= n.(vel).(z) < 5 / 100).

(** [lo] and [hi] are the corners of the smallest axis-aligned box holding
    the points [ps]: every point lies between them on each axis, and on each
    axis some point has the coordinate of [lo] and some point that of
    [hi]. *)
Definition tight_box (ps : list (Vec3 R)) (lo hi : Vec3 R) : Prop :=
  Forall (fun p => vle lo p /\ vle p hi) ps
  /\ (exists p, p ∈ ps /\ p.(x) = lo.(x))
  /\ (exists p, p ∈ ps /\ p.(y) = lo.(y))
  /\ (exists p, p ∈ ps /\ p.(z) = lo.(z))
  /\ (exists p, p ∈ ps /\ p.(x) = hi.(x))
  /\ (exists p, p ∈ ps /\ p.(y) = hi.(y))
  /\ (exists p, p ∈ ps /\ p.(z) = hi.(z)).

End RealNotions.

(** ** Notions for a load *)

Section LoadNotions.

Context {num : Type} {JSN : JSNumber num}.

(** Every byte of the grid is 0 or 1. *)
Definition binary_grid (voxels : list Z) : Prop :=
  Forall (fun b => b = 0%Z \/ b = 1%Z) voxels.

(** The job [_voxelize] runs for the geometry [geo] in the bounds [b]. *)
Definition job_of (geo : BufferGeometry num) (b : Bounds num) : VoxelJob num :=
  {| job_geo := geo; job_min := b.(min); job_size := b.(size); job_iy := 0 |}.

(** The grid once all 32 rows of the job have been marked on an all-zero
    grid. *)
Definition voxel_grid (job : VoxelJob num) : list Z :=
  foldl (voxelize_row job)
        (replicate (Z.to_nat (GRID_SIZE * GRID_SIZE * GRID_SIZE)) 0%Z)
        (seq 0 (Z.to_nat GRID_SIZE)).

End LoadNotions.

(** ** Seeding the neurons ([initNeurons]) and the animation loop *)

Section Seeding.

Local Open Scope js_scope.
Context {num : Type} {JSN : JSNumber num}.

(** What [initNeurons] reads of the [NeuralNetwork]: the sizes
    [layerConfigs[l].size] of its layers; [numLayers] is their number
    (NeuralNetwork.js, [configure]). *)
Record Network : Type := { layerConfigs : list nat }.

Definition numLayers (network : Network) : nat :=
  List.length network.(layerConfigs).

Inductive Axis : Type := axis_x | axis_y | axis_z.

(** The longest dimension of the bounding box, [x] before [y] before [z]
    on ties. *)
Definition principal_axis (size : Vec3 num) : Axis :=
  if (size.(x) >=? size.(y)) && (size.(x) >=? size.(z)) then axis_x
  else if size.(y) >=? size.(z) then axis_y
  else axis_z.

(** [v[axis]] and [v[axis] = c]. *)
Definition component (a : Axis) (v : Vec3 num) : num :=
  match a with axis_x => v.(x) | axis_y => v.(y) | axis_z => v.(z) end.

Definition set_component (a : Axis) (v : Vec3 num) (c : num) : Vec3 num :=
  match a with
  | axis_x => Vector3 c v.(y) v.(z)
  | axis_y => Vector3 v.(x) c v.(z)
  | axis_z => Vector3 v.(x) v.(y) c
  end.

(** The body of the first loop of [initNeurons]: the target of layer [l]
    among [n] layers. *)
Definition layer_target (this : STLLayout num) (n l : nat) : Vec3 num :=
  let mn := this.(_bounds).(min) in
  let sz := this.(_bounds).(size) in
  let axis := principal_axis sz in
  let t := if (n =? 1)%nat then dec 1 2
           else #(Z.of_nat l) / (#(Z.of_nat n) - #1) in
  let axisV := component axis mn
               + component axis sz * (t * dec 74 100 + dec 13 100) in
  let center := multiplyScalar (add this.(_bounds).(min) this.(_bounds).(max))
                               (dec 1 2) in
  set_component axis center axisV.

(** The number of calls of [Math.random] made so far when
    [_findInsidePointNear], started after [k] of them, returns. *)
Definition sampler_draws (this : STLLayout num) (rnd : Random num) (k : nat)
    (target : Vec3 num) (maxTries : nat) : nat :=
  let spread := vec_length this.(_bounds).(size) * dec 25 100 in
  match sample_tries this rnd target spread maxTries k with
  | (Some _, k') => k'
  | (None, k') => (k' + Nat.min 60 (List.length this.(_insideCache)))%nat
  end.

(** The body of the inner seeding loop: neuron [i] of layer [l].  [None]
    when the sampler threw. *)
Definition seed_neuron (this : STLLayout num) (rnd : Random num)
    (target : Vec3 num) (l i k : nat) : option (Neuron num * nat) :=
  p ← _findInsidePointNear this rnd k target 40;
  let k1 := sampler_draws this rnd k target 40 in
  Some ({| pos := p; prev := p;
           vel := Vector3 ((rnd k1 - dec 1 2) * dec 1 10)
                          ((rnd (k1 + 1)%nat - dec 1 2) * dec 1 10)
                          ((rnd (k1 + 2)%nat - dec 1 2) * dec 1 10);
           force := Vector3 #0 #0 #0; layer := l; idx := i |},
        (k1 + 3)%nat).

(** [for (i = ...; i < n; i++)] of layer [l], entered at [i] with [n]
    neurons still to place. *)
Fixpoint seed_layer (this : STLLayout num) (rnd : Random num)
    (target : Vec3 num) (l : nat) (n i k : nat)
  : option (list (Neuron num) * nat) :=
  match n with
  | O => Some ([], k)
  | S n' =>
      '(nr, k1) ← seed_neuron this rnd target l i k;
      '(rest, k2) ← seed_layer this rnd target l n' (S i) k1;
      Some (nr :: rest, k2)
  end.

(** The second loop of [initNeurons], entered at layer [l]; [layers] pairs
    [this._layerTargets[l]] with [network.layerConfigs[l].size] for the
    layers still to seed. *)
Fixpoint seed_layers (this : STLLayout num) (rnd : Random num)
    (layers : list (Vec3 num * nat)) (l k : nat)
  : option (list (list (Neuron num)) * nat) :=
  match layers with
  | [] => Some ([], k)
  | (target, n) :: layers' =>
      '(row, k1) ← seed_layer this rnd target l n 0 k;
      '(rows, k2) ← seed_layers this rnd layers' (S l) k1;
      Some (row :: rows, k2)
  end.

Definition set_seeded (this : STLLayout num) (targets : list (Vec3 num))
    (ps : list (list (Vec3 num))) (ns : list (Neuron num)) : STLLayout num :=
  {| kRepel := this.(kRepel); kLayer := this.(kLayer);
     kBoundary := this.(kBoundary); damping := this.(damping);
     _voxels := this.(_voxels); _insideCache := this.(_insideCache);
     _bounds := this.(_bounds); _neurons := ns;
     _layerTargets := targets; _positions := ps;
     _rafId := this.(_rafId); isLoaded := this.(isLoaded);
     energy := this.(energy) |}.

(** [initNeurons(network)], started after [k] draws.  [None]: a TypeError
    was thrown while seeding. *)
Definition initNeurons (this : STLLayout num) (rnd : Random num) (k : nat)
    (network : Network) : option (STLLayout num * nat) :=
  if negb this.(isLoaded) || (List.length this.(_insideCache) =? 0)%nat
  then Some (this, k)
  else
    let n := numLayers network in
    let targets := map (layer_target this n) (seq 0 n) in
    '(rows, k') ← seed_layers this rnd (zip targets network.(layerConfigs)) 0 k;
    Some (set_seeded this targets (map (map pos) rows) (concat rows), k').

(** [start()]; [handle] is what [requestAnimationFrame] returns. *)
Definition start (this : STLLayout num) (handle : nat) : STLLayout num :=
  match this.(_rafId) with
  | Some _ => this
  | None => set_loading this this.(isLoaded) (Some handle)
  end.

(** One animation frame, the callback [loop] of [start]: the next frame is
    requested, then the tick runs. *)
Definition frame (this : STLLayout num) (handle : nat) : STLLayout num :=
  _step (set_loading this this.(isLoaded) (Some handle)).

(** [getPositions()] *)
Definition getPositions (this : STLLayout num) : list (list (Vec3 num)) :=
  this.(_positions).

End Seeding.

Section SeedingNotions.

Local Open Scope js_scope.
Context {num : Type} {JSN : JSNumber num}.

(** The labels [(layer, index)] of the neurons, in order. *)
Definition labels (ns : list (Neuron num)) : list (nat * nat) :=
  map (fun n => (n.(layer), n.(idx))) ns.

(** The labels of a network whose layers have the sizes [sizes], the first
    of them being layer [l]. *)
Fixpoint layer_labels (l : nat) (sizes : list nat) : list (nat * nat) :=
  match sizes with
  | [] => []
  | n :: sizes' => map (pair l) (seq 0 n) ++ layer_labels (S l) sizes'
  end.

(** A neuron as [initNeurons] creates it: at rest in the sense that it has
    not moved yet and no force has been accumulated. *)
Definition fresh (n : Neuron num) : Prop :=
  n.(prev) = n.(pos) /\ n.(force) = Vector3 #0 #0 #0.

End SeedingNotions.

(** ** Notions for the boundary force and for degenerate bounds *)

(** The cells around [(i, j, k)] that the boundary loop visits are all in
    the grid and have a non-zero byte. *)
Definition solid_around (voxels : list Z) (i j k : Z) : bool :=
  forallb (fun d : Z * Z * Z =>
             let '(dx, dy, dz) := d in
             let nx := (i + dx)%Z in
             let ny := (j + dy)%Z in
             let nz := (k + dz)%Z in
             ((dx =? 0) && (dy =? 0) && (dz =? 0))%Z
             || ((0 <=? nx) && (nx <? 32) && (0 <=? ny) && (ny <? 32)
                 && (0 <=? nz) && (nz <? 32))%Z
                && match voxels !! Z.to_nat (cell_index nx ny nz) with
                   | Some b => negb (b =? 0)%Z
                   | None => false
                   end)
          neighbourhood.

Module Flat.

Import Binary64 Block.

(** [+0] or [-0]. *)
Definition is_zero (a : float) : bool :=
  match a with S754_zero _ => true | _ => false end.

(** The bounds have no extent along some axis, as those of a mesh lying in
    a plane normal to it. *)
Definition flat_bounds (b : Bounds float) : bool :=
  is_zero b.(size).(x) || is_zero b.(size).(y) || is_zero b.(size).(z).

(** The block layout with the bounds of a mesh in the plane [x = 0]. *)
Definition flat_block : STLLayout float :=
  set_grid (block [])
    {| min := P 0 (-5) (-5) 1; max := P 0 5 5 1; size := P 0 10 10 1 |}
    block_voxels [{| ix := 16; iy := 16; iz := 16 |}].

End Flat.

(** ** The network's layer sizes ([NeuralNetwork.configure]) *)

Section Configure.

Local Open Scope js_scope.
Context {num : Type} {JSN : JSNumber num}.

(** [configure(layerConfigs)], as far as the sizes go:
    [size: Math.max(1, l.size | 0)] for every layer. *)
Definition configure (sizes : list num) : Network :=
  {| layerConfigs := map (fun s => Z.to_nat (Z.max 1 (ToInt32 s))) sizes |}.

End Configure.

(** * Properties *)

(** [vm_evaluate t] replaces the closed term [t] in the goal by its value. *)
Ltac vm_evaluate t :=
  let v := eval vm_compute in t in
  let E := fresh "E" in
  assert (E : t = v) by (vm_compute; reflexivity);
  rewrite E; clear E.

(** ** Real arithmetic: deciding the comparisons *)

Module IdealFacts.

Import Ideal.
Local Open Scope R_scope.

Lemma Rltb_true (a b : R) : a < b -> Rltb a b = true.
Proof. unfold Rltb. destruct (Rlt_dec a b); [reflexivity | contradiction]. Qed.

Lemma Rltb_false (a b : R) : b <= a -> Rltb a b = false.
Proof. unfold Rltb. destruct (Rlt_dec a b); [lra | reflexivity]. Qed.

Lemma Rleb_true (a b : R) : a <= b -> Rleb a b = true.
Proof. unfold Rleb. destruct (Rle_dec a b); [reflexivity | contradiction]. Qed.

Lemma Rleb_false (a b : R) : b < a -> Rleb a b = false.
Proof. unfold Rleb. destruct (Rle_dec a b); [lra | reflexivity]. Qed.

Lemma Rltb_spec (a b : R) : Rltb a b = true <-> a < b.
Proof. unfold Rltb. destruct (Rlt_dec a b); split; auto; discriminate. Qed.

Lemma Rleb_spec (a b : R) : Rleb a b = true <-> a <= b.
Proof. unfold Rleb. destruct (Rle_dec a b); split; auto; discriminate. Qed.

Lemma Rltb_nlt (a b : R) : Rltb a b = false <-> b <= a.
Proof. unfold Rltb. destruct (Rlt_dec a b); split; intros; try lra; auto; discriminate. Qed.

Lemma Rleb_nle (a b : R) : Rleb a b = false <-> b < a.
Proof. unfold Rleb. destruct (Rle_dec a b); split; intros; try lra; auto; discriminate. Qed.

Lemma Int_part_IZR (n : Z) : Int_part (IZR n) = n.
Proof.
  assert (H : (n + 1)%Z = up (IZR n)) by (apply tech_up; rewrite plus_IZR; lra).
  unfold Int_part. lia.
Qed.

Lemma Int_part_between (n : Z) (a : R) : IZR n <= a < IZR n + 1 -> Int_part a = n.
Proof.
  intros [Hl Hr].
  assert (H : (n + 1)%Z = up a) by (apply tech_up; rewrite plus_IZR; lra).
  unfold Int_part. lia.
Qed.

Lemma Int_part_bounds (a : R) : IZR (Int_part a) <= a < IZR (Int_part a) + 1.
Proof.
  unfold Int_part. destruct (archimed a) as [H1 H2].
  rewrite minus_IZR. lra.
Qed.

Lemma R_to_Z_IZR (n : Z) : R_to_Z (IZR n) = Some n.
Proof.
  unfold R_to_Z. rewrite Int_part_IZR.
  destruct (Req_dec_T (IZR n) (IZR n)); [reflexivity | contradiction].
Qed.

Lemma Rfloor_IZR (n : Z) : Rfloor (IZR n) = IZR n.
Proof. unfold Rfloor. now rewrite Int_part_IZR. Qed.

(** Unfold the operations of the real instance, for [lra] and [ring]. *)
Ltac real_ops :=
  cbn [num_of_Z num_add num_sub num_mul num_div num_neg num_lt num_le
       Math_floor Math_abs Math_sqrt Math_max Math_min num_truthy num_to_Z
       num_lt_Infinity real_number] in *.

End IdealFacts.

(** ** The ray-triangle test *)

Module RayTriangle.

Import Ideal IdealFacts RealNotions.
Local Open Scope R_scope.

(** Over the reals the tests of [_rayTriX] are tests on the Moeller-Trumbore
    parameters of the ray: the source's [f * (s . h)] is [(s . h) / a]. *)
Lemma rayTriX_unfold (rayOX wy wz : R) (v0 v1 v2 : Vec3 R) :
  let p := ray_params rayOX wy wz v0 v1 v2 in
  _rayTriX rayOX wy wz v0 v1 v2 =
    if Rltb (Rabs p.(mt_det)) eps then None
    else if Rltb p.(mt_u) (- eps) || Rltb (1 + eps) p.(mt_u) then None
    else if Rltb p.(mt_v) (- eps) || Rltb (1 + eps) (p.(mt_u) + p.(mt_v)) then None
    else if Rltb p.(mt_t) eps then None
    else Some (rayOX + p.(mt_t)).
Proof.
  destruct v0 as [x0 y0 z0], v1 as [x1 y1 z1], v2 as [x2 y2 z2].
  unfold _rayTriX, ray_params, moller_trumbore, dot, cross, subVectors,
    EPSILON, dec, eps.
  cbn.
  set (A := (y1 - y0) * - (z2 - z0) + (z1 - z0) * (y2 - y0)).
  set (U := (wy - y0) * - (z2 - z0) + (wz - z0) * (y2 - y0)).
  set (Q := (wy - y0) * (z1 - z0) - (wz - z0) * (y1 - y0)).
  set (T := (x2 - x0) * Q +
           (y2 - y0) * ((wz - z0) * (x1 - x0) - (rayOX - x0) * (z1 - z0)) +
           (z2 - z0) * ((rayOX - x0) * (y1 - y0) - (wy - y0) * (x1 - x0))).
  replace ((x1 - x0) * (0 * (z2 - z0) - 0 * (y2 - y0)) +
           (y1 - y0) * (0 * (x2 - x0) - 1 * (z2 - z0)) +
           (z1 - z0) * (1 * (y2 - y0) - 0 * (x2 - x0))) with A by (unfold A; ring).
  replace (((rayOX - x0) * (0 * (z2 - z0) - 0 * (y2 - y0)) +
            (wy - y0) * (0 * (x2 - x0) - 1 * (z2 - z0)) +
            (wz - z0) * (1 * (y2 - y0) - 0 * (x2 - x0))) / A)
    with (1 / A * U) by (unfold U, Rdiv; ring).
  replace ((1 * Q +
            0 * ((wz - z0) * (x1 - x0) - (rayOX - x0) * (z1 - z0)) +
            0 * ((rayOX - x0) * (y1 - y0) - (wy - y0) * (x1 - x0))) / A)
    with (1 / A * Q) by (unfold Rdiv; ring).
  replace (T / A) with (1 / A * T) by (unfold Rdiv; ring).
  reflexivity.
Qed.

Lemma rayTriX_hit_iff (rayOX wy wz : R) (v0 v1 v2 : Vec3 R) (X : R) :
  let p := ray_params rayOX wy wz v0 v1 v2 in
  _rayTriX rayOX wy wz v0 v1 v2 = Some X <->
     eps <= Rabs p.(mt_det) /\
     - eps <= p.(mt_u) <= 1 + eps /\
     - eps <= p.(mt_v) /\
     p.(mt_u) + p.(mt_v) <= 1 + eps /\
     eps <= p.(mt_t) /\
     X = rayOX + p.(mt_t).
Proof.
  intros p. rewrite rayTriX_unfold. fold p.
  destruct (Rltb (Rabs (mt_det p)) eps) eqn:Ea;
  destruct (Rltb (mt_u p) (- eps)) eqn:Eu1;
  destruct (Rltb (1 + eps) (mt_u p)) eqn:Eu2;
  destruct (Rltb (mt_v p) (- eps)) eqn:Ev;
  destruct (Rltb (1 + eps) (mt_u p + mt_v p)) eqn:Euv;
  destruct (Rltb (mt_t p) eps) eqn:Et; cbn [orb];
  rewrite ?Rltb_spec, ?Rltb_nlt in *;
  (split;
   [ intros H; try discriminate H; injection H as <-; repeat split; lra
   | intros (Ha & [Hu1 Hu2] & Hv & Huv & Ht & HX); try lra;
     subst X; reflexivity ]).
Qed.

(** A hit is where the ray meets the triangle's plane: the point
    [(X, wy, wz)] has barycentric coordinates [u], [v]. *)
Lemma rayTriX_hit_point (rayOX wy wz : R) (v0 v1 v2 : Vec3 R) (X : R) :
  let p := ray_params rayOX wy wz v0 v1 v2 in
  _rayTriX rayOX wy wz v0 v1 v2 = Some X ->
  Vector3 X wy wz =
  add v0 (add (multiplyScalar (subVectors v1 v0) p.(mt_u))
              (multiplyScalar (subVectors v2 v0) p.(mt_v))).
Proof.
  intros p H. apply rayTriX_hit_iff in H. fold p in H.
  destruct H as (Ha & _ & _ & _ & _ & ->).
  assert (Hne : p.(mt_det) <> 0).
  { intros E. rewrite E, Rabs_R0 in Ha. unfold eps in Ha. lra. }
  clear Ha. revert Hne. subst p.
  destruct v0 as [x0 y0 z0], v1 as [x1 y1 z1], v2 as [x2 y2 z2].
  unfold ray_params, moller_trumbore, dot, cross, subVectors, add,
    multiplyScalar.
  cbn. intros Hne.
  f_equal; field.
  all: intros E; apply Hne; etransitivity; [|exact E]; ring.
Qed.

(** C3 (as the code has it).  For every triangle and every scanline ray,
    [_rayTriX] returns a hit exactly when the determinant magnitude is at
    least [1e-8], [u] lies in [[-eps, 1 + eps]], [v >= -eps],
    [u + v <= 1 + eps] and [t >= eps]; the value returned is then the
    world X coordinate [rayOX + t] of the point where the ray meets the
    triangle's plane.  ([v] has no upper bound of its own, and [t = eps] is
    accepted.) *)
Theorem rayTriX_accepts (rayOX wy wz : R) (v0 v1 v2 : Vec3 R) (X : R) :
  let p := ray_params rayOX wy wz v0 v1 v2 in
  (_rayTriX rayOX wy wz v0 v1 v2 = Some X <->
     eps <= Rabs p.(mt_det) /\
     - eps <= p.(mt_u) <= 1 + eps /\
     - eps <= p.(mt_v) /\
     p.(mt_u) + p.(mt_v) <= 1 + eps /\
     eps <= p.(mt_t) /\
     X = rayOX + p.(mt_t))
  /\
  (_rayTriX rayOX wy wz v0 v1 v2 = Some X ->
     Vector3 X wy wz =
     add v0 (add (multiplyScalar (subVectors v1 v0) p.(mt_u))
                 (multiplyScalar (subVectors v2 v0) p.(mt_v)))).
Proof.
  intros p. split.
  - apply rayTriX_hit_iff.
  - apply rayTriX_hit_point.
Qed.

End RayTriangle.

Module RayTriangleExamples.

Import Ideal IdealFacts Binary64 Examples.
Local Open Scope js_scope.

(** C3 (as the specification words it) fails at binary64.  On the unit right
    triangle in the plane [x = 1e-8]: the ray from [x = 0] through
    [(1/4, 1/4)] is hit although [t] equals the epsilon, and the ray from
    [x = -1] through [(-1e-8, 1 + 1.5e-8)] is hit although [v] exceeds
    [1 + eps]. *)
Lemma rayTriX_spec_mismatch :
  let p1 := @ray_params float _ #0 (dec 1 4) (dec 1 4) near_v0 near_v1 near_v2 in
  let wz := #1 + dec 15 1000000000 in
  let p2 := @ray_params float _ #(-1) (- EPSILON) wz near_v0 near_v1 near_v2 in
  (@_rayTriX float _ #0 (dec 1 4) (dec 1 4) near_v0 near_v1 near_v2
     = Some EPSILON
   /\ p1.(mt_t) = EPSILON /\ spec_accepts p1 = false)
  /\
  (@_rayTriX float _ #(-1) (- EPSILON) wz near_v0 near_v1 near_v2 <> None
   /\ (p2.(mt_v) <=? #1 + EPSILON) = false /\ spec_accepts p2 = false).
Proof. vm_compute. repeat split; discriminate. Qed.

Lemma flat_triangle_real (rayOX wy wz : R) :
  _rayTriX rayOX wy wz flat_v0 flat_v1 flat_v2 = None.
Proof.
  rewrite RayTriangle.rayTriX_unfold. cbn.
  rewrite Rltb_true; [reflexivity|].
  match goal with |- (Rabs ?a < _)%R => replace a with 0%R by ring end.
  rewrite Rabs_R0. unfold RealNotions.eps. lra.
Qed.

Lemma flat_triangle_float (rayOX wy wz : float) :
  _rayTriX rayOX wy wz flat_v0 flat_v1 flat_v2 = None.
Proof. reflexivity. Qed.

Lemma wall_triangle_real :
  @_rayTriX R _ #(-1) (dec 1 2) (dec 1 2) wall_v0 wall_v1 wall_v2 = Some 0%R
  /\ @_rayTriX R _ #(-1) #3 (dec 1 2) wall_v0 wall_v1 wall_v2 = None.
Proof.
  split.
  - apply RayTriangle.rayTriX_hit_iff. unfold RealNotions.eps. cbn.
    replace ((0 - 0) * (0 * (2 - 0) - 0 * (0 - 0)) +
             (2 - 0) * (0 * (0 - 0) - 1 * (2 - 0)) +
             (0 - 0) * (1 * (0 - 0) - 0 * (0 - 0)))%R with (-4)%R by ring.
    rewrite Rabs_left by lra. repeat split; lra.
  - rewrite RayTriangle.rayTriX_unfold. unfold RealNotions.eps. cbn.
    replace ((0 - 0) * (0 * (2 - 0) - 0 * (0 - 0)) +
             (2 - 0) * (0 * (0 - 0) - 1 * (2 - 0)) +
             (0 - 0) * (1 * (0 - 0) - 0 * (0 - 0)))%R with (-4)%R by ring.
    rewrite Rabs_left by lra.
    rewrite Rltb_false by lra.
    rewrite Rltb_false by lra.
    rewrite (Rltb_true (1 + _)) by lra. reflexivity.
Qed.

(** C7 (as the specification words it) fails: the ray along +X through
    [y = 0.5], [z = 0.5] does not hit the triangle (0,0,0), (2,0,0), (0,2,0);
    neither does the one in the triangle's own plane. *)
Lemma flat_triangle_example_no_hit :
  ~ (exists X : float,
       _rayTriX #(-1) (dec 1 2) (dec 1 2) flat_v0 flat_v1 flat_v2 = Some X)
  /\ ~ (exists X : float,
       _rayTriX #(-1) (dec 1 2) #0 flat_v0 flat_v1 flat_v2 = Some X).
Proof. split; intros [X H]; vm_compute in H; discriminate. Qed.

(** C7 (as the code has it).  The triangle (0,0,0), (2,0,0), (0,2,0) lies in
    a plane that contains the +X direction, so its determinant is 0 and no
    scanline ray hits it, in real and in binary64 arithmetic.  For the
    triangle (0,0,0), (0,2,0), (0,0,2), which faces the rays, the ray from
    [x = -1] through [y = 0.5], [z = 0.5] returns the world X coordinate 0 of
    the hit ([t = 1]), and the ray through [y = 3] returns no hit. *)
Theorem rayTriX_known_triangles :
  (forall rayOX wy wz : R,
     _rayTriX rayOX wy wz flat_v0 flat_v1 flat_v2 = None)
  /\ (forall rayOX wy wz : float,
     _rayTriX rayOX wy wz flat_v0 flat_v1 flat_v2 = None)
  /\ @_rayTriX R _ #(-1) (dec 1 2) (dec 1 2) wall_v0 wall_v1 wall_v2 = Some 0%R
  /\ @_rayTriX R _ #(-1) #3 (dec 1 2) wall_v0 wall_v1 wall_v2 = None
  /\ @_rayTriX float _ #(-1) (dec 1 2) (dec 1 2) wall_v0 wall_v1 wall_v2 = Some #0
  /\ @_rayTriX float _ #(-1) #3 (dec 1 2) wall_v0 wall_v1 wall_v2 = None.
Proof.
  split; [exact flat_triangle_real|].
  split; [exact flat_triangle_float|].
  split; [apply wall_triangle_real|].
  split; [apply wall_triangle_real|].
  split; reflexivity.
Qed.

End RayTriangleExamples.

(** ** The force simulation keeps the neurons inside *)

Section SimulationFacts.

Local Open Scope js_scope.
Context {num : Type} {JSN : JSNumber num}.

Lemma same_body_refl (a : Neuron num) : same_body a a.
Proof. repeat split. Qed.

Lemma same_body_trans (a b c : Neuron num) :
  same_body a b -> same_body b c -> same_body a c.
Proof. unfold same_body. intuition congruence. Qed.

Lemma same_body_set_force (a b : Neuron num) (f : Vec3 num) :
  same_body a b -> same_body a (set_force b f).
Proof. unfold same_body. cbn. tauto. Qed.

Lemma Forall2_same_body_refl (l : list (Neuron num)) : Forall2 same_body l l.
Proof. induction l; constructor; auto using same_body_refl. Qed.

Lemma Forall2_same_body_trans (l1 l2 l3 : list (Neuron num)) :
  Forall2 same_body l1 l2 -> Forall2 same_body l2 l3 -> Forall2 same_body l1 l3.
Proof.
  intros H. revert l3. induction H; intros l3 H3; inversion H3; subst; constructor;
    eauto using same_body_trans.
Qed.

Lemma Forall2_same_body_insert (l : list (Neuron num)) (i : nat)
    (n : Neuron num) (f : Vec3 num) :
  l !! i = Some n -> Forall2 same_body l (<[i := set_force n f]> l).
Proof.
  revert i. induction l as [|a l IH]; intros [|i] H; cbn in *; try discriminate.
  - injection H as ->. constructor.
    + apply same_body_set_force, same_body_refl.
    + apply Forall2_same_body_refl.
  - constructor; [apply same_body_refl | auto].
Qed.

Lemma repel_pair_same_body (k : num) (l : list (Neuron num)) (ij : nat * nat) :
  Forall2 same_body l (repel_pair k l ij).
Proof.
  unfold repel_pair.
  destruct (l !! ij.1) as [ni|] eqn:Ei; [|apply Forall2_same_body_refl].
  destruct (l !! ij.2) as [nj|] eqn:Ej; [|apply Forall2_same_body_refl].
  eapply Forall2_same_body_trans.
  - apply (Forall2_same_body_insert l ij.1 ni), Ei.
  - set (l' := <[ij.1 := _]> l).
    destruct (decide (ij.1 = ij.2)) as [E|NE].
    + rewrite <- E in *.
      assert (Hlt : (ij.1 < List.length l)%nat) by (eapply lookup_lt_Some; eauto).
      pose proof (list_lookup_insert_eq l ij.1 (set_force ni (add (force ni) (repulsion k (pos ni) (pos nj)))) Hlt) as Hl.
      fold l' in Hl.
      assert (Forall2 same_body l' (<[ij.1 := set_force (set_force ni (add (force ni) (repulsion k (pos ni) (pos nj)))) (sub (force nj) (repulsion k (pos ni) (pos nj)))]> l'))
        by (apply Forall2_same_body_insert; exact Hl).
      assert (nj = ni) by congruence. subst nj. exact H.
    + assert (Hl : l' !! ij.2 = Some nj).
      { unfold l'. rewrite list_lookup_insert_ne; auto. }
      apply Forall2_same_body_insert. exact Hl.
Qed.

Lemma repel_all_same_body (k : num) (l : list (Neuron num)) :
  Forall2 same_body l (repel_all k l).
Proof.
  unfold repel_all. generalize (pairs (List.length l)) as ps.
  intros ps. revert l. induction ps as [|ij ps IH]; intros l; cbn.
  - apply Forall2_same_body_refl.
  - eapply Forall2_same_body_trans; [apply repel_pair_same_body | apply IH].
Qed.

Lemma Forall2_same_body_map (f : Neuron num -> Neuron num) (l : list (Neuron num)) :
  (forall n, same_body n (f n)) -> Forall2 same_body l (map f l).
Proof. intros Hf. induction l; constructor; auto. Qed.

Lemma accumulate_forces_same_body (this : STLLayout num) :
  Forall2 same_body this.(_neurons) (accumulate_forces this).
Proof.
  unfold accumulate_forces.
  eapply Forall2_same_body_trans;
    [apply (Forall2_same_body_map (fun n => set_force n (Vector3 #0 #0 #0)))|].
  { intros n. apply same_body_set_force, same_body_refl. }
  eapply Forall2_same_body_trans; [apply repel_all_same_body|].
  eapply Forall2_same_body_trans;
    [apply (Forall2_same_body_map (layer_guidance this))|].
  { intros n. unfold layer_guidance. destruct (_layerTargets this !! layer n).
    - apply same_body_set_force, same_body_refl.
    - apply same_body_refl. }
  apply Forall2_same_body_map.
  intros n. apply same_body_set_force, same_body_refl.
Qed.

Lemma subStep_neurons (this : STLLayout num) (dt : num) :
  (_subStep this dt).(_neurons) = map (integrate this dt) (accumulate_forces this).
Proof.
  unfold _subStep. destruct (_neurons this) eqn:E; [|reflexivity].
  unfold accumulate_forces. rewrite E. reflexivity.
Qed.

Lemma subStep_grid (this : STLLayout num) (dt : num) :
  (_subStep this dt).(_bounds) = this.(_bounds)
  /\ (_subStep this dt).(_voxels) = this.(_voxels).
Proof. unfold _subStep. destruct (_neurons this); split; reflexivity. Qed.

Lemma isInside_grid (s t : STLLayout num) (p : Vec3 num) :
  s.(_bounds) = t.(_bounds) -> s.(_voxels) = t.(_voxels) ->
  _isInside s p = _isInside t p.
Proof. intros Hb Hv. unfold _isInside. rewrite Hb, Hv. reflexivity. Qed.

Lemma isInside_subStep (this : STLLayout num) (dt : num) (p : Vec3 num) :
  _isInside (_subStep this dt) p = _isInside this p.
Proof. apply isInside_grid; apply subStep_grid. Qed.

Lemma integrate_committed (this : STLLayout num) (dt : num) (m : Neuron num) :
  committed this dt m (integrate this dt m) /\ (integrate this dt m).(prev) = m.(pos).
Proof.
  unfold committed, integrate.
  destruct (_isInside this (integrated_pos this dt m)); cbn; auto.
Qed.

Lemma integrate_interior (this : STLLayout num) (dt : num) (m : Neuron num) :
  _isInside this m.(pos) = true ->
  _isInside this (integrate this dt m).(pos) = true.
Proof.
  intros H. unfold integrate.
  destruct (_isInside this (integrated_pos this dt m)) eqn:E; cbn; auto.
Qed.

Lemma subStep_interior (this : STLLayout num) (dt : num) :
  all_interior this -> all_interior (_subStep this dt).
Proof.
  unfold all_interior. intros H.
  rewrite subStep_neurons.
  pose proof (accumulate_forces_same_body this) as HF.
  revert H HF. generalize (accumulate_forces this) as ms.
  generalize (_neurons this) as ns.
  intros ns ms H HF. induction HF as [|n m ns ms Hnm HF IH]; cbn.
  - constructor.
  - inversion H as [|? ? Hn Hns]; subst. constructor; [|auto].
    rewrite isInside_subStep. apply integrate_interior.
    destruct Hnm as [<- _]. exact Hn.
Qed.

Lemma subSteps_interior (this : STLLayout num) (dts : list num) :
  all_interior this -> all_interior (foldl _subStep this dts).
Proof.
  revert this. induction dts as [|dt dts IH]; intros this H; cbn; auto.
  apply IH, subStep_interior, H.
Qed.

Lemma subSteps_foldl (this : STLLayout num) (n : nat) :
  subSteps this n = foldl _subStep this (replicate n FIXED_DT).
Proof.
  unfold subSteps. revert this. induction n as [|n IH]; intros this; [reflexivity|].
  rewrite Nat.iter_succ_r. cbn. apply IH.
Qed.

Lemma step_neurons (this : STLLayout num) :
  (_step this).(_neurons) = (subSteps this (Z.to_nat SUB_STEPS)).(_neurons)
  /\ (_step this).(_bounds) = (subSteps this (Z.to_nat SUB_STEPS)).(_bounds)
  /\ (_step this).(_voxels) = (subSteps this (Z.to_nat SUB_STEPS)).(_voxels)
  /\ (_step this).(energy) = (subSteps this (Z.to_nat SUB_STEPS)).(energy).
Proof.
  unfold _step. destruct (_neurons this) eqn:E; [|repeat split].
  assert (H : subSteps this (Z.to_nat SUB_STEPS) = this).
  { unfold subSteps. generalize (Z.to_nat SUB_STEPS) as k.
    induction k as [|k IH]; [reflexivity|]. rewrite Nat.iter_succ, IH.
    unfold _subStep. rewrite E. reflexivity. }
  rewrite H. repeat split.
Qed.

Lemma step_interior (this : STLLayout num) :
  all_interior this -> all_interior (_step this).
Proof.
  intros H. unfold all_interior.
  destruct (step_neurons this) as (Hn & Hb & Hv & _). rewrite Hn.
  pose proof (subSteps_interior this (replicate (Z.to_nat SUB_STEPS) FIXED_DT) H) as H3.
  rewrite <- subSteps_foldl in H3. unfold all_interior in H3.
  eapply Forall_impl; [exact H3|].
  intros n Hin. cbn in Hin. rewrite <- Hin. apply isInside_grid; assumption.
Qed.

(** C1.  Starting from neurons whose positions all classify as interior,
    after every substep every committed position classifies as interior: a
    neuron whose integrated position is exterior (or out of the grid) keeps
    its pre-substep position and has its velocity multiplied by [-0.3], the
    others take the integrated position and velocity.  Hence the same holds
    after every sequence of substeps and after a full tick. *)
Theorem substep_keeps_interior (this : STLLayout num) (dts : list num) :
  all_interior this ->
  (forall dt,
     all_interior (_subStep this dt)
     /\ Forall2 (fun n n' => exists m, same_body n m /\ committed this dt m n'
                                       /\ n'.(prev) = n.(pos))
                this.(_neurons) (_subStep this dt).(_neurons))
  /\ all_interior (foldl _subStep this dts)
  /\ all_interior (_step this).
Proof.
  intros H. split; [|split].
  - intros dt. split; [apply subStep_interior, H|].
    rewrite subStep_neurons.
    pose proof (accumulate_forces_same_body this) as HF.
    induction HF as [|n m ns ms Hnm HF IH]; simpl map; constructor; auto.
    exists m. destruct (integrate_committed this dt m) as [Hc Hp].
    split; [exact Hnm|]. split; [exact Hc|]. rewrite Hp. symmetry. apply Hnm.
  - apply subSteps_interior, H.
  - apply step_interior, H.
Qed.

End SimulationFacts.

Module SimulationWitness.

Import Binary64 Block.

Lemma two_neurons_interior : all_interior two_neurons.
Proof.
  unfold all_interior, two_neurons, block, layout_with. cbn [_neurons].
  repeat (constructor; [vm_compute; reflexivity|]). constructor.
Qed.

Lemma substep_keeps_interior_witness :
  all_interior two_neurons
  /\ ((forall dt,
         all_interior (_subStep two_neurons dt)
         /\ Forall2 (fun n n' => exists m, same_body n m
                                           /\ committed two_neurons dt m n'
                                           /\ n'.(prev) = n.(pos))
                    two_neurons.(_neurons) (_subStep two_neurons dt).(_neurons))
      /\ all_interior (foldl _subStep two_neurons [FIXED_DT; FIXED_DT])
      /\ all_interior (_step two_neurons)).
Proof.
  split.
  - exact two_neurons_interior.
  - exact (substep_keeps_interior two_neurons [FIXED_DT; FIXED_DT]
             two_neurons_interior).
Defined.

End SimulationWitness.

(** ** The energy telemetry *)

Section EnergyFacts.

Local Open Scope js_scope.
Context {num : Type} {JSN : JSNumber num}.

Lemma kinetic_mean_sq (this : STLLayout num) (dt : num) (ms : list (Neuron num)) :
  kinetic this dt ms / #(Z.of_nat (List.length ms))
  = mean_sq (map (integrated_vel this dt) ms).
Proof.
  unfold mean_sq, kinetic. rewrite length_map. f_equal.
  generalize (#0 : num) as ke. induction ms as [|m ms IH]; intros ke; cbn; auto.
Qed.

Lemma accumulate_forces_length (this : STLLayout num) :
  List.length (accumulate_forces this) = List.length this.(_neurons).
Proof. symmetry. eapply Forall2_length, accumulate_forces_same_body. Qed.

Lemma subStep_energy (this : STLLayout num) (dt : num) :
  this.(_neurons) <> [] ->
  (_subStep this dt).(energy)
  = mean_sq (map (integrated_vel this dt) (accumulate_forces this)).
Proof.
  intros Hne. unfold _subStep. destruct (_neurons this) as [|n ns] eqn:E; [congruence|].
  cbn [energy set_neurons]. rewrite <- kinetic_mean_sq.
  rewrite accumulate_forces_length, E. reflexivity.
Qed.

Lemma subStep_length (this : STLLayout num) (dt : num) :
  List.length (_subStep this dt).(_neurons) = List.length this.(_neurons).
Proof. rewrite subStep_neurons, length_map. apply accumulate_forces_length. Qed.

Lemma subSteps_length (this : STLLayout num) (n : nat) :
  List.length (subSteps this n).(_neurons) = List.length this.(_neurons).
Proof.
  unfold subSteps. induction n as [|n IH]; [reflexivity|].
  rewrite Nat.iter_succ, subStep_length. exact IH.
Qed.

Lemma integrate_vel (this : STLLayout num) (dt : num) (m : Neuron num) :
  (integrate this dt m).(vel) =
    if _isInside this (integrated_pos this dt m)
    then integrated_vel this dt m
    else multiplyScalar (integrated_vel this dt m) (- dec 3 10).
Proof.
  unfold integrate. destruct (_isInside this (integrated_pos this dt m)); reflexivity.
Qed.

(** C5 (as the code has it).  After a tick of a layout that has neurons,
    [energy] is the mean, over the neurons, of the squared velocity each had
    in the last of the three substeps right after integration
    ([velocity += force * dt], then [velocity *= damping]) and before the
    containment check.  The committed velocity of a neuron is that velocity
    when its new position is interior and [-0.3] times it when the neuron
    was reverted; so [energy] is the mean of the squared committed
    velocities when no neuron was reverted in the last substep. *)
Theorem step_energy (this : STLLayout num) :
  this.(_neurons) <> [] ->
  let last := subSteps this 2 in
  let forced := accumulate_forces last in
  (_step this).(energy) = mean_sq (map (integrated_vel last FIXED_DT) forced)
  /\ Forall2 (fun m n' =>
                n'.(vel) = if _isInside last (integrated_pos last FIXED_DT m)
                           then integrated_vel last FIXED_DT m
                           else multiplyScalar (integrated_vel last FIXED_DT m)
                                               (- dec 3 10))
             forced (_step this).(_neurons)
  /\ (Forall (fun m => _isInside last (integrated_pos last FIXED_DT m) = true)
             forced ->
      (_step this).(energy) = mean_sq (map vel (_step this).(_neurons))).
Proof.
  intros Hne last forced.
  destruct (step_neurons this) as (Hn & _ & _ & He).
  assert (H3 : subSteps this (Z.to_nat SUB_STEPS) = _subStep last FIXED_DT) by reflexivity.
  assert (Hlast : last.(_neurons) <> []).
  { intros E. apply Hne. apply length_zero_iff_nil.
    rewrite <- (subSteps_length this 2). fold last. rewrite E. reflexivity. }
  rewrite He, Hn, H3, subStep_neurons. fold forced.
  split; [apply subStep_energy, Hlast|].
  split.
  - induction forced as [|m ms IH]; simpl map; constructor; auto.
    apply integrate_vel.
  - intros Hall. rewrite subStep_energy by exact Hlast. fold forced.
    f_equal. rewrite map_map.
    induction Hall as [|m ms Hm Hall IH]; [reflexivity|].
    cbn [map]. rewrite IH, integrate_vel, Hm. reflexivity.
Qed.
End EnergyFacts.

Module EnergyExamples.

Import Binary64 Block.

(** C5 (as the specification words it) fails at binary64: in the tick of
    [two_neurons] the second neuron is reverted in the third substep, and
    [energy] is not the mean of the squared committed velocities. *)
Lemma step_energy_not_committed_mean :
  let after := _step two_neurons in
  after.(energy) <> mean_sq (map vel after.(_neurons)).
Proof. vm_compute. discriminate. Qed.

Lemma step_energy_witness :
  two_neurons.(_neurons) <> []
  /\ (let last := subSteps two_neurons 2 in
      let forced := accumulate_forces last in
      (_step two_neurons).(energy)
        = mean_sq (map (integrated_vel last FIXED_DT) forced)
      /\ Forall2 (fun m n' =>
                    n'.(vel) = if _isInside last (integrated_pos last FIXED_DT m)
                               then integrated_vel last FIXED_DT m
                               else multiplyScalar
                                      (integrated_vel last FIXED_DT m)
                                      (- dec 3 10)%js)
                 forced (_step two_neurons).(_neurons)
      /\ (Forall (fun m => _isInside last (integrated_pos last FIXED_DT m) = true)
                 forced ->
          (_step two_neurons).(energy)
            = mean_sq (map vel (_step two_neurons).(_neurons)))).
Proof.
  split.
  - discriminate.
  - apply (step_energy two_neurons). discriminate.
Defined.

End EnergyExamples.

(** ** The repulsion phase *)

Lemma pairs_spec (N : nat) (a b : nat) : (a, b) ∈ pairs N <-> (a < b < N)%nat.
Proof.
  unfold pairs. rewrite list_elem_of_bind. split.
  - intros (i & Hin & Hi). apply list_elem_of_bind in Hin as (j & Hin & Hj).
    apply list_elem_of_singleton in Hin. injection Hin as -> ->.
    apply elem_of_seq in Hi, Hj. lia.
  - intros H. exists a. split; [|apply elem_of_seq; lia].
    apply list_elem_of_bind. exists b. split; [apply list_elem_of_singleton; reflexivity|].
    apply elem_of_seq. lia.
Qed.

Lemma pairs_NoDup (N : nat) : NoDup (pairs N).
Proof.
  unfold pairs. apply NoDup_bind; [| |apply NoDup_seq].
  - intros i1 i2 [a b] _ _ H1 H2.
    apply list_elem_of_bind in H1 as (j1 & H1 & _), H2 as (j2 & H2 & _).
    apply list_elem_of_singleton in H1, H2. congruence.
  - intros i _. apply NoDup_bind; [| |apply NoDup_seq].
    + intros j1 j2 [a b] _ _ H1 H2.
      apply list_elem_of_singleton in H1, H2. congruence.
    + intros j _. apply NoDup_singleton.
Qed.

Section RepelPair.

Local Open Scope js_scope.
Context {num : Type} {JSN : JSNumber num}.

Lemma repel_pair_lookup (k : num) (neurons : list (Neuron num)) (i j : nat)
    (ni nj : Neuron num) :
  i <> j -> neurons !! i = Some ni -> neurons !! j = Some nj ->
  let F := repulsion k ni.(pos) nj.(pos) in
  let after := repel_pair k neurons (i, j) in
  after !! i = Some (set_force ni (add ni.(force) F))
  /\ after !! j = Some (set_force nj (sub nj.(force) F))
  /\ (forall l, l <> i -> l <> j -> after !! l = neurons !! l).
Proof.
  intros Hij Hi Hj F after. subst after. unfold repel_pair. cbn [fst snd].
  rewrite Hi, Hj. fold F.
  pose proof (lookup_lt_Some _ _ _ Hi) as Li.
  pose proof (lookup_lt_Some _ _ _ Hj) as Lj.
  split; [|split].
  - rewrite list_lookup_insert_ne by auto. apply list_lookup_insert_eq. exact Li.
  - apply list_lookup_insert_eq. rewrite length_insert. exact Lj.
  - intros l Hli Hlj. rewrite !list_lookup_insert_ne by auto. reflexivity.
Qed.
End RepelPair.

Module RepulsionIdeal.

Import Ideal IdealFacts RealNotions.
Local Open Scope R_scope.

Lemma lengthSq_real (d : Vec3 R) : lengthSq d = norm2 d.
Proof. reflexivity. Qed.

Lemma norm2_nonneg (d : Vec3 R) : 0 <= norm2 d.
Proof. unfold norm2. nra. Qed.

Lemma norm2_zero (d : Vec3 R) : norm2 d = 0 -> d = Vector3 0 0 0.
Proof.
  destruct d as [a b c]. unfold norm2. cbn. intros H.
  assert (a = 0) by nra. assert (b = 0) by nra. assert (c = 0) by nra. subst. reflexivity.
Qed.

Lemma subVectors_zero (p q : Vec3 R) : subVectors p q = Vector3 0 0 0 -> p = q.
Proof.
  destruct p, q. unfold subVectors. cbn. intros H. injection H as H1 H2 H3.
  f_equal; lra.
Qed.

Lemma normalize_unit (d : Vec3 R) :
  d <> Vector3 0 0 0 ->
  normalize d = multiplyScalar d (1 / sqrt (norm2 d)) /\ vec_length (normalize d) = 1.
Proof.
  intros Hd.
  assert (Hpos : 0 < norm2 d).
  { destruct (Rle_lt_or_eq_dec _ _ (norm2_nonneg d)) as [H|H]; [exact H|].
    exfalso. apply Hd, norm2_zero. symmetry. exact H. }
  assert (HL : 0 < sqrt (norm2 d)) by (apply sqrt_lt_R0; exact Hpos).
  assert (Hn : normalize d = multiplyScalar d (1 / sqrt (norm2 d))).
  { unfold normalize, divideScalar, vec_length. rewrite lengthSq_real. cbn.
    unfold R_truthy. destruct (Req_dec_T (sqrt (norm2 d)) 0); [lra|reflexivity]. }
  split; [exact Hn|].
  rewrite Hn. unfold vec_length. cbn [Math_sqrt real_number].
  replace (lengthSq (multiplyScalar d (1 / sqrt (norm2 d)))) with 1; [apply sqrt_1|].
  destruct d as [a b c]. unfold lengthSq, multiplyScalar, norm2 in *. cbn in *.
  set (L := sqrt (a * a + b * b + c * c)) in *.
  assert (HLL : L * L = a * a + b * b + c * c) by (apply sqrt_sqrt; lra).
  transitivity ((a * a + b * b + c * c) * (1 / L * (1 / L))); [|ring].
  rewrite <- HLL. field. lra.
Qed.

Lemma repulsion_magnitude (k : R) (p q : Vec3 R) :
  0 <= k -> p <> q ->
  let d := subVectors p q in
  let f := k / Rmax (lengthSq d) (9 / 100) in
  repulsion k p q = multiplyScalar (normalize d) f
  /\ vec_length (normalize d) = 1
  /\ vec_length (repulsion k p q) = f.
Proof.
  intros Hk Hpq d f.
  assert (Hd : d <> Vector3 0 0 0) by (intros E; apply Hpq, subVectors_zero, E).
  destruct (normalize_unit d Hd) as [Hn H1].
  assert (Hf : 0 <= f).
  { unfold f. apply Rmult_le_pos; [exact Hk|].
    apply Rlt_le, Rinv_0_lt_compat.
    eapply Rlt_le_trans; [|apply Rmax_r]. lra. }
  split; [reflexivity|]. split; [exact H1|].
  change (repulsion k p q) with (multiplyScalar (normalize d) f).
  unfold vec_length in *. cbn [Math_sqrt real_number] in *.
  replace (lengthSq (multiplyScalar (normalize d) f)) with (lengthSq (normalize d) * (f * f)).
  - rewrite sqrt_mult_alt; [| rewrite lengthSq_real; apply norm2_nonneg].
    rewrite H1, sqrt_square by exact Hf. lra.
  - destruct (normalize d) as [a b c]. unfold lengthSq, multiplyScalar. cbn. ring.
Qed.

Lemma repulsion_coincident (k : R) (p : Vec3 R) : repulsion k p p = Vector3 0 0 0.
Proof.
  unfold repulsion.
  assert (Hd : subVectors p p = Vector3 0 0 0).
  { destruct p. unfold subVectors. cbn. f_equal; lra. }
  rewrite Hd. unfold normalize, divideScalar, vec_length, lengthSq, multiplyScalar. cbn.
  replace (0 * 0 + 0 * 0 + 0 * 0) with 0 by ring. rewrite sqrt_0.
  unfold R_truthy. destruct (Req_dec_T 0 0); [|contradiction].
  f_equal; ring.
Qed.
(** C2 (as the code has it).  The repulsion phase visits every unordered
    pair of neurons once ([pairs]); for the pair [(i, j)] it adds a vector
    [F] to the force of [i] and subtracts the same [F] from the force of [j],
    leaving the other neurons alone.  With [kRepel >= 0] and the two neurons
    at different positions, [F] is the normalised separation vector times
    [kRepel / max(squaredDistance, 0.09)], a unit vector times that
    magnitude; the clamp is [0.09 = 0.3^2].  For two neurons at the same
    position [F] is the zero vector. *)
Theorem repulsion_pairwise (k : R) (neurons : list (Neuron R)) (i j : nat)
    (ni nj : Neuron R) :
  0 <= k -> (i < j)%nat ->
  neurons !! i = Some ni -> neurons !! j = Some nj ->
  let d := subVectors ni.(pos) nj.(pos) in
  let f := k / Rmax (lengthSq d) (9 / 100) in
  let F := repulsion k ni.(pos) nj.(pos) in
  let after := repel_pair k neurons (i, j) in
  ((i, j) ∈ pairs (List.length neurons)
   /\ NoDup (pairs (List.length neurons))
   /\ (forall a b, (a, b) ∈ pairs (List.length neurons) -> (a < b)%nat))
  /\ (after !! i = Some (set_force ni (add ni.(force) F))
      /\ after !! j = Some (set_force nj (sub nj.(force) F))
      /\ (forall l, l <> i -> l <> j -> after !! l = neurons !! l))
  /\ (ni.(pos) <> nj.(pos) ->
      F = multiplyScalar (normalize d) f
      /\ vec_length (normalize d) = 1
      /\ vec_length F = f)
  /\ (ni.(pos) = nj.(pos) -> F = Vector3 0 0 0).
Proof.
  intros Hk Hij Hi Hj d f F after.
  pose proof (lookup_lt_Some _ _ _ Hj) as Lj.
  split; [|split; [|split]].
  - split; [apply pairs_spec; lia|]. split; [apply pairs_NoDup|].
    intros a b H. apply pairs_spec in H. lia.
  - apply repel_pair_lookup; auto. lia.
  - intros Hne. apply repulsion_magnitude; assumption.
  - intros E. unfold F. rewrite E. apply repulsion_coincident.
Qed.

Lemma repulsion_pairwise_witness :
  exists ni nj : Neuron R,
    (0 <= 6 / 10 /\ (0 < 1)%nat /\ apart !! 0%nat = Some ni /\ apart !! 1%nat = Some nj)
    /\ vec_length (repulsion (6 / 10) ni.(pos) nj.(pos))
       = 6 / 10 / Rmax (lengthSq (subVectors ni.(pos) nj.(pos))) (9 / 100).
Proof.
  eexists _, _.
  assert (H0 : 0 <= 6 / 10) by lra.
  assert (H1 : (0 < 1)%nat) by lia.
  assert (Hi : apart !! 0%nat = Some {| pos := Vector3 0 0 0; prev := Vector3 0 0 0; vel := Vector3 0 0 0;
       force := Vector3 0 0 0; layer := 0; idx := 0 |}) by reflexivity.
  assert (Hj : apart !! 1%nat = Some {| pos := Vector3 (1 / 2) 0 0; prev := Vector3 (1 / 2) 0 0;
       vel := Vector3 0 0 0; force := Vector3 0 0 0; layer := 0; idx := 1 |}) by reflexivity.
  split; [exact (conj H0 (conj H1 (conj Hi Hj)))|].
  apply (repulsion_pairwise (6 / 10) apart 0 1 _ _ H0 H1 Hi Hj).
  cbn. intros E. injection E. lra.
Defined.

End RepulsionIdeal.

Module RepulsionExamples.

Import Binary64.
Local Open Scope js_scope.

(** C2 (as the specification words it) fails at binary64.  Two neurons 0.5
    apart (squared distance 0.25) with [kRepel = 0.6] exchange a force of
    magnitude 2.4 = 0.6 / 0.25, not 0.6 / max(0.25, 0.3) = 2; and two
    neurons at the same position exchange no force at all. *)
Lemma repulsion_clamp_mismatch :
  let k : float := dec 6 10 in
  let p : Vec3 float := Vector3 #0 #0 #0 in
  let q : Vec3 float := Vector3 (dec 1 2) #0 #0 in
  vec_length (repulsion k p q)
    <> k / Math_max (lengthSq (subVectors p q)) (dec 3 10)
  /\ vec_length (repulsion k p q)
     = k / Math_max (lengthSq (subVectors p q)) MIN_DIST_SQ
  /\ repulsion k q q = Vector3 #0 #0 #0
  /\ k / Math_max (lengthSq (subVectors q q)) (dec 3 10) <> #0.
Proof. vm_compute. repeat split; discriminate. Qed.

End RepulsionExamples.

(** ** NaN and the infinities (binary64) *)

Module NonFinite.

Import Binary64 Block.
Local Open Scope js_scope.

Lemma sub_non_finite (a m : float) : is_finite a = false -> is_finite (a - m) = false.
Proof. destruct a as [|[]| |]; try discriminate; destruct m as [|[]| |]; reflexivity. Qed.

Lemma div_non_finite (a s : float) : is_finite a = false -> is_finite (a / s) = false.
Proof. destruct a as [|[]| |]; try discriminate; destruct s as [|[]| |]; reflexivity. Qed.

Lemma mul_non_finite (a b : float) : is_finite a = false -> is_finite (a * b) = false.
Proof. destruct a as [|[]| |]; try discriminate; destruct b as [|[]| |]; reflexivity. Qed.

Lemma floor_non_finite (a : float) : is_finite a = false -> is_finite (Math_floor a) = false.
Proof. destruct a; try discriminate; reflexivity. Qed.

Lemma cell_non_finite (a m s : float) :
  is_finite a = false ->
  is_finite (Math_floor ((a - m) / s * #GRID_SIZE)) = false.
Proof.
  intros H. apply floor_non_finite, mul_non_finite, div_non_finite, sub_non_finite, H.
Qed.

Lemma guard_non_finite (v : float) :
  is_finite v = false ->
  (v <? #0) || (v >=? #GRID_SIZE) = true \/ v = S754_nan.
Proof. destruct v as [|[]| |]; try discriminate; intros _; auto. Qed.

Lemma add_nan_l (a : float) : S754_nan + a = S754_nan.
Proof. reflexivity. Qed.
Lemma add_nan_r (a : float) : a + S754_nan = S754_nan.
Proof. destruct a; reflexivity. Qed.
Lemma mul_nan_l (a : float) : S754_nan * a = S754_nan.
Proof. reflexivity. Qed.

Lemma voxel_at_nan (voxels : list Z) : voxel_at voxels (S754_nan : float) = None.
Proof. reflexivity. Qed.

Lemma isInside_non_finite (this : STLLayout float) (p : Vec3 float) :
  vec_finite p = false -> _isInside this p = false.
Proof.
  intros H. unfold _isInside.
  set (ix := Math_floor ((x p - _) / _ * _)).
  set (iy := Math_floor ((y p - _) / _ * _)).
  set (iz := Math_floor ((z p - _) / _ * _)).
  assert (Hc : is_finite ix = false \/ is_finite iy = false \/ is_finite iz = false).
  { unfold vec_finite in H. apply andb_false_iff in H as [H|H];
      [apply andb_false_iff in H as [H|H]|].
    - left. apply cell_non_finite, H.
    - right; left. apply cell_non_finite, H.
    - right; right. apply cell_non_finite, H. }
  assert (Hg : (ix <? #0) || (ix >=? #GRID_SIZE) || (iy <? #0) || (iy >=? #GRID_SIZE)
               || (iz <? #0) || (iz >=? #GRID_SIZE)
               = ((ix <? #0) || (ix >=? #GRID_SIZE))
                 || (((iy <? #0) || (iy >=? #GRID_SIZE))
                     || ((iz <? #0) || (iz >=? #GRID_SIZE)))).
  { destruct (ix <? #0), (ix >=? #GRID_SIZE), (iy <? #0), (iy >=? #GRID_SIZE),
      (iz <? #0), (iz >=? #GRID_SIZE); reflexivity. }
  rewrite Hg. clear Hg.
  destruct ((ix <? #0) || (ix >=? #GRID_SIZE)) eqn:Gx; [reflexivity|].
  destruct ((iy <? #0) || (iy >=? #GRID_SIZE)) eqn:Gy; [reflexivity|].
  destruct ((iz <? #0) || (iz >=? #GRID_SIZE)) eqn:Gz; [reflexivity|].
  cbn [orb].
  assert (E : ix * #GRID_SIZE * #GRID_SIZE + iy * #GRID_SIZE + iz = S754_nan).
  { destruct Hc as [Hc|[Hc|Hc]]; apply guard_non_finite in Hc as [Hc|Hc]; try congruence;
      rewrite Hc.
    - reflexivity.
    - rewrite mul_nan_l, add_nan_r. reflexivity.
    - apply add_nan_r. }
  rewrite E. reflexivity.
Qed.

Lemma integrate_non_finite (this : STLLayout float) (dt : float)
    (m : Neuron float) :
  vec_finite (integrated_pos this dt m) = false ->
  (integrate this dt m).(pos) = m.(pos)
  /\ (integrate this dt m).(vel)
     = multiplyScalar (integrated_vel this dt m) (- dec 3 10).
Proof.
  intros H. unfold integrate.
  rewrite (isInside_non_finite this _ H). cbn. split; reflexivity.
Qed.

Lemma integrate_finite_pos (this : STLLayout float) (dt : float)
    (m : Neuron float) :
  vec_finite m.(pos) = true -> vec_finite (integrate this dt m).(pos) = true.
Proof.
  intros H. unfold integrate.
  destruct (_isInside this (integrated_pos this dt m)) eqn:E; cbn; [|exact H].
  destruct (vec_finite (integrated_pos this dt m)) eqn:F; [reflexivity|].
  rewrite (isInside_non_finite this _ F) in E. discriminate E.
Qed.

(** C4 (as the code has it).  A position with a NaN or infinite component
    is classified exterior, whatever the bounds and the grid.  So when the
    integrated position of a neuron is not finite, the substep commits the
    pre-substep position (and [-0.3] times the integrated velocity), and
    neurons whose positions were finite before a substep have finite
    positions after it.  Nothing is said of the velocity: see
    [non_finite_velocity_persists]. *)
Theorem non_finite_position_reverted (this : STLLayout float) (dt : float) :
  (forall p, vec_finite p = false -> _isInside this p = false)
  /\ Forall2 (fun n n' =>
                exists m, same_body n m
                  /\ (vec_finite (integrated_pos this dt m) = false ->
                      n'.(pos) = n.(pos)
                      /\ n'.(vel) = multiplyScalar (integrated_vel this dt m)
                                                   (- dec 3 10)))
             this.(_neurons) (_subStep this dt).(_neurons)
  /\ (Forall (fun n => vec_finite n.(pos) = true) this.(_neurons) ->
      Forall (fun n => vec_finite n.(pos) = true) (_subStep this dt).(_neurons)).
Proof.
  split; [apply isInside_non_finite|].
  rewrite subStep_neurons.
  pose proof (accumulate_forces_same_body this) as HF.
  split.
  - induction HF as [|n m ns ms Hnm HF IH]; simpl map; constructor; auto.
    exists m. split; [exact Hnm|]. intros Hnf.
    destruct (integrate_non_finite this dt m Hnf) as [Hp Hv].
    rewrite Hp, Hv. split; [symmetry; apply Hnm | reflexivity].
  - intros Hfin. induction HF as [|n m ns ms Hnm HF IH]; simpl map; constructor.
    + inversion Hfin; subst. apply integrate_finite_pos.
      destruct Hnm as [<- _]. assumption.
    + apply IH. inversion Hfin; assumption.
Qed.

(** C4 (as the specification words it) fails at binary64.  In [overflowing]
    every number is finite; the repulsion [1e308 / 0.09] overflows, the
    integrated velocities and positions are not finite, the positions are
    reverted, and the committed velocities and the energy are not finite,
    after the substep and still after a whole tick. *)
Lemma non_finite_velocity_persists :
  is_finite overflowing.(kRepel) = true
  /\ forallb (fun n => vec_finite n.(pos) && vec_finite n.(vel))
             overflowing.(_neurons) = true
  /\ forallb (fun n => vec_finite n.(pos))
             (_subStep overflowing FIXED_DT).(_neurons) = true
  /\ forallb (fun n => negb (vec_finite n.(vel)))
             (_subStep overflowing FIXED_DT).(_neurons) = true
  /\ is_finite (_subStep overflowing FIXED_DT).(energy) = false
  /\ forallb (fun n => negb (vec_finite n.(vel)))
             (_step overflowing).(_neurons) = true.
Proof. vm_compute. repeat split. Qed.

End NonFinite.

(** ** Normalisation of the mesh *)

Module Normalisation.

Import Ideal IdealFacts RealNotions.
Local Open Scope R_scope.

Lemma bbox_fold (b : Box3 R) (ps : list (Vec3 R)) :
  foldl expandByPoint (Some b) ps = Some (foldl expand b ps).
Proof. revert b. induction ps as [|p ps IH]; intros b; cbn; [reflexivity|apply IH]. Qed.

Lemma bbox_cons (p : Vec3 R) (ps : list (Vec3 R)) (ia : option (list nat)) :
  computeBoundingBox {| position := p :: ps; index := ia |}
  = Some (foldl expand {| box_min := p; box_max := p |} ps).
Proof. unfold computeBoundingBox. cbn. apply bbox_fold. Qed.

Lemma Rmin_monotone (f : R -> R) (a b : R) : monotone f -> Rmin (f a) (f b) = f (Rmin a b).
Proof.
  intros Hf. unfold Rmin. destruct (Rle_dec a b) as [H|H], (Rle_dec (f a) (f b)) as [H'|H'];
    try reflexivity.
  - exfalso. apply H', Hf, H.
  - apply Rle_antisym; [exact H'|]. apply Hf. lra.
Qed.

Lemma Rmax_monotone (f : R -> R) (a b : R) : monotone f -> Rmax (f a) (f b) = f (Rmax a b).
Proof.
  intros Hf. unfold Rmax. destruct (Rle_dec a b) as [H|H], (Rle_dec (f a) (f b)) as [H'|H'];
    try reflexivity.
  - exfalso. apply H', Hf, H.
  - apply Rle_antisym; [|exact H']. apply Hf. lra.
Qed.

Lemma expand_vmap (fx fy fz : R -> R) (b : Box3 R) (p : Vec3 R) :
  monotone fx -> monotone fy -> monotone fz ->
  expand (bmap fx fy fz b) (vmap fx fy fz p) = bmap fx fy fz (expand b p).
Proof.
  intros Hx Hy Hz. unfold expand, bmap, vmap, vec_min, vec_max. cbn.
  rewrite !Rmin_monotone, !Rmax_monotone by assumption. reflexivity.
Qed.

Lemma bbox_vmap (fx fy fz : R -> R) (b : Box3 R) (ps : list (Vec3 R)) :
  monotone fx -> monotone fy -> monotone fz ->
  foldl expand (bmap fx fy fz b) (map (vmap fx fy fz) ps)
  = bmap fx fy fz (foldl expand b ps).
Proof.
  intros Hx Hy Hz. revert b. induction ps as [|p ps IH]; intros b; cbn; [reflexivity|].
  rewrite expand_vmap by assumption. apply IH.
Qed.

Lemma bbox_grows (b : Box3 R) (ps : list (Vec3 R)) :
  let b' := foldl expand b ps in
  vle b'.(box_min) b.(box_min) /\ vle b.(box_max) b'.(box_max)
  /\ Forall (fun q => vle b'.(box_min) q /\ vle q b'.(box_max)) ps.
Proof.
  revert b. induction ps as [|p ps IH]; intros b; cbn.
  - unfold vle. repeat split; try lra. constructor.
  - destruct (IH (expand b p)) as (H1 & H2 & H3).
    set (b' := foldl expand (expand b p) ps) in *.
    assert (E1 : vle (box_min (expand b p)) (box_min b) /\ vle (box_min (expand b p)) p).
    { unfold vle, expand, vec_min. cbn. repeat split; first [apply Rmin_l | apply Rmin_r]. }
    assert (E2 : vle (box_max b) (box_max (expand b p)) /\ vle p (box_max (expand b p))).
    { unfold vle, expand, vec_max. cbn. repeat split; first [apply Rmax_l | apply Rmax_r]. }
    unfold vle in *. repeat split; try lra.
    constructor; [|exact H3]. repeat split; lra.
Qed.

Lemma monotone_shift (t : R) : monotone (fun a => a + t).
Proof. intros a b H. lra. Qed.

Lemma monotone_scale (s : R) : 0 <= s -> monotone (fun a => a * s).
Proof. intros Hs a b H. nra. Qed.

Lemma translate_vmap (geo : BufferGeometry R) (tx ty tz : R) :
  (translate geo tx ty tz).(position)
  = map (vmap (fun a => a + tx) (fun a => a + ty) (fun a => a + tz)) geo.(position).
Proof. reflexivity. Qed.

Lemma scale_vmap (geo : BufferGeometry R) (sx sy sz : R) :
  (scale geo sx sy sz).(position)
  = map (vmap (fun a => a * sx) (fun a => a * sy) (fun a => a * sz)) geo.(position).
Proof. reflexivity. Qed.

Lemma bbox_of_vmap (fx fy fz : R -> R) (p : Vec3 R) (ps : list (Vec3 R))
    (ia : option (list nat)) :
  monotone fx -> monotone fy -> monotone fz ->
  computeBoundingBox {| position := map (vmap fx fy fz) (p :: ps); index := ia |}
  = Some (bmap fx fy fz (foldl expand {| box_min := p; box_max := p |} ps)).
Proof.
  intros Hx Hy Hz. cbn [map]. rewrite bbox_cons. f_equal.
  apply (bbox_vmap fx fy fz {| box_min := p; box_max := p |}); assumption.
Qed.

Lemma bbox_extent (p : Vec3 R) (ps : list (Vec3 R)) (a b : Vec3 R) :
  a ∈ p :: ps -> b ∈ p :: ps -> a <> b ->
  let B := foldl expand {| box_min := p; box_max := p |} ps in
  0 < Rmax (Rmax (B.(box_max).(x) - B.(box_min).(x))
                 (B.(box_max).(y) - B.(box_min).(y)))
           (B.(box_max).(z) - B.(box_min).(z)).
Proof.
  intros Ha Hb Hab B.
  destruct (bbox_grows {| box_min := p; box_max := p |} ps) as (H1 & H2 & H3).
  fold B in H1, H2, H3. cbn [box_min box_max] in H1, H2.
  assert (Hin : forall q, q ∈ p :: ps -> vle B.(box_min) q /\ vle q B.(box_max)).
  { intros q Hq. apply elem_of_cons in Hq as [->|Hq]; [split; assumption|].
    rewrite Forall_forall in H3. apply H3, Hq. }
  destruct (Hin a Ha) as [A1 A2], (Hin b Hb) as [B1 B2].
  assert (Hc : a.(x) <> b.(x) \/ a.(y) <> b.(y) \/ a.(z) <> b.(z)).
  { destruct a as [ax ay az], b as [bx by' bz]. cbn.
    destruct (Req_dec_T ax bx) as [->|]; [|auto].
    destruct (Req_dec_T ay by') as [->|]; [|auto].
    destruct (Req_dec_T az bz) as [->|]; [|auto]. congruence. }
  unfold vle in *.
  pose proof (Rmax_l (Rmax (x (box_max B) - x (box_min B)) (y (box_max B) - y (box_min B)))
                     (z (box_max B) - z (box_min B))).
  pose proof (Rmax_r (Rmax (x (box_max B) - x (box_min B)) (y (box_max B) - y (box_min B)))
                     (z (box_max B) - z (box_min B))).
  pose proof (Rmax_l (x (box_max B) - x (box_min B)) (y (box_max B) - y (box_min B))).
  pose proof (Rmax_r (x (box_max B) - x (box_min B)) (y (box_max B) - y (box_min B))).
  destruct Hc as [Hc|[Hc|Hc]]; lra.
Qed.

Lemma bbox_attained (b : Box3 R) (ps : list (Vec3 R)) :
  let B := foldl expand b ps in
  (B.(box_min).(x) = b.(box_min).(x) \/ exists q, q ∈ ps /\ q.(x) = B.(box_min).(x))
  /\ (B.(box_min).(y) = b.(box_min).(y) \/ exists q, q ∈ ps /\ q.(y) = B.(box_min).(y))
  /\ (B.(box_min).(z) = b.(box_min).(z) \/ exists q, q ∈ ps /\ q.(z) = B.(box_min).(z))
  /\ (B.(box_max).(x) = b.(box_max).(x) \/ exists q, q ∈ ps /\ q.(x) = B.(box_max).(x))
  /\ (B.(box_max).(y) = b.(box_max).(y) \/ exists q, q ∈ ps /\ q.(y) = B.(box_max).(y))
  /\ (B.(box_max).(z) = b.(box_max).(z) \/ exists q, q ∈ ps /\ q.(z) = B.(box_max).(z)).
Proof.
  revert b. induction ps as [|p ps IH]; intros b; cbn [foldl].
  - cbn zeta. repeat split; left; reflexivity.
  - specialize (IH (expand b p)). cbn zeta in *.
    set (B := foldl expand (expand b p) ps) in *.
    destruct IH as (H1 & H2 & H3 & H4 & H5 & H6).
    assert (Hlater : forall (f : Vec3 R -> R) (v : R),
              (exists q, q ∈ ps /\ f q = v) -> exists q, q ∈ p :: ps /\ f q = v).
    { intros f v (q & Hq & E). exists q. split; [apply list_elem_of_further, Hq | exact E]. }
    assert (Hmin : forall (f : Vec3 R -> R) (v m : R),
              v = Rmin m (f p) \/ (exists q, q ∈ ps /\ f q = v) ->
              v = m \/ exists q, q ∈ p :: ps /\ f q = v).
    { intros f v m [E|E]; [|right; apply Hlater, E].
      unfold Rmin in E. destruct (Rle_dec m (f p)); [left; exact E|].
      right. exists p. split; [apply list_elem_of_here | symmetry; exact E]. }
    assert (Hmax : forall (f : Vec3 R -> R) (v m : R),
              v = Rmax m (f p) \/ (exists q, q ∈ ps /\ f q = v) ->
              v = m \/ exists q, q ∈ p :: ps /\ f q = v).
    { intros f v m [E|E]; [|right; apply Hlater, E].
      unfold Rmax in E. destruct (Rle_dec m (f p)); [|left; exact E].
      right. exists p. split; [apply list_elem_of_here | symmetry; exact E]. }
    split; [exact (Hmin x _ _ H1)|]. split; [exact (Hmin y _ _ H2)|].
    split; [exact (Hmin z _ _ H3)|]. split; [exact (Hmax x _ _ H4)|].
    split; [exact (Hmax y _ _ H5) | exact (Hmax z _ _ H6)].
Qed.

Lemma bbox_tight (g : BufferGeometry R) (B : Box3 R) :
  computeBoundingBox g = Some B ->
  tight_box g.(position) B.(box_min) B.(box_max).
Proof.
  destruct g as [[|p ps] ia]; [discriminate|].
  rewrite bbox_cons. intros [= <-]. cbn [position].
  destruct (bbox_grows {| box_min := p; box_max := p |} ps) as (G1 & G2 & G3).
  destruct (bbox_attained {| box_min := p; box_max := p |} ps)
    as (A1 & A2 & A3 & A4 & A5 & A6).
  cbn zeta in *. cbn [box_min box_max] in *.
  set (B := foldl expand {| box_min := p; box_max := p |} ps) in *.
  assert (Hfirst : forall (f : Vec3 R -> R) (v : R),
            v = f p \/ (exists q, q ∈ ps /\ f q = v) ->
            exists q, q ∈ p :: ps /\ f q = v).
  { intros f v [E|(q & Hq & E)].
    - exists p. split; [apply list_elem_of_here | symmetry; exact E].
    - exists q. split; [apply list_elem_of_further, Hq | exact E]. }
  split; [constructor; [split; assumption | exact G3]|].
  split; [exact (Hfirst x _ A1)|]. split; [exact (Hfirst y _ A2)|].
  split; [exact (Hfirst z _ A3)|]. split; [exact (Hfirst x _ A4)|].
  split; [exact (Hfirst y _ A5) | exact (Hfirst z _ A6)].
Qed.

(** C8 (as the code has it).  Normalisation is a function of the mesh
    alone, [normalizeGeometry].  For a mesh with at least two different
    vertex positions (so that its bounding box has a positive extent and
    [10 / maxDim] is a number): the index and the number and order of the
    vertices are kept, every vertex is moved by one and the same map
    [p |-> (p - c) * s] with [s > 0], and the bounds returned are the
    smallest axis-aligned box holding the moved vertices; on every axis its
    two corners add up to zero (its centre is the origin), its size is
    [max - min], and the largest of the three dimensions is exactly 10 (in
    real arithmetic). *)
Theorem normalizeGeometry_spec (geo : BufferGeometry R) (a b : Vec3 R) :
  a ∈ geo.(position) -> b ∈ geo.(position) -> a <> b ->
  exists (geo' : BufferGeometry R) (bounds : Bounds R) (c : Vec3 R) (s : R),
    normalizeGeometry geo = Some (geo', bounds)
    /\ 0 < s
    /\ geo'.(index) = geo.(index)
    /\ geo'.(position)
       = map (fun p => Vector3 ((p.(x) - c.(x)) * s) ((p.(y) - c.(y)) * s)
                               ((p.(z) - c.(z)) * s)) geo.(position)
    /\ computeBoundingBox geo'
       = Some {| box_min := bounds.(min); box_max := bounds.(max) |}
    /\ tight_box geo'.(position) bounds.(min) bounds.(max)
    /\ bounds.(size)
       = Vector3 (bounds.(max).(x) - bounds.(min).(x))
                 (bounds.(max).(y) - bounds.(min).(y))
                 (bounds.(max).(z) - bounds.(min).(z))
    /\ (bounds.(min).(x) + bounds.(max).(x) = 0
        /\ bounds.(min).(y) + bounds.(max).(y) = 0
        /\ bounds.(min).(z) + bounds.(max).(z) = 0)
    /\ Rmax (Rmax (bounds.(max).(x) - bounds.(min).(x))
                  (bounds.(max).(y) - bounds.(min).(y)))
            (bounds.(max).(z) - bounds.(min).(z)) = 10.
Proof.
  destruct geo as [ps ia]. cbn [position index]. intros Ha Hb Hab.
  destruct ps as [|p ps]; [inversion Ha|].
  set (B := foldl expand {| box_min := p; box_max := p |} ps).
  pose proof (bbox_extent p ps a b Ha Hb Hab) as Hext. fold B in Hext. cbn zeta in Hext.
  set (D := Rmax (Rmax (x (box_max B) - x (box_min B)) (y (box_max B) - y (box_min B)))
                 (z (box_max B) - z (box_min B))) in *.
  set (c := getCenter B).
  set (s := 10 / D).
  assert (Hs : 0 < s) by (unfold s; apply Rdiv_lt_0_compat; lra).
  exists (scale (translate {| position := p :: ps; index := ia |} (- x c) (- y c) (- z c)) s s s).
  eexists. exists c, s.
  unfold normalizeGeometry.
  rewrite bbox_cons. fold B. cbn [mbind option_bind]. fold c.
  assert (E1 : computeBoundingBox (translate {| position := p :: ps; index := ia |} (- x c) (- y c) (- z c))
               = Some (bmap (fun t => t + - x c) (fun t => t + - y c) (fun t => t + - z c) B)).
  { apply (bbox_of_vmap (fun t => t + - x c) (fun t => t + - y c) (fun t => t + - z c));
      apply monotone_shift. }
  change (@num_neg R real_number) with Ropp.
  rewrite E1. cbn [mbind option_bind].
  set (B1 := bmap _ _ _ B) in *.
  assert (ED : Math_max (Math_max (x (getSize B1)) (y (getSize B1))) (z (getSize B1)) = D).
  { unfold D, B1, getSize, subVectors, bmap, vmap. cbn. f_equal; [f_equal|]; ring. }
  rewrite ED. change (#10 / D)%js with s.
  set (geo1 := translate _ _ _ _) in *.
  assert (E2 : computeBoundingBox (scale geo1 s s s)
               = Some (bmap (fun t => t * s) (fun t => t * s) (fun t => t * s) B1)).
  { set (sh := vmap (fun t => t + - x c) (fun t => t + - y c) (fun t => t + - z c)).
    transitivity (Some (bmap (fun t => t * s) (fun t => t * s) (fun t => t * s)
                          (foldl expand {| box_min := sh p; box_max := sh p |}
                                 (map sh ps)))).
    - apply (bbox_of_vmap (fun t => t * s) (fun t => t * s) (fun t => t * s)
               (sh p) (map sh ps) ia); apply monotone_scale; lra.
    - do 2 f_equal.
      apply (bbox_vmap _ _ _ {| box_min := p; box_max := p |});
        apply monotone_shift. }
  pose proof (bbox_tight _ _ E2) as Htight.
  rewrite E2. cbn [mbind option_bind].
  split; [reflexivity|]. split; [exact Hs|]. split; [reflexivity|].
  split.
  { unfold geo1. cbn [scale translate position]. rewrite map_map.
    apply map_ext. intros q. cbn. f_equal; ring. }
  split; [reflexivity|]. split; [exact Htight|]. split; [reflexivity|].
  split.
  { unfold B1, bmap, vmap. cbn [min max box_min box_max x y z].
    unfold c, getCenter, add, multiplyScalar, dec. cbn [x y z]. real_ops.
    repeat split; field. }
  cbn [min max size getSize subVectors x y z box_max box_min bmap vmap B1].
  transitivity (D * s).
  - unfold D. rewrite <- !(Rmax_monotone (fun t => t * s)) by (apply monotone_scale; lra).
    f_equal; [f_equal|]; ring.
  - unfold s. field. lra.
Qed.

Lemma normalizeGeometry_witness :
  (Vector3 0 0 0 ∈ tri_geo.(position) /\ Vector3 2 0 0 ∈ tri_geo.(position)
   /\ Vector3 0 0 0 <> Vector3 2 0 0 :> Vec3 R)
  /\ exists (geo' : BufferGeometry R) (bounds : Bounds R) (c : Vec3 R) (s : R),
    normalizeGeometry tri_geo = Some (geo', bounds)
    /\ 0 < s
    /\ geo'.(index) = tri_geo.(index)
    /\ geo'.(position)
       = map (fun p => Vector3 ((p.(x) - c.(x)) * s) ((p.(y) - c.(y)) * s)
                               ((p.(z) - c.(z)) * s)) tri_geo.(position)
    /\ computeBoundingBox geo'
       = Some {| box_min := bounds.(min); box_max := bounds.(max) |}
    /\ tight_box geo'.(position) bounds.(min) bounds.(max)
    /\ bounds.(size)
       = Vector3 (bounds.(max).(x) - bounds.(min).(x))
                 (bounds.(max).(y) - bounds.(min).(y))
                 (bounds.(max).(z) - bounds.(min).(z))
    /\ (bounds.(min).(x) + bounds.(max).(x) = 0
        /\ bounds.(min).(y) + bounds.(max).(y) = 0
        /\ bounds.(min).(z) + bounds.(max).(z) = 0)
    /\ Rmax (Rmax (bounds.(max).(x) - bounds.(min).(x))
                  (bounds.(max).(y) - bounds.(min).(y)))
            (bounds.(max).(z) - bounds.(min).(z)) = 10.
Proof.
  assert (H1 : Vector3 0 0 0 ∈ tri_geo.(position)) by (cbn; apply list_elem_of_here).
  assert (H2 : Vector3 2 0 0 ∈ tri_geo.(position))
    by (cbn; apply list_elem_of_further, list_elem_of_here).
  assert (H3 : Vector3 0 0 0 <> Vector3 2 0 0 :> Vec3 R)
    by (intros E; injection E; lra).
  split; [exact (conj H1 (conj H2 H3))|].
  exact (normalizeGeometry_spec tri_geo _ _ H1 H2 H3).
Defined.

End Normalisation.

Module NormalisationExamples.

Import Binary64 Block.
Local Open Scope js_scope.

(** C8 (as the specification words it) fails at binary64.  For a mesh whose
    vertices all coincide the extent is zero, the scale factor is
    [10 / 0 = Infinity], and the centred vertices [0 * Infinity] are NaN: the
    load goes on with vertices and bounds that are NaN on every axis, so the
    largest dimension is not 10 and the centre is not the origin. *)
Lemma point_mesh_not_normalised :
  match normalizeGeometry point_mesh with
  | Some (geo', bounds) =>
      forallb (fun p => is_nan p.(x) && is_nan p.(y) && is_nan p.(z))
              geo'.(position) = true
      /\ geo'.(position) <> []
      /\ Math_max (Math_max bounds.(size).(x) bounds.(size).(y))
                  bounds.(size).(z) <> #10
      /\ (bounds.(min).(x) + bounds.(max).(x)) * dec 1 2 <> #0
      /\ is_nan bounds.(size).(x) && is_nan bounds.(size).(y)
         && is_nan bounds.(size).(z) = true
  | None => False
  end.
Proof.
  vm_compute.
  split; [reflexivity|]. split; [discriminate|]. split; [discriminate|].
  split; [discriminate | reflexivity].
Qed.

End NormalisationExamples.

(** ** The inside-point sampler *)

Module Sampler.

Import Ideal IdealFacts RealNotions.
Local Open Scope R_scope.

Lemma cell_coordinate (m s : R) (i : nat) :
  0 < s -> (i < 32)%nat ->
  Rfloor ((m + (IZR (Z.of_nat i) + 1 / 2) / 32 * s - m) / s * 32) = IZR (Z.of_nat i).
Proof.
  intros Hs Hi. unfold Rfloor. f_equal. apply Int_part_between.
  replace ((m + (IZR (Z.of_nat i) + 1 / 2) / 32 * s - m) / s * 32)
    with (IZR (Z.of_nat i) + 1 / 2) by (field; lra).
  lra.
Qed.

Lemma cell_center_inside (this : STLLayout R) (c : Cell) :
  0 < this.(_bounds).(size).(x) -> 0 < this.(_bounds).(size).(y) ->
  0 < this.(_bounds).(size).(z) ->
  cell_ok this.(_voxels) c ->
  _isInside this (_cellToWorld this c.(ix) c.(iy) c.(iz)) = true.
Proof.
  intros Hx Hy Hz (Cx & Cy & Cz & Hv).
  unfold _isInside, _cellToWorld, dec. cbn [x y z].
  cbn [num_of_Z num_add num_sub num_mul num_div num_lt num_le Math_floor real_number].
  change (IZR GRID_SIZE) with 32.
  rewrite !cell_coordinate by assumption.
  assert (Bx : 0 <= IZR (Z.of_nat (ix c)) < 32).
  { split; [apply IZR_le; lia | apply IZR_lt; lia]. }
  assert (By : 0 <= IZR (Z.of_nat (iy c)) < 32).
  { split; [apply IZR_le; lia | apply IZR_lt; lia]. }
  assert (Bz : 0 <= IZR (Z.of_nat (iz c)) < 32).
  { split; [apply IZR_le; lia | apply IZR_lt; lia]. }
  rewrite !Rltb_false, !Rleb_false by lra. cbn [orb].
  unfold voxel_at. cbn [num_to_Z real_number].
  replace (IZR (Z.of_nat (ix c)) * 32 * 32 + IZR (Z.of_nat (iy c)) * 32 + IZR (Z.of_nat (iz c)))
    with (IZR (Z.of_nat (ix c) * 32 * 32 + Z.of_nat (iy c) * 32 + Z.of_nat (iz c)))
    by (rewrite !plus_IZR, !mult_IZR; reflexivity).
  rewrite R_to_Z_IZR.
  destruct (Z.leb_spec 0 (Z.of_nat (ix c) * 32 * 32 + Z.of_nat (iy c) * 32 + Z.of_nat (iz c))); [|lia].
  replace (Z.to_nat _) with (ix c * 32 * 32 + iy c * 32 + iz c)%nat by lia.
  rewrite Hv. reflexivity.
Qed.

Lemma sample_tries_inside (this : STLLayout R) (rnd : Random R) (target : Vec3 R)
    (spread : R) (tries k : nat) (p : Vec3 R) (k' : nat) :
  sample_tries this rnd target spread tries k = (Some p, k') ->
  _isInside this p = true.
Proof.
  revert k. induction tries as [|tries IH]; intros k; cbn [sample_tries].
  - discriminate.
  - match goal with
    | |- context [if _isInside this ?q then _ else _] =>
        destruct (_isInside this q) eqn:E
    end.
    + intros [= <- _]. exact E.
    + apply IH.
Qed.

Lemma ToInt32_random (r : R) (len : nat) :
  0 <= r < 1 -> (0 < len)%nat -> (Z.of_nat len < 2 ^ 31)%Z ->
  exists n : Z, ToInt32 (r * IZR (Z.of_nat len)) = n /\ (0 <= n < Z.of_nat len)%Z.
Proof.
  intros Hr Hlen Hmax.
  set (a := r * IZR (Z.of_nat len)).
  assert (HL : 0 < IZR (Z.of_nat len)) by (apply IZR_lt; lia).
  assert (Ha : 0 <= a < IZR (Z.of_nat len)).
  { unfold a. split; [apply Rmult_le_pos; lra|].
    rewrite <- (Rmult_1_l (IZR (Z.of_nat len))) at 2.
    apply Rmult_lt_compat_r; lra. }
  assert (Hn : (0 <= Int_part a < Z.of_nat len)%Z).
  { destruct (Int_part_bounds a) as [B1 B2]. split.
    - assert (H : IZR (-1) < IZR (Int_part a)) by lra.
      apply lt_IZR in H. lia.
    - apply lt_IZR. lra. }
  exists (Int_part a). split; [|exact Hn].
  unfold ToInt32, trunc.
  cbn [num_lt num_of_Z num_neg Math_floor num_to_Z real_number].
  fold a. rewrite Rltb_false by lra.
  unfold Rfloor. rewrite R_to_Z_IZR.
  rewrite Z.mod_small by lia. lia.
Qed.

Lemma sample_cache_inside (this : STLLayout R) (rnd : Random R) (target : Vec3 R)
    (sample k : nat) (best : option (Vec3 R)) (bestDist : option R) :
  cache_wf this -> this.(_insideCache) <> [] -> unit_random rnd ->
  (forall p, best = Some p -> _isInside this p = true) ->
  exists best', sample_cache this rnd target sample k best bestDist = Some best'
    /\ (forall p, best' = Some p -> _isInside this p = true).
Proof.
  intros (Hx & Hy & Hz & Hmax & Hcells) Hne Hrnd.
  revert k best bestDist. induction sample as [|sample IH]; intros k best bestDist Hbest.
  - exists best. split; [reflexivity | exact Hbest].
  - cbn [sample_cache].
    assert (Hlen : (0 < List.length this.(_insideCache))%nat).
    { destruct (_insideCache this); [congruence | cbn; lia]. }
    destruct (ToInt32_random (rnd k) _ (Hrnd k) Hlen Hmax) as (n & Hn & Hrange).
    cbn [num_mul num_of_Z real_number]. rewrite Hn.
    unfold cell_at. destruct (Z.leb_spec 0 n) as [_|]; [|lia].
    destruct (lookup_lt_is_Some_2 this.(_insideCache) (Z.to_nat n)) as [c Hc]; [lia|].
    rewrite Hc. cbn [mbind option_bind].
    assert (Hin : _isInside this (_cellToWorld this c.(ix) c.(iy) c.(iz)) = true).
    { apply cell_center_inside; try assumption.
      rewrite Forall_forall in Hcells. apply Hcells.
      eapply list_elem_of_lookup_2, Hc. }
    destruct (match bestDist with Some b => _ | None => _ end); apply IH.
    + intros p [= <-]. exact Hin.
    + exact Hbest.
Qed.

(** C9 (as the code has it).  A non-empty cache is not enough.  In a layout
    whose bounds have positive extent on all three axes and whose cache
    holds cells of the grid whose byte is 1 (fewer than 2^31 of them), with
    [Math.random] answering in [[0, 1)]: for every target and every
    [maxTries], if the cache is not empty then [_findInsidePointNear]
    returns without a TypeError, and the point it returns classifies as
    interior, be it a random candidate or the centre of a cached cell
    (real arithmetic). *)
Theorem findInsidePointNear_interior (this : STLLayout R) (rnd : Random R)
    (k : nat) (target : Vec3 R) (maxTries : nat) :
  cache_wf this -> this.(_insideCache) <> [] -> unit_random rnd ->
  exists p, _findInsidePointNear this rnd k target maxTries = Some p
            /\ _isInside this p = true.
Proof.
  intros Hwf Hne Hrnd. unfold _findInsidePointNear.
  destruct (sample_tries this rnd target _ maxTries k) as [[p|] k'] eqn:E.
  - exists p. split; [reflexivity|]. eapply sample_tries_inside, E.
  - destruct (sample_cache_inside this rnd target
                (Nat.min 60 (List.length this.(_insideCache))) k' None None
                Hwf Hne Hrnd) as (best & Hb & Hin); [discriminate|].
    rewrite Hb. cbn [mbind option_bind].
    destruct best as [p|].
    + exists p. split; [reflexivity | apply Hin; reflexivity].
    + destruct Hwf as (Hx & Hy & Hz & _ & Hcells).
      destruct (_insideCache this) as [|c cache] eqn:Ec; [congruence|].
      cbn. eexists. split; [reflexivity|].
      apply cell_center_inside; try assumption.
      inversion Hcells; assumption.
Qed.

Lemma real_block_wf : cache_wf real_block.
Proof.
  unfold cache_wf, real_block.
  cbn [_bounds size x y z _insideCache _voxels List.length].
  split; [lra|]. split; [lra|]. split; [lra|]. split; [lia|].
  constructor; [|constructor].
  unfold cell_ok. cbn [ix iy iz].
  split; [lia|]. split; [lia|]. split; [lia|].
  vm_compute. reflexivity.
Qed.

Lemma findInsidePointNear_witness :
  (cache_wf real_block /\ real_block.(_insideCache) <> []
   /\ unit_random half_random)
  /\ exists p,
       _findInsidePointNear real_block half_random 0 (Vector3 0 0 0) 40 = Some p
       /\ _isInside real_block p = true.
Proof.
  assert (H1 : real_block.(_insideCache) <> []) by discriminate.
  assert (H2 : unit_random half_random)
    by (intros k; unfold half_random; lra).
  split; [exact (conj real_block_wf (conj H1 H2))|].
  exact (findInsidePointNear_interior real_block half_random 0 (Vector3 0 0 0)
           40 real_block_wf H1 H2).
Defined.

End Sampler.

(** ** One scanline of the voxeliser *)

Section ScanlineFacts.

Local Open Scope js_scope.
Context {num : Type} {JSN : JSNumber num}.

Lemma voxel_write_length (voxels : list Z) (k : Z) :
  List.length (voxel_write voxels k) = List.length voxels.
Proof. unfold voxel_write. destruct (0 <=? k)%Z; [apply length_insert|reflexivity]. Qed.

Lemma writes_length (voxels : list Z) (ks : list Z) :
  List.length (foldl voxel_write voxels ks) = List.length voxels.
Proof.
  revert voxels. induction ks as [|k ks IH]; intros voxels; cbn; [reflexivity|].
  rewrite IH. apply voxel_write_length.
Qed.

Lemma voxel_write_lookup (voxels : list Z) (k : Z) (c : nat) :
  voxel_write voxels k !! c = Some 1%Z
  <-> voxels !! c = Some 1%Z
      \/ ((0 <= k)%Z /\ Z.to_nat k = c /\ (c < List.length voxels)%nat).
Proof.
  unfold voxel_write. destruct (Z.leb_spec 0 k) as [Hk|Hk].
  - rewrite list_lookup_insert_Some. split.
    + intros [(-> & _ & Hlt)|[Hne H]]; [right; auto | left; exact H].
    + intros [H|(_ & Hc & Hlt)].
      * destruct (decide (Z.to_nat k = c)) as [E|NE]; [|right; auto].
        left. split; [exact E|]. split; [reflexivity|].
        eapply lookup_lt_Some, H.
      * left. rewrite Hc. auto.
  - split; [auto|]. intros [H|(H & _)]; [exact H|lia].
Qed.

Lemma writes_lookup (voxels : list Z) (ks : list Z) (c : nat) :
  foldl voxel_write voxels ks !! c = Some 1%Z
  <-> voxels !! c = Some 1%Z \/ (written c ks /\ (c < List.length voxels)%nat).
Proof.
  revert voxels. induction ks as [|k ks IH]; intros voxels; cbn [foldl].
  - split; [auto|]. intros [H|[(k & Hin & _) _]]; [exact H | inversion Hin].
  - rewrite IH, voxel_write_length, voxel_write_lookup. unfold written. split.
    + intros [[H|(Hk & Hc & Hlt)]|[(k' & Hin & Hk & Hc) Hlt]]; [auto| |].
      * right. split; [|exact Hlt]. exists k. split; [apply list_elem_of_here|auto].
      * right. split; [|exact Hlt]. exists k'. split; [apply list_elem_of_further, Hin|auto].
    + intros [H|[(k' & Hin & Hk & Hc) Hlt]]; [auto|].
      apply elem_of_cons in Hin as [->|Hin].
      * left. right. auto.
      * right. split; [|exact Hlt]. exists k'. auto.
Qed.

Lemma writes_elsewhere (voxels : list Z) (ks : list Z) (c : nat) :
  ~ written c ks -> foldl voxel_write voxels ks !! c = voxels !! c.
Proof.
  revert voxels. induction ks as [|k ks IH]; intros voxels Hw; cbn [foldl]; [reflexivity|].
  rewrite IH.
  - unfold voxel_write. destruct (Z.leb_spec 0 k) as [Hk|Hk]; [|reflexivity].
    apply list_lookup_insert_ne. intros E. apply Hw.
    exists k. split; [apply list_elem_of_here|auto].
  - intros (k' & Hin & H). apply Hw. exists k'. split; [apply list_elem_of_further, Hin|exact H].
Qed.

Lemma mark_span_writes (mn sz : Vec3 num) (iy iz : nat) (x0 x1 : num)
    (voxels : list Z) :
  mark_span mn sz iy iz x0 x1 voxels
  = foldl voxel_write voxels
      (map (fun ix => cell_index ix (Z.of_nat iy) (Z.of_nat iz))
           (span_columns mn sz x0 x1)).
Proof.
  unfold mark_span, span_columns.
  destruct (num_to_Z _) as [a|]; [|reflexivity].
  destruct (num_to_Z _) as [b|]; [|reflexivity].
  generalize (seqZ a (b - a + 1)) as cols. intros cols. revert voxels.
  induction cols as [|c cols IH]; intros voxels; cbn; [reflexivity|apply IH].
Qed.

Lemma mark_pairs_writes (mn sz : Vec3 num) (iy iz : nat) (deduped : list num)
    (voxels : list Z) :
  mark_pairs mn sz iy iz deduped voxels
  = foldl voxel_write voxels
      (k ← seq 0 (List.length deduped / 2);
       pair_writes mn sz iy iz deduped k).
Proof.
  unfold mark_pairs. generalize (seq 0 (List.length deduped / 2)) as ks.
  intros ks. revert voxels. induction ks as [|k ks IH]; intros voxels; [reflexivity|].
  cbn [foldl]. rewrite IH. 
  rewrite bind_cons, foldl_app. f_equal. unfold pair_writes.
  destruct (deduped !! (2 * k)%nat) as [x0|]; [|reflexivity].
  destruct (deduped !! (2 * k + 1)%nat) as [x1|]; [|reflexivity].
  apply mark_span_writes.
Qed.

(** The unpaired last hit of an odd list marks nothing. *)
Lemma mark_pairs_odd (mn sz : Vec3 num) (iy iz : nat) (deduped : list num)
    (voxels : list Z) :
  Nat.Odd (List.length deduped) ->
  mark_pairs mn sz iy iz deduped voxels
  = mark_pairs mn sz iy iz (take (List.length deduped - 1) deduped) voxels.
Proof.
  intros [m Hm]. unfold mark_pairs.
  rewrite length_take_le by lia.
  replace ((List.length deduped - 1) / 2)%nat with (List.length deduped / 2)%nat.
  2:{ rewrite Hm. replace (2 * m + 1 - 1)%nat with (m * 2)%nat by lia.
      rewrite Nat.div_mul by lia.
      replace (2 * m + 1)%nat with (1 + m * 2)%nat by lia.
      rewrite Nat.div_add by lia. reflexivity. }
  assert (Hhalf : (List.length deduped / 2 = m)%nat).
  { rewrite Hm. replace (2 * m + 1)%nat with (1 + m * 2)%nat by lia.
    rewrite Nat.div_add by lia. reflexivity. }
  rewrite Hhalf.
  assert (Hext : forall ks, Forall (fun k => (k < m)%nat) ks ->
            forall v,
            foldl (fun vox k =>
                     match deduped !! (2 * k)%nat, deduped !! (2 * k + 1)%nat with
                     | Some x0, Some x1 => mark_span mn sz iy iz x0 x1 vox
                     | _, _ => vox
                     end) v ks
            = foldl (fun vox k =>
                     match take (List.length deduped - 1) deduped !! (2 * k)%nat,
                           take (List.length deduped - 1) deduped !! (2 * k + 1)%nat with
                     | Some x0, Some x1 => mark_span mn sz iy iz x0 x1 vox
                     | _, _ => vox
                     end) v ks).
  { induction 1 as [|k ks Hk Hks IH]; intros v; [reflexivity|].
    cbn [foldl]. rewrite !lookup_take_lt by lia. apply IH. }
  apply Hext. apply Forall_forall. intros k Hk. apply elem_of_seq in Hk. lia.
Qed.

Lemma voxelize_scanline_unfold (job : VoxelJob num) (iy iz : nat)
    (voxels : list Z) :
  voxelize_scanline job iy iz voxels
  = foldl voxel_write voxels
      (scanline_writes job iy iz (dedupe (sort_hits (scanline_hits job iy iz)))).
Proof.
  unfold voxelize_scanline, scanline_writes. fold (scanline_hits job iy iz).
  rewrite <- mark_pairs_writes.
  destruct (scanline_hits job iy iz); reflexivity.
Qed.

End ScanlineFacts.

Module Scanline.
Import Ideal IdealFacts RealNotions.
Local Open Scope R_scope.

Lemma sort_insert_perm (h : R) (l : list R) : Permutation (sort_insert h l) (h :: l).
Proof.
  induction l as [|h' l IH]; cbn; [reflexivity|].
  destruct (Rltb (h - h') 0); [reflexivity|].
  rewrite IH. apply perm_swap.
Qed.

Lemma sort_insert_HdRel (a h : R) (l : list R) :
  HdRel Rle a l -> a <= h -> HdRel Rle a (sort_insert h l).
Proof.
  intros Hl Hh. destruct l as [|h' l]; cbn; [constructor; exact Hh|].
  destruct (Rltb (h - h') 0); constructor; [exact Hh|].
  inversion Hl; assumption.
Qed.

Lemma sort_insert_sorted (h : R) (l : list R) :
  Sorted Rle l -> Sorted Rle (sort_insert h l).
Proof.
  induction 1 as [|h' l Hs IH Hd]; cbn; [repeat constructor|].
  cbn [num_lt num_sub num_of_Z real_number].
  destruct (Rltb (h - h') 0) eqn:E.
  - apply Rltb_spec in E. repeat constructor; [assumption..|lra].
  - apply Rltb_nlt in E. constructor; [exact IH|].
    apply sort_insert_HdRel; [exact Hd|lra].
Qed.

Lemma sort_hits_sorted (hits : list R) :
  Sorted Rle (sort_hits hits) /\ Permutation (sort_hits hits) hits.
Proof.
  unfold sort_hits.
  assert (H : forall acc, Sorted Rle acc ->
            Sorted Rle (foldl (fun sorted h => sort_insert h sorted) acc hits)
            /\ Permutation (foldl (fun sorted h => sort_insert h sorted) acc hits)
                           (acc ++ hits)).
  { induction hits as [|h hits IH]; intros acc Hacc; cbn [foldl].
    - rewrite app_nil_r. split; [exact Hacc|reflexivity].
    - destruct (IH (sort_insert h acc) (sort_insert_sorted h acc Hacc)) as [H1 H2].
      split; [exact H1|]. rewrite H2, sort_insert_perm.
      change (h :: acc) with ([h] ++ acc).
      rewrite (Permutation_app_comm [h] acc), <- app_assoc. reflexivity. }
  apply (H []). constructor.
Qed.

Lemma dedupe_from_gapped (last : R) (l : list R) :
  Sorted gap (dedupe_from last l) /\ HdRel gap last (dedupe_from last l).
Proof.
  revert last. induction l as [|h l IH]; intros last; cbn; [split; constructor|].
  cbn [num_lt num_sub real_number].
  match goal with |- context [Rltb ?a ?b] => destruct (Rltb a b) eqn:E end.
  - apply Rltb_spec in E. unfold dec in E. cbn in E. destruct (IH h) as [H1 H2].
    split; constructor; assumption.
  - apply IH.
Qed.

Lemma dedupe_gapped (l : list R) : Sorted gap (dedupe l).
Proof.
  destruct l as [|h l]; cbn; [constructor|].
  destruct (dedupe_from_gapped h l). constructor; assumption.
Qed.

Lemma dedupe_from_sublist (last : R) (l : list R) : sublist (dedupe_from last l) l.
Proof.
  revert last. induction l as [|h l IH]; intros last; cbn; [constructor|].
  destruct (Rltb _ _); [apply sublist_skip | apply sublist_cons]; apply IH.
Qed.

Lemma dedupe_sublist (l : list R) : sublist (dedupe l) l.
Proof.
  destruct l as [|h l]; cbn; [constructor|]. apply sublist_skip, dedupe_from_sublist.
Qed.

Lemma dedupe_from_covers (last : R) (l : list R) :
  Sorted Rle l -> HdRel Rle last l ->
  forall h, h ∈ l ->
    (exists d, d ∈ dedupe_from last l /\ d <= h <= d + 1 / 100000)
    \/ last <= h <= last + 1 / 100000.
Proof.
  intros Hs. revert last. induction Hs as [|h0 l Hs IH Hd]; intros last Hl h Hin.
  - inversion Hin.
  - assert (Hss : StronglySorted Rle (h0 :: l)).
    { apply Sorted_StronglySorted; [|constructor; assumption].
      intros a b c; apply Rle_trans. }
    inversion Hss as [|? ? _ Hall]; subst.
    inversion Hl as [|? ? Hlast]; subst.
    cbn [dedupe_from]. cbn [num_lt num_sub real_number].
    match goal with |- context [Rltb ?a ?b] => destruct (Rltb a b) eqn:E end.
    + left. apply elem_of_cons in Hin as [->|Hin].
      * exists h0. split; [apply list_elem_of_here|lra].
      * destruct (IH h0 Hd h Hin) as [(d & Hdin & Hdh)|Hh].
        -- exists d. split; [apply list_elem_of_further, Hdin|exact Hdh].
        -- exists h0. split; [apply list_elem_of_here|exact Hh].
    + apply Rltb_nlt in E. unfold dec in E. cbn in E.
      apply elem_of_cons in Hin as [->|Hin]; [right; lra|].
      apply IH; [|exact Hin].
      destruct Hd as [|h1 l' Hh1]; constructor. lra.
Qed.

Lemma dedupe_covers (l : list R) :
  Sorted Rle l ->
  forall h, h ∈ l -> exists d, d ∈ dedupe l /\ d <= h <= d + 1 / 100000.
Proof.
  intros Hs h Hin. destruct l as [|h0 l]; [inversion Hin|].
  cbn [dedupe]. inversion Hs as [|? ? Hs' Hd]; subst.
  apply elem_of_cons in Hin as [->|Hin].
  - exists h0. split; [apply list_elem_of_here|lra].
  - destruct (dedupe_from_covers h0 l Hs' Hd h Hin) as [(d & Hdin & Hdh)|Hh].
    + exists d. split; [apply list_elem_of_further, Hdin|exact Hdh].
    + exists h0. split; [apply list_elem_of_here|exact Hh].
Qed.

(** C6.  On every scanline the accepted hits are sorted ascending (a
    permutation of them); the deduplicated list is a sublist of the sorted
    one in which consecutive hits are more than [1e-5] apart, every hit
    being within [1e-5] above a kept one; and the cells set to 1 are exactly
    those already set and those written for a pair
    [(deduped[2k], deduped[2k+1])], every other cell keeping its value.
    The function is total (no error), and when the number of deduplicated
    hits is odd the result is the one obtained without the last hit. *)
Theorem scanline_marks (job : VoxelJob R) (iy iz : nat) (voxels : list Z) :
  let hits := scanline_hits job iy iz in
  let sorted := sort_hits hits in
  let deduped := dedupe sorted in
  let after := voxelize_scanline job iy iz voxels in
  (Sorted Rle sorted /\ Permutation sorted hits)
  /\ (sublist deduped sorted /\ Sorted gap deduped
      /\ forall h, h ∈ sorted ->
           exists d, d ∈ deduped /\ d <= h <= d + 1 / 100000)
  /\ (List.length after = List.length voxels
      /\ (forall c, after !! c = Some 1%Z
            <-> voxels !! c = Some 1%Z
                \/ (written c (scanline_writes job iy iz deduped)
                    /\ (c < List.length voxels)%nat))
      /\ (forall c, ~ written c (scanline_writes job iy iz deduped) ->
            after !! c = voxels !! c))
  /\ (Nat.Odd (List.length deduped) ->
      after = mark_pairs job.(job_min) job.(job_size) iy iz
                (take (List.length deduped - 1) deduped) voxels).
Proof.
  intros hits sorted deduped after.
  destruct (sort_hits_sorted hits) as [Hs Hp]. fold sorted in Hs, Hp.
  assert (Ha : after = foldl voxel_write voxels (scanline_writes job iy iz deduped))
    by apply voxelize_scanline_unfold.
  split; [split; assumption|].
  split.
  { split; [apply dedupe_sublist|]. split; [apply dedupe_gapped|].
    apply dedupe_covers, Hs. }
  split.
  { rewrite Ha. split; [apply writes_length|].
    split; [intros c; apply writes_lookup | intros c; apply writes_elsewhere]. }
  intros Hodd. rewrite Ha. unfold scanline_writes.
  rewrite <- mark_pairs_writes. apply mark_pairs_odd, Hodd.
Qed.

End Scanline.

(** ** Loads that overlap *)

Section LoadFacts.

Local Open Scope js_scope.
Context {num : Type} {JSN : JSNumber num}.

Lemma grows_refl (v : list Z) : grows v v.
Proof. split; auto. Qed.

Lemma grows_trans (a b c : list Z) : grows a b -> grows b c -> grows a c.
Proof. intros [L1 H1] [L2 H2]. split; [congruence|auto]. Qed.

Lemma scanline_grows (job : VoxelJob num) (iy iz : nat) (voxels : list Z) :
  grows voxels (voxelize_scanline job iy iz voxels).
Proof.
  rewrite voxelize_scanline_unfold. split; [apply writes_length|].
  intros c H. apply writes_lookup. left. exact H.
Qed.

Lemma foldl_grows {A : Type} (f : list Z -> A -> list Z) (xs : list A) (voxels : list Z) :
  (forall v x, grows v (f v x)) -> grows voxels (foldl f voxels xs).
Proof.
  intros Hf. revert voxels. induction xs as [|x xs IH]; intros voxels; cbn.
  - apply grows_refl.
  - eapply grows_trans; [apply Hf | apply IH].
Qed.

Lemma row_grows (job : VoxelJob num) (voxels : list Z) (iy : nat) :
  grows voxels (voxelize_row job voxels iy).
Proof.
  unfold voxelize_row. apply foldl_grows. intros v iz. apply scanline_grows.
Qed.

Lemma insert_swap_perm {A : Type} (l : list A) (i j : nat) (a b : A) :
  l !! i = Some a -> l !! j = Some b ->
  Permutation (<[j := a]> (<[i := b]> l)) l.
Proof.
  revert i j. induction l as [|c l IH]; intros i j Hi Hj; [discriminate|].
  destruct i as [|i], j as [|j]; cbn in *.
  - injection Hi as ->. injection Hj as ->. reflexivity.
  - injection Hi as ->.
    (* b :: <[j := a]> l  ~  a :: l  where l !! j = b *)
    clear IH. revert j Hj. induction l as [|d l IH]; intros j Hj; [discriminate|].
    destruct j as [|j]; cbn in *.
    + injection Hj as ->. apply perm_swap.
    + rewrite perm_swap. rewrite (IH j Hj). apply perm_swap.
  - injection Hj as ->.
    clear IH. revert i Hi. induction l as [|d l IH]; intros i Hi; [discriminate|].
    destruct i as [|i]; cbn in *.
    + injection Hi as ->. apply perm_swap.
    + rewrite perm_swap. rewrite (IH i Hi). apply perm_swap.
  - constructor. apply IH; assumption.
Qed.

Lemma swap_perm (cache : list Cell) (i : nat) (j : Z) : Permutation (swap cache i j) cache.
Proof.
  unfold swap, cell_at.
  destruct (cache !! i) as [t|] eqn:Ei; [|reflexivity].
  destruct (0 <=? j)%Z; [|reflexivity].
  destruct (cache !! Z.to_nat j) as [cj|] eqn:Ej; [|reflexivity].
  apply insert_swap_perm; assumption.
Qed.

Lemma shuffle_from_perm (rnd : Random num) (i k : nat) (cache : list Cell) :
  Permutation (shuffle_from rnd i k cache).1 cache.
Proof.
  revert k cache. induction i as [|i IH]; intros k cache; cbn [shuffle_from]; [reflexivity|].
  rewrite IH. apply swap_perm.
Qed.

Lemma shuffle_perm (rnd : Random num) (k : nat) (cache : list Cell) :
  Permutation (shuffle rnd k cache).1 cache.
Proof. apply shuffle_from_perm. Qed.

Lemma rows_until_yield_nonempty (iy remaining : nat) :
  (0 < remaining)%nat -> (0 < List.length (rows_until_yield iy remaining))%nat.
Proof. destruct remaining; [lia|]. cbn. lia. Qed.

(** C10 (as the code has it).  Nothing cancels a voxelisation.  Starting a
    load only clears [isLoaded] and stops the simulation; when its own
    voxelisation begins, the layout gets a fresh all-zero grid and an empty
    cache (the grid of a job still pending is dropped).  A job that is
    resumed, whichever load it belongs to, marks the rows of its next chunk
    in the grid the layout holds then: cells are only ever set, the bounds
    are not touched, and the job either awaits again at a later row or ends,
    in which case the interior cells of that grid are appended to the
    current cache, the cache is shuffled and [isLoaded] is set. *)
Theorem load_does_not_cancel (rnd : Random num) (this : STLLayout num)
    (k : nat) :
  (* starting a load *)
  (forall geo,
     (loadFile this geo).1.(_voxels) = this.(_voxels)
     /\ (loadFile this geo).1.(_insideCache) = this.(_insideCache)
     /\ (loadFile this geo).1.(isLoaded) = false
     /\ (loadFile this geo).2 = AwaitBuffer geo)
  (* its voxelisation begins: a fresh grid and an empty cache *)
  /\ (forall geo geo' b,
        normalizeGeometry geo = Some (geo', b) ->
        let r := resume rnd (AwaitBuffer geo) this k in
        r.1.1.(_voxels)
          = replicate (Z.to_nat (GRID_SIZE * GRID_SIZE * GRID_SIZE)) 0%Z
        /\ r.1.1.(_insideCache) = []
        /\ r.1.1.(_bounds) = b
        /\ r.2 = AwaitTimer {| job_geo := geo'; job_min := b.(min);
                               job_size := b.(size); job_iy := 0 |})
  (* a job that is resumed, whichever load it belongs to *)
  /\ (forall job,
        let r := resume rnd (AwaitTimer job) this k in
        r.1.1.(_voxels)
          = foldl (voxelize_row job) this.(_voxels) (chunk_rows job.(job_iy))
        /\ grows this.(_voxels) r.1.1.(_voxels)
        /\ r.1.1.(_bounds) = this.(_bounds)
        /\ match r.2 with
           | AwaitTimer job' =>
               job'.(job_geo) = job.(job_geo)
               /\ job'.(job_min) = job.(job_min)
               /\ job'.(job_size) = job.(job_size)
               /\ (job.(job_iy) < job'.(job_iy))%nat
               /\ r.1.1.(_insideCache) = this.(_insideCache)
               /\ r.1.1.(isLoaded) = this.(isLoaded)
           | Completed =>
               r.1.1.(isLoaded) = true
               /\ Permutation r.1.1.(_insideCache)
                    (this.(_insideCache) ++ inside_cells r.1.1.(_voxels))
           | AwaitBuffer _ => False
           end).
Proof.
  split; [intros geo; repeat split|].
  split.
  - intros geo geo' b Hn r. subst r. cbn [resume]. rewrite Hn. cbn. repeat split.
  - intros job r. subst r. cbn [resume]. unfold voxelize_resume.
    set (rows := chunk_rows (job_iy job)).
    set (voxels := foldl (voxelize_row job) (_voxels this) rows).
    assert (Hg : grows (_voxels this) voxels).
    { unfold voxels. apply foldl_grows. intros v iy. apply row_grows. }
    destruct (Nat.ltb_spec (job_iy job + List.length rows) (Z.to_nat GRID_SIZE)) as [Hlt|Hge].
    + cbn. repeat split; try apply Hg.
      assert (0 < List.length rows)%nat; [|lia].
      unfold rows, chunk_rows. apply rows_until_yield_nonempty.
      destruct (Nat.le_gt_cases (Z.to_nat GRID_SIZE) (job_iy job)) as [H|H]; [|lia].
      exfalso. unfold rows, chunk_rows in Hlt.
      replace (Z.to_nat GRID_SIZE - job_iy job)%nat with 0%nat in Hlt by lia.
      cbn in Hlt. lia.
    + destruct (shuffle rnd k (_insideCache this ++ inside_cells voxels)) as [cache k'] eqn:Es.
      cbn. repeat split; try apply Hg.
      pose proof (shuffle_perm rnd k (_insideCache this ++ inside_cells voxels)) as Hp.
      rewrite Es in Hp. exact Hp.
Qed.

End LoadFacts.


Module LoadExamples.

Import Binary64 Block.
Local Open Scope js_scope.

(** C10 (as the specification words it) fails at binary64.  When the second
    load's voxelisation has begun the layout holds its all-zero grid and its
    bounds; the first job, resumed from the checkpoint at which it was
    waiting, is not cancelled: it marks cells of its rows 0 and 1 (eight
    cells, the cell of index 0 among them) in that grid and awaits again at
    row 4. *)
Lemma resumed_job_writes_into_new_grid :
  let before := second_begun.1.1 in
  let after := first_resumed.1.1 in
  forallb (Z.eqb 0) before.(_voxels) = true
  /\ before.(_bounds) <> first_begun.1.1.(_bounds)
  /\ after.(_bounds) = before.(_bounds)
  /\ after.(_voxels) !! 0%nat = Some 1%Z
  /\ filter (fun c => after.(_voxels) !! c = Some 1%Z) (seq 0 2048)
     = [0; 1; 32; 33; 1024; 1025; 1056; 1057]%nat
  /\ match first_resumed.2 with
     | AwaitTimer job => job.(job_iy) = 4%nat
     | _ => False
     end.
Proof.
  vm_compute.
  split; [reflexivity|]. split; [discriminate|]. split; [reflexivity|].
  split; [reflexivity|]. split; reflexivity.
Qed.

End LoadExamples.

(** ** What a tick leaves alone, and what it publishes *)

Section StructureFacts.

Local Open Scope js_scope.
Context {num : Type} {JSN : JSNumber num}.

Lemma same_setup_refl (s : STLLayout num) : same_setup s s.
Proof. repeat split. Qed.

Lemma same_setup_trans (s t u : STLLayout num) :
  same_setup s t -> same_setup t u -> same_setup s u.
Proof. unfold same_setup. intuition congruence. Qed.

Lemma subStep_same_setup (this : STLLayout num) (dt : num) :
  same_setup this (_subStep this dt).
Proof. unfold _subStep. destruct (_neurons this); repeat split. Qed.

Lemma subStep_positions (this : STLLayout num) (dt : num) :
  (_subStep this dt).(_positions) = this.(_positions).
Proof. unfold _subStep. destruct (_neurons this); reflexivity. Qed.

Lemma subSteps_same_setup (this : STLLayout num) (n : nat) :
  same_setup this (subSteps this n).
Proof.
  unfold subSteps. induction n as [|n IH]; [apply same_setup_refl|].
  rewrite Nat.iter_succ. eapply same_setup_trans; [exact IH|apply subStep_same_setup].
Qed.

Lemma step_same_setup (this : STLLayout num) : same_setup this (_step this).
Proof.
  unfold _step. destruct (_neurons this); [apply same_setup_refl|].
  eapply same_setup_trans; [apply (subSteps_same_setup this (Z.to_nat SUB_STEPS))|].
  repeat split.
Qed.

Lemma subStep_labels (this : STLLayout num) (dt : num) :
  map (fun n => (n.(layer), n.(idx))) (_subStep this dt).(_neurons)
  = map (fun n => (n.(layer), n.(idx))) this.(_neurons).
Proof.
  rewrite subStep_neurons.
  pose proof (accumulate_forces_same_body this) as HF.
  induction HF as [|n m ns ms Hnm HF IH]; [reflexivity|].
  cbn [map]. rewrite IH. f_equal.
  destruct Hnm as (_ & _ & Hl & Hi).
  unfold integrate. destruct (_isInside this _); cbn; congruence.
Qed.

Lemma subSteps_labels (this : STLLayout num) (n : nat) :
  map (fun n => (n.(layer), n.(idx))) (subSteps this n).(_neurons)
  = map (fun n => (n.(layer), n.(idx))) this.(_neurons).
Proof.
  unfold subSteps. induction n as [|n IH]; [reflexivity|].
  rewrite Nat.iter_succ, subStep_labels. exact IH.
Qed.

(** A tick moves neurons and nothing else: the coefficients, the grid, the
    cache, the bounds, the layer targets, [_rafId] and [isLoaded] are as
    before, there are as many neurons, and each keeps its layer and its
    index within the layer. *)
Theorem step_keeps_structure (this : STLLayout num) :
  same_setup this (_step this)
  /\ map (fun n => (n.(layer), n.(idx))) (_step this).(_neurons)
     = map (fun n => (n.(layer), n.(idx))) this.(_neurons)
  /\ List.length (_step this).(_neurons) = List.length this.(_neurons)
  /\ (this.(_neurons) = [] -> _step this = this).
Proof.
  destruct (step_neurons this) as (Hn & _).
  assert (Hl : map (fun n => (n.(layer), n.(idx))) (_step this).(_neurons)
               = map (fun n => (n.(layer), n.(idx))) this.(_neurons))
    by (rewrite Hn; apply subSteps_labels).
  split; [apply step_same_setup|]. split; [exact Hl|]. split.
  - rewrite <- (length_map (fun n => (n.(layer), n.(idx)))), Hl. apply length_map.
  - intros E. unfold _step. rewrite E. reflexivity.
Qed.

Lemma sync_row_spec (row : list (Vec3 num)) (ns : list (Neuron num)) :
  (List.length row <= List.length ns)%nat ->
  sync_row row ns = (map pos (take (List.length row) ns), drop (List.length row) ns).
Proof.
  revert ns. induction row as [|r row IH]; intros ns Hlen; cbn.
  - destruct ns; reflexivity.
  - destruct ns as [|n ns]; [cbn in Hlen; lia|].
    cbn in Hlen. rewrite IH by lia. reflexivity.
Qed.

Lemma sync_positions_spec (rows : list (list (Vec3 num))) (ns : list (Neuron num)) :
  (List.length (concat rows) <= List.length ns)%nat ->
  map List.length (sync_positions rows ns) = map List.length rows
  /\ concat (sync_positions rows ns) = map pos (take (List.length (concat rows)) ns).
Proof.
  revert ns. induction rows as [|row rows IH]; intros ns Hlen; cbn.
  - split; reflexivity.
  - cbn in Hlen. rewrite length_app in Hlen.
    rewrite sync_row_spec by lia.
    destruct (IH (drop (List.length row) ns)) as [H1 H2].
    { rewrite length_drop. lia. }
    cbn. rewrite H1, H2, length_map, length_take. split.
    + f_equal. lia.
    + rewrite length_app, <- map_app. f_equal.
      rewrite take_drop_commute. 
      rewrite <- (take_drop (List.length row) (take (List.length row + List.length (concat rows)) ns)) at 2.
      rewrite take_take. f_equal. f_equal. lia.
Qed.

(** After a tick, when [_positions] has exactly one slot per neuron, its
    rows have the lengths they had and, read row by row, hold the neurons'
    committed positions in order. *)
Theorem step_publishes_positions (this : STLLayout num) :
  this.(_neurons) <> [] ->
  List.length (concat this.(_positions)) = List.length this.(_neurons) ->
  map List.length (_step this).(_positions) = map List.length this.(_positions)
  /\ concat (_step this).(_positions) = map pos (_step this).(_neurons).
Proof.
  intros Hne Hlen. unfold _step. destruct (_neurons this) as [|n0 ns0] eqn:E; [congruence|].
  rewrite <- E in Hlen. clear E n0 ns0 Hne.
  set (s := subSteps this (Z.to_nat SUB_STEPS)).
  cbn [_positions _neurons set_positions].
  assert (Hp : s.(_positions) = this.(_positions)).
  { unfold s, subSteps. generalize (Z.to_nat SUB_STEPS) as k.
    induction k as [|k IH]; [reflexivity|].
    rewrite Nat.iter_succ, subStep_positions. exact IH. }
  assert (Hn : List.length s.(_neurons) = List.length this.(_neurons))
    by apply subSteps_length.
  destruct (sync_positions_spec s.(_positions) s.(_neurons)) as [H1 H2].
  { rewrite Hp, Hn. lia. }
  rewrite H1, H2, Hp. split; [reflexivity|].
  rewrite Hlen, <- Hn, firstn_all. reflexivity.
Qed.
End StructureFacts.


Module StructureWitness.

Import Binary64 Block.

Lemma step_publishes_positions_witness :
  (two_neurons.(_neurons) <> []
   /\ List.length (concat two_neurons.(_positions))
      = List.length two_neurons.(_neurons))
  /\ map List.length (_step two_neurons).(_positions)
     = map List.length two_neurons.(_positions)
  /\ concat (_step two_neurons).(_positions)
     = map pos (_step two_neurons).(_neurons).
Proof.
  assert (H1 : two_neurons.(_neurons) <> []) by discriminate.
  assert (H2 : List.length (concat two_neurons.(_positions))
               = List.length two_neurons.(_neurons)) by reflexivity.
  split; [exact (conj H1 H2)|].
  exact (step_publishes_positions two_neurons H1 H2).
Defined.

End StructureWitness.

(** ** The repulsion phase as a whole *)

Lemma inner_pairs_length (i a n : nat) :
  List.length (j ← seq a n; [(i, j)]) = n.
Proof.
  revert a. induction n as [|n IH]; intros a; [reflexivity|].
  cbn [seq]. rewrite bind_cons, length_app, IH. reflexivity.
Qed.

Lemma pairs_from_length (N a n : nat) :
  (a + n = N)%nat ->
  (2 * List.length (i ← seq a n; j ← seq (S i) (N - S i); [(i, j)]) = n * (n - 1))%nat.
Proof.
  revert a. induction n as [|n IH]; intros a Han; [reflexivity|].
  cbn [seq]. rewrite bind_cons, length_app, inner_pairs_length.
  specialize (IH (S a) ltac:(lia)).
  replace (N - S a)%nat with n by lia. nia.
Qed.

(** The repulsion loops visit [N (N - 1) / 2] pairs. *)
Theorem pairs_count (N : nat) : (2 * List.length (pairs N) = N * (N - 1))%nat.
Proof. unfold pairs. apply (pairs_from_length N 0 N). lia. Qed.

Module RepulsionTotal.

Import Ideal IdealFacts RealNotions.
Local Open Scope R_scope.

Lemma add_real (a b : Vec3 R) :
  add a b = Vector3 (a.(x) + b.(x)) (a.(y) + b.(y)) (a.(z) + b.(z)).
Proof. reflexivity. Qed.

Lemma total_force_insert (l : list (Neuron R)) (i : nat) (n : Neuron R) (f : Vec3 R) :
  l !! i = Some n ->
  add (total_force (<[i := set_force n f]> l)) n.(force)
  = add (total_force l) f.
Proof.
  revert i. induction l as [|m l IH]; intros [|i] H; cbn in H; try discriminate.
  - injection H as ->. cbn. unfold add. cbn. f_equal; ring.
  - specialize (IH i H).
    change (total_force (<[S i := set_force n f]> (m :: l)))
      with (add (force m) (total_force (<[i := set_force n f]> l))).
    change (total_force (m :: l)) with (add (force m) (total_force l)).
    destruct (total_force (<[i := set_force n f]> l)) as [ux uy uz],
      (total_force l) as [tx ty tz], (force m) as [mx my mz],
      (force n) as [ax ay az], f as [fx fy fz].
    unfold add in *. cbn [x y z] in *. injection IH as I1 I2 I3.
    real_ops. f_equal; lra.
Qed.

Lemma repel_pair_total (k : R) (l : list (Neuron R)) (ij : nat * nat) :
  (ij.1 < ij.2)%nat -> total_force (repel_pair k l ij) = total_force l.
Proof.
  intros Hij. unfold repel_pair.
  destruct (l !! ij.1) as [ni|] eqn:Ei; [|reflexivity].
  destruct (l !! ij.2) as [nj|] eqn:Ej; [|reflexivity].
  set (F := repulsion k (pos ni) (pos nj)).
  set (l1 := <[ij.1 := set_force ni (add (force ni) F)]> l).
  assert (E1 : l1 !! ij.2 = Some nj).
  { unfold l1. rewrite list_lookup_insert_ne by lia. exact Ej. }
  pose proof (total_force_insert l ij.1 ni (add (force ni) F) Ei) as H1.
  pose proof (total_force_insert l1 ij.2 nj (sub (force nj) F) E1) as H2.
  fold l1 in H1.
  destruct (total_force l) as [tx ty tz], (total_force l1) as [ux uy uz],
    (total_force (<[ij.2 := _]> l1)) as [wx wy wz], (force ni) as [ax ay az],
    (force nj) as [bx by' bz], F as [fx fy fz].
  unfold add, sub in *. cbn [x y z] in *. real_ops.
  injection H1 as ? ? ?. injection H2 as ? ? ?.
  f_equal; lra.
Qed.

Lemma repel_all_total (k : R) (l : list (Neuron R)) :
  total_force (repel_all k l) = total_force l.
Proof.
  unfold repel_all.
  assert (H : forall ps, Forall (fun ij : nat * nat => (ij.1 < ij.2)%nat) ps ->
            forall l, total_force (foldl (repel_pair k) l ps) = total_force l).
  { induction 1 as [|ij ps Hij Hps IH]; intros l0; [reflexivity|].
    cbn [foldl]. rewrite IH. apply repel_pair_total, Hij. }
  apply H. apply Forall_forall. intros [a b] Hin. apply pairs_spec in Hin. cbn. lia.
Qed.

(** Newton's third law for the whole phase: after the repulsion loops,
    started as the source does from forces set to zero, the forces of all
    neurons sum to the zero vector (real arithmetic), and no neuron has
    moved. *)
Theorem repulsion_sums_to_zero (k : R) (ns : list (Neuron R)) :
  let zeroed := map (fun n => set_force n (Vector3 0 0 0)) ns in
  total_force (repel_all k zeroed) = Vector3 0 0 0
  /\ map pos (repel_all k zeroed) = map pos ns.
Proof.
  intros zeroed. split.
  - rewrite repel_all_total. unfold zeroed.
    induction ns as [|n ns IH]; [reflexivity|].
    cbn [map total_force foldr]. fold (total_force (map (fun n => set_force n (Vector3 0 0 0)) ns)).
    rewrite IH. unfold add. cbn. f_equal; ring.
  - pose proof (repel_all_same_body k zeroed) as H.
    assert (Hz : Forall2 same_body ns zeroed).
    { unfold zeroed. apply Forall2_same_body_map. intros n.
      apply same_body_set_force, same_body_refl. }
    pose proof (Forall2_same_body_trans _ _ _ Hz H) as Hall.
    clear -Hall. induction Hall as [|a b l1 l2 Hab Hall IH]; [reflexivity|].
    cbn [map]. rewrite IH. f_equal. symmetry. apply Hab.
Qed.

End RepulsionTotal.

(** ** The ray test: hits lie ahead, parallel triangles are missed *)

Module RayFront.
Import Ideal IdealFacts RealNotions.
Local Open Scope R_scope.

(** A hit lies in front of the ray origin by at least the epsilon, and a
    triangle whose normal has (almost) no X component, in particular a
    degenerate triangle or one parallel to the rays, is hit by no ray
    (real arithmetic). *)
Theorem rayTriX_front_and_parallel (rayOX wy wz : R) (v0 v1 v2 : Vec3 R) :
  (forall X, _rayTriX rayOX wy wz v0 v1 v2 = Some X -> rayOX + eps <= X)
  /\ (Rabs (cross (subVectors v1 v0) (subVectors v2 v0)).(x) < eps ->
      _rayTriX rayOX wy wz v0 v1 v2 = None)
  /\ (v1 = v0 \/ v2 = v0 \/ v1 = v2 -> _rayTriX rayOX wy wz v0 v1 v2 = None).
Proof.
  assert (Hpar : Rabs (cross (subVectors v1 v0) (subVectors v2 v0)).(x) < eps ->
                 _rayTriX rayOX wy wz v0 v1 v2 = None).
  { intros H. rewrite RayTriangle.rayTriX_unfold.
    rewrite Rltb_true; [reflexivity|].
    destruct v0 as [x0 y0 z0], v1 as [x1 y1 z1], v2 as [x2 y2 z2].
    unfold ray_params, moller_trumbore, dot, cross, subVectors in *.
    cbn [x y z mt_det] in *. real_ops.
    rewrite <- Rabs_Ropp.
    match goal with
    | H : Rabs ?a < _ |- Rabs ?b < _ => replace b with a by ring; exact H
    end. }
  split; [|split; [exact Hpar|]].
  - intros X H. apply RayTriangle.rayTriX_hit_iff in H.
    destruct H as (_ & _ & _ & _ & Ht & ->). lra.
  - intros H. apply Hpar.
    assert (E : (cross (subVectors v1 v0) (subVectors v2 v0)).(x) = 0).
    { destruct v0 as [x0 y0 z0], v1 as [x1 y1 z1], v2 as [x2 y2 z2].
      unfold cross, subVectors. cbn [x y z]. real_ops.
      destruct H as [H|[H|H]]; injection H as -> -> ->; ring. }
    rewrite E, Rabs_R0. unfold eps. lra.
Qed.

End RayFront.

(** ** The interior test and the grid *)

Module GridIdeal.
Import Ideal IdealFacts RealNotions.
Local Open Scope R_scope.

Lemma cell_of_coordinate (m s a : R) (i : nat) :
  0 < s ->
  (m + IZR (Z.of_nat i) / 32 * s <= a < m + (IZR (Z.of_nat i) + 1) / 32 * s
   <-> Int_part ((a - m) / s * 32) = Z.of_nat i).
Proof.
  intros Hs.
  assert (E : forall t, (m + t / 32 * s <= a <-> t <= (a - m) / s * 32)
                        /\ (a < m + t / 32 * s <-> (a - m) / s * 32 < t)).
  { intros t.
    assert (Ht : (a - m) / s * 32 - t = (a - (m + t / 32 * s)) * (32 / s))
      by (field; lra).
    assert (Hp : 0 < 32 / s) by (apply Rdiv_lt_0_compat; lra).
    split; split; intros H; nra. }
  split.
  - intros [H1 H2]. apply Int_part_between. split.
    + apply (E (IZR (Z.of_nat i))), H1.
    + apply (E (IZR (Z.of_nat i) + 1)), H2.
  - intros H. destruct (Int_part_bounds ((a - m) / s * 32)) as [B1 B2].
    rewrite H in B1, B2. split.
    + apply (E (IZR (Z.of_nat i))), B1.
    + apply (E (IZR (Z.of_nat i) + 1)), B2.
Qed.

Lemma floor_in_grid (a : R) :
  (Rltb (Rfloor a) 0 || Rleb 32 (Rfloor a) = false)
  <-> (0 <= Int_part a < 32)%Z.
Proof.
  unfold Rfloor. rewrite orb_false_iff, Rltb_nlt, Rleb_nle. split.
  - intros [H1 H2]. split.
    + apply le_IZR. lra.
    + apply lt_IZR. lra.
  - intros [H1 H2]. apply IZR_le in H1. apply IZR_lt in H2. lra.
Qed.

Lemma isInside_floor (this : STLLayout R) (p : Vec3 R) :
  let mn := this.(_bounds).(min) in
  let sz := this.(_bounds).(size) in
  let i := Int_part ((p.(x) - mn.(x)) / sz.(x) * 32) in
  let j := Int_part ((p.(y) - mn.(y)) / sz.(y) * 32) in
  let k := Int_part ((p.(z) - mn.(z)) / sz.(z) * 32) in
  _isInside this p = true <->
  (0 <= i < 32)%Z /\ (0 <= j < 32)%Z /\ (0 <= k < 32)%Z
  /\ this.(_voxels) !! Z.to_nat (i * 32 * 32 + j * 32 + k) = Some 1%Z.
Proof.
  intros mn sz i j k. unfold _isInside.
  cbn [num_of_Z num_add num_sub num_mul num_div num_lt num_le Math_floor real_number].
  change (IZR GRID_SIZE) with 32. fold mn sz.
  destruct (Rltb (Rfloor ((x p - x mn) / x sz * 32)) 0
            || Rleb 32 (Rfloor ((x p - x mn) / x sz * 32))) eqn:Ex.
  { cbn [orb]. split; [discriminate|]. intros (H & _).
    apply floor_in_grid in H. fold i in Ex. unfold i in H. congruence. }
  cbn [orb].
  destruct (Rltb (Rfloor ((y p - y mn) / y sz * 32)) 0
            || Rleb 32 (Rfloor ((y p - y mn) / y sz * 32))) eqn:Ey.
  { cbn [orb]. split; [discriminate|]. intros (_ & H & _).
    apply floor_in_grid in H. unfold j in H. congruence. }
  cbn [orb].
  destruct (Rltb (Rfloor ((z p - z mn) / z sz * 32)) 0
            || Rleb 32 (Rfloor ((z p - z mn) / z sz * 32))) eqn:Ez.
  { split; [discriminate|]. intros (_ & _ & H & _).
    apply floor_in_grid in H. unfold k in H. congruence. }
  assert (Hi : (0 <= i < 32)%Z) by (apply floor_in_grid; exact Ex).
  assert (Hj : (0 <= j < 32)%Z) by (apply floor_in_grid; exact Ey).
  assert (Hk : (0 <= k < 32)%Z) by (apply floor_in_grid; exact Ez).
  unfold voxel_at, Rfloor. cbn [num_to_Z real_number]. fold i j k.
  replace (IZR i * 32 * 32 + IZR j * 32 + IZR k)
    with (IZR (i * 32 * 32 + j * 32 + k))
    by (rewrite !plus_IZR, !mult_IZR; reflexivity).
  rewrite R_to_Z_IZR.
  destruct (Z.leb_spec 0 (i * 32 * 32 + j * 32 + k)); [|lia].
  destruct (_voxels this !! Z.to_nat (i * 32 * 32 + j * 32 + k)) as [[|[]|]|];
    split; try discriminate; try tauto;
    intros (_ & _ & _ & [=]).
Qed.

(** In bounds of positive extent, [_isInside p] holds exactly when [p] lies
    in a cell of the 32 x 32 x 32 grid whose voxel is set; in particular a
    point outside the bounds (below the minimum corner, or at or above the
    maximum one, along some axis) is outside. *)
Theorem isInside_iff_in_marked_cell (this : STLLayout R) (p : Vec3 R) :
  positive_extent this ->
  (_isInside this p = true <->
   exists c : Cell, cell_ok this.(_voxels) c /\ in_cell this p c.(ix) c.(iy) c.(iz)).
Proof.
  intros (Hx & Hy & Hz). rewrite isInside_floor. split.
  - intros (Hi & Hj & Hk & Hv).
    set (i := Int_part ((x p - _) / _ * 32)) in *.
    set (j := Int_part ((y p - _) / _ * 32)) in *.
    set (k := Int_part ((z p - _) / _ * 32)) in *.
    exists {| ix := Z.to_nat i; iy := Z.to_nat j; iz := Z.to_nat k |}. split.
    + unfold cell_ok. cbn [ix iy iz].
      split; [lia|]. split; [lia|]. split; [lia|].
      rewrite <- Hv. f_equal. lia.
    + unfold in_cell. cbn [ix iy iz].
      rewrite !cell_of_coordinate by assumption.
      subst i j k. repeat split; lia.
  - intros (c & (Cx & Cy & Cz & Hv) & Hc). unfold in_cell in Hc.
    rewrite !cell_of_coordinate in Hc by assumption.
    destruct Hc as (-> & -> & ->).
    split; [lia|]. split; [lia|]. split; [lia|].
    rewrite <- Hv. f_equal. lia.
Qed.

Lemma isInside_iff_in_marked_cell_witness :
  positive_extent real_block
  /\ (_isInside real_block (Vector3 0 0 0) = true <->
      exists c : Cell, cell_ok real_block.(_voxels) c
                       /\ in_cell real_block (Vector3 0 0 0) c.(ix) c.(iy) c.(iz)).
Proof.
  assert (H : positive_extent real_block).
  { unfold positive_extent.
    cbn [real_block _bounds size x y z]. lra. }
  split; [exact H | apply (isInside_iff_in_marked_cell real_block _ H)].
Defined.

(** A point below the minimum corner or at or beyond the maximum corner of
    the bounds is outside, whatever the grid holds. *)
Theorem isInside_within_bounds (this : STLLayout R) (p : Vec3 R) :
  positive_extent this ->
  _isInside this p = true ->
  let mn := this.(_bounds).(min) in
  let sz := this.(_bounds).(size) in
  (mn.(x) <= p.(x) < mn.(x) + sz.(x))
  /\ (mn.(y) <= p.(y) < mn.(y) + sz.(y))
  /\ (mn.(z) <= p.(z) < mn.(z) + sz.(z)).
Proof.
  intros (Hx & Hy & Hz) H mn sz. apply isInside_floor in H.
  destruct H as (Hi & Hj & Hk & _).
  assert (B : forall m s a, 0 < s -> (0 <= Int_part ((a - m) / s * 32) < 32)%Z ->
                            m <= a < m + s).
  { intros m s a Hs [H0 H1].
    destruct (Int_part_bounds ((a - m) / s * 32)) as [B1 B2].
    apply IZR_le in H0. assert (H1' : (Int_part ((a - m) / s * 32) <= 31)%Z) by lia.
    apply IZR_le in H1'.
    assert (E : (a - m) / s * 32 = (a - m) * (32 / s)) by (field; lra).
    assert (Hp : 0 < 32 / s) by (apply Rdiv_lt_0_compat; lra).
    assert (E2 : s * (32 / s) = 32) by (field; lra).
    rewrite E in B1, B2, H0, H1'.
    split; [apply (Rmult_le_reg_r (32 / s)) | apply (Rmult_lt_reg_r (32 / s))];
      try exact Hp; lra. }
  exact (conj (B _ _ _ Hx Hi) (conj (B _ _ _ Hy Hj) (B _ _ _ Hz Hk))).
Qed.

Lemma block_centre_inside :
  _isInside real_block (_cellToWorld real_block 16 16 16) = true.
Proof.
  destruct Sampler.real_block_wf as (Hx & Hy & Hz & _ & Hc).
  inversion Hc as [|c l Hok _]; subst.
  exact (Sampler.cell_center_inside real_block _ Hx Hy Hz Hok).
Qed.

Lemma isInside_within_bounds_witness :
  positive_extent real_block
  /\ _isInside real_block (_cellToWorld real_block 16 16 16) = true
  /\ (let p := _cellToWorld real_block 16 16 16 in
      let mn := real_block.(_bounds).(min) in
      let sz := real_block.(_bounds).(size) in
      (mn.(x) <= p.(x) < mn.(x) + sz.(x))
      /\ (mn.(y) <= p.(y) < mn.(y) + sz.(y))
      /\ (mn.(z) <= p.(z) < mn.(z) + sz.(z))).
Proof.
  assert (H : positive_extent real_block).
  { unfold positive_extent.
    cbn [real_block _bounds size x y z]. lra. }
  split; [exact H|]. split; [exact block_centre_inside|].
  exact (isInside_within_bounds real_block _ H block_centre_inside).
Defined.

End GridIdeal.

(** ** A scanline writes into its own column *)

Module ScanlineColumn.
Import Ideal IdealFacts RealNotions.
Local Open Scope R_scope.

Lemma R_to_Z_Some (a : R) (n : Z) : R_to_Z a = Some n -> IZR n = a.
Proof.
  unfold R_to_Z. destruct (Req_dec_T (IZR (Int_part a)) a) as [E|]; [|discriminate].
  intros [= <-]. exact E.
Qed.

Lemma span_columns_range (mn sz : Vec3 R) (x0 x1 : R) (i : Z) :
  i ∈ span_columns mn sz x0 x1 -> (0 <= i <= 31)%Z.
Proof.
  unfold span_columns.
  cbn [num_of_Z num_sub num_mul num_div Math_floor Math_max Math_min num_to_Z
       real_number].
  change (IZR GRID_SIZE) with 32.
  destruct (R_to_Z (Rmax _ _)) as [a|] eqn:Ea; [|intros H; inversion H].
  destruct (R_to_Z (Rmin _ _)) as [b|] eqn:Eb; [|intros H; inversion H].
  apply R_to_Z_Some in Ea, Eb.
  intros H. apply elem_of_seqZ in H.
  assert (Ha : 0 <= IZR a) by (rewrite Ea; apply Rmax_l).
  assert (Hb : IZR b <= IZR 31).
  { rewrite Eb. etransitivity; [apply Rmin_l|]. lra. }
  apply le_IZR in Ha, Hb. lia.
Qed.

Lemma written_in_column (job : VoxelJob R) (iy iz : nat) (deduped : list R)
    (c : nat) :
  written c (scanline_writes job iy iz deduped) ->
  exists i : nat, (i < 32)%nat /\ c = (i * 32 * 32 + iy * 32 + iz)%nat.
Proof.
  intros (k & Hin & Hk & E). unfold scanline_writes in Hin.
  apply list_elem_of_bind in Hin as (h & Hin & _).
  unfold pair_writes in Hin.
  destruct (_ !! (2 * h)%nat) as [x0|]; [|inversion Hin].
  destruct (_ !! (2 * h + 1)%nat) as [x1|]; [|inversion Hin].
  apply list_elem_of_fmap in Hin as (i & -> & Hi).
  apply span_columns_range in Hi.
  exists (Z.to_nat i). split; [lia|].
  rewrite <- E. unfold cell_index. change GRID_SIZE with 32%Z. lia.
Qed.

(** One scanline writes only into its own column of the grid: a cell that
    is not [(ix, iy, iz)] for some [0 <= ix <= 31] keeps its value, so the
    clamps of the marking loop keep every write in range (real
    arithmetic). *)
Theorem scanline_stays_in_column (job : VoxelJob R) (iy iz : nat)
    (voxels : list Z) (c : nat) :
  (forall i : nat, (i < 32)%nat -> c <> (i * 32 * 32 + iy * 32 + iz)%nat) ->
  voxelize_scanline job iy iz voxels !! c = voxels !! c.
Proof.
  intros Hc. rewrite voxelize_scanline_unfold. apply writes_elsewhere.
  intros Hw. apply written_in_column in Hw as (i & Hi & E).
  exact (Hc i Hi E).
Qed.

Lemma scanline_stays_in_column_witness :
  (forall i : nat, (i < 32)%nat -> 5%nat <> (i * 32 * 32 + 0 * 32 + 0)%nat)
  /\ voxelize_scanline
       {| job_geo := tri_geo; job_min := Vector3 0 0 0;
          job_size := Vector3 10 10 10; job_iy := 0 |} 0 0 [0; 0; 0; 0; 0; 0]%Z
       !! 5%nat = Some 0%Z.
Proof.
  assert (H : forall i : nat, (i < 32)%nat -> 5%nat <> (i * 32 * 32 + 0 * 32 + 0)%nat)
    by (intros i _; lia).
  split; [exact H|].
  exact (scanline_stays_in_column _ 0 0 [0; 0; 0; 0; 0; 0]%Z 5 H).
Defined.

End ScanlineColumn.

(** ** The cache and a load that runs alone *)

Section CacheFacts.

Context {num : Type} {JSN : JSNumber num}.

Lemma shuffle_from_draws (rnd : Random num) (i k : nat) (cache : list Cell) :
  (shuffle_from rnd i k cache).2 = (k + i)%nat.
Proof.
  revert k cache. induction i as [|i IH]; intros k cache; cbn [shuffle_from].
  - cbn. lia.
  - rewrite IH. lia.
Qed.

(** The Fisher-Yates loop rearranges the cache (nothing is lost or
    duplicated, whatever [Math.random] returns), calls [Math.random] once
    for every entry but one, and leaves a cache of at most one entry as it
    is without drawing. *)
Theorem shuffle_rearranges (rnd : Random num) (k : nat) (cache : list Cell) :
  Permutation (shuffle rnd k cache).1 cache
  /\ (shuffle rnd k cache).2 = (k + (List.length cache - 1))%nat
  /\ ((List.length cache <= 1)%nat -> shuffle rnd k cache = (cache, k)).
Proof.
  split; [apply shuffle_perm|]. split; [apply shuffle_from_draws|].
  intros H. unfold shuffle.
  replace (List.length cache - 1)%nat with 0%nat by lia. reflexivity.
Qed.

Lemma cell_eta (c : Cell) : {| ix := c.(ix); iy := c.(iy); iz := c.(iz) |} = c.
Proof. destruct c; reflexivity. Qed.

Lemma inside_cells_elem (voxels : list Z) (c : Cell) :
  c ∈ inside_cells voxels
  <-> (c.(ix) < 32)%nat /\ (c.(iy) < 32)%nat /\ (c.(iz) < 32)%nat
      /\ exists b, voxels !! (c.(ix) * 32 * 32 + c.(iy) * 32 + c.(iz))%nat = Some b
                   /\ b <> 0%Z.
Proof.
  unfold inside_cells. change (Z.to_nat GRID_SIZE) with 32%nat.
  rewrite list_elem_of_bind. split.
  - intros (i & Hin & Hi). apply list_elem_of_bind in Hin as (j & Hin & Hj).
    apply list_elem_of_bind in Hin as (k & Hin & Hk).
    apply elem_of_seq in Hi, Hj, Hk.
    destruct (voxels !! _) as [b|] eqn:E; [|inversion Hin].
    destruct (Z.eqb_spec b 0); [inversion Hin|].
    apply list_elem_of_singleton in Hin. subst c. cbn [ix iy iz].
    split; [lia|]. split; [lia|]. split; [lia|]. exists b. auto.
  - intros (Hi & Hj & Hk & b & E & Hb).
    exists c.(ix). split; [|apply elem_of_seq; lia].
    apply list_elem_of_bind. exists c.(iy). split; [|apply elem_of_seq; lia].
    apply list_elem_of_bind. exists c.(iz). split; [|apply elem_of_seq; lia].
    rewrite E. destruct (Z.eqb_spec b 0); [contradiction|].
    rewrite cell_eta. apply list_elem_of_here.
Qed.

(** The cache-building loops list every cell of the grid with a non-zero
    byte, and each such cell once. *)
Theorem inside_cells_spec (voxels : list Z) :
  NoDup (inside_cells voxels)
  /\ forall c : Cell,
       c ∈ inside_cells voxels
       <-> (c.(ix) < 32)%nat /\ (c.(iy) < 32)%nat /\ (c.(iz) < 32)%nat
           /\ exists b, voxels !! (c.(ix) * 32 * 32 + c.(iy) * 32 + c.(iz))%nat
                          = Some b /\ b <> 0%Z.
Proof.
  split; [|apply inside_cells_elem].
  unfold inside_cells.
  apply NoDup_bind; [| |apply NoDup_seq].
  { intros i1 i2 c _ _ H1 H2.
    apply list_elem_of_bind in H1 as (j1 & H1 & _).
    apply list_elem_of_bind in H1 as (k1 & H1 & _).
    apply list_elem_of_bind in H2 as (j2 & H2 & _).
    apply list_elem_of_bind in H2 as (k2 & H2 & _).
    destruct (voxels !! _) as [b1|] in H1; [|inversion H1].
    destruct (b1 =? 0)%Z in H1; [inversion H1|].
    destruct (voxels !! _) as [b2|] in H2; [|inversion H2].
    destruct (b2 =? 0)%Z in H2; [inversion H2|].
    apply list_elem_of_singleton in H1, H2. subst c. congruence. }
  intros i _. apply NoDup_bind; [| |apply NoDup_seq].
  { intros j1 j2 c _ _ H1 H2.
    apply list_elem_of_bind in H1 as (k1 & H1 & _).
    apply list_elem_of_bind in H2 as (k2 & H2 & _).
    destruct (voxels !! _) as [b1|] in H1; [|inversion H1].
    destruct (b1 =? 0)%Z in H1; [inversion H1|].
    destruct (voxels !! _) as [b2|] in H2; [|inversion H2].
    destruct (b2 =? 0)%Z in H2; [inversion H2|].
    apply list_elem_of_singleton in H1, H2. subst c. congruence. }
  intros j _. apply NoDup_bind; [| |apply NoDup_seq].
  { intros k1 k2 c _ _ H1 H2.
    destruct (voxels !! _) as [b1|] in H1; [|inversion H1].
    destruct (b1 =? 0)%Z in H1; [inversion H1|].
    destruct (voxels !! _) as [b2|] in H2; [|inversion H2].
    destruct (b2 =? 0)%Z in H2; [inversion H2|].
    apply list_elem_of_singleton in H1, H2. subst c. congruence. }
  intros k _. destruct (voxels !! _) as [b|]; [|constructor].
  destruct (b =? 0)%Z; [constructor|]. apply NoDup_singleton.
Qed.

End CacheFacts.

Section LoadAlone.

Context {num : Type} {JSN : JSNumber num}.

Lemma voxel_write_binary (voxels : list Z) (k : Z) :
  binary_grid voxels -> binary_grid (voxel_write voxels k).
Proof.
  intros H. unfold voxel_write. destruct (0 <=? k)%Z; [|exact H].
  apply Forall_insert; [exact H|]. right. reflexivity.
Qed.

Lemma writes_binary (voxels : list Z) (ks : list Z) :
  binary_grid voxels -> binary_grid (foldl voxel_write voxels ks).
Proof.
  revert voxels. induction ks as [|k ks IH]; intros voxels H; [exact H|].
  cbn [foldl]. apply IH, voxel_write_binary, H.
Qed.

Lemma row_binary (job : VoxelJob num) (voxels : list Z) (iy : nat) :
  binary_grid voxels -> binary_grid (voxelize_row job voxels iy).
Proof.
  unfold voxelize_row. generalize (seq 0 (Z.to_nat GRID_SIZE)) as zs.
  intros zs. revert voxels. induction zs as [|iz zs IH]; intros voxels H; [exact H|].
  cbn [foldl]. apply IH. rewrite voxelize_scanline_unfold.
  apply writes_binary, H.
Qed.

Lemma rows_binary (job : VoxelJob num) (voxels : list Z) (rows : list nat) :
  binary_grid voxels -> binary_grid (foldl (voxelize_row job) voxels rows).
Proof.
  revert voxels. induction rows as [|iy rows IH]; intros voxels H; [exact H|].
  cbn [foldl]. apply IH, row_binary, H.
Qed.

Lemma voxel_grid_binary (job : VoxelJob num) :
  List.length (voxel_grid job) = (32 * 32 * 32)%nat /\ binary_grid (voxel_grid job).
Proof.
  unfold voxel_grid. split.
  - destruct (foldl_grows (voxelize_row job) (seq 0 (Z.to_nat GRID_SIZE))
               (replicate (Z.to_nat (GRID_SIZE * GRID_SIZE * GRID_SIZE)) 0%Z))
      as [Hlen _].
    { intros v iy. apply row_grows. }
    rewrite Hlen, length_replicate. reflexivity.
  - apply rows_binary. apply Forall_replicate. left. reflexivity.
Qed.

(** The rows a job marks do not depend on the row it was resumed at. *)
Lemma voxelize_row_job (geo : BufferGeometry num) (mn sz : Vec3 num) (a b : nat) :
  voxelize_row {| job_geo := geo; job_min := mn; job_size := sz; job_iy := a |}
  = voxelize_row {| job_geo := geo; job_min := mn; job_size := sz; job_iy := b |}.
Proof.
  unfold voxelize_row, voxelize_scanline, rayOX_of.
  cbn [job_geo job_min job_size]. reflexivity.
Qed.

(** A job resumed at row [4 m] marks the four rows of its chunk and awaits
    again at row [4 m + 4]; one resumed at row 28 marks the last four rows
    and ends. *)
Lemma resume_chunk (rnd : Random num) (geo : BufferGeometry num) (mn sz : Vec3 num)
    (m : nat) (this : STLLayout num) (k : nat) :
  (m < 8)%nat ->
  let job := {| job_geo := geo; job_min := mn; job_size := sz; job_iy := 4 * m |} in
  let voxels := foldl (voxelize_row job) this.(_voxels) (seq (4 * m) 4) in
  voxelize_resume rnd job this k =
    if (m <? 7)%nat
    then (set_grid this this.(_bounds) voxels this.(_insideCache), k,
          AwaitTimer {| job_geo := geo; job_min := mn; job_size := sz;
                        job_iy := 4 * m + 4 |})
    else let '(cache, k') :=
           shuffle rnd k (this.(_insideCache) ++ inside_cells voxels) in
         let this' := set_grid this this.(_bounds) voxels cache in
         (set_loading this' true this'.(_rafId), k', Completed).
Proof.
  intros Hm.
  do 8 (destruct m as [|m]; [reflexivity|]). lia.
Qed.

Lemma set_grid_same (this : STLLayout num) :
  set_grid this this.(_bounds) this.(_voxels) this.(_insideCache) = this.
Proof. destruct this; reflexivity. Qed.

Lemma run_alone_app (rnd : Random num) (a b : nat) (task : LoadTask num)
    (this : STLLayout num) (k : nat) :
  run_alone rnd (a + b) task this k
  = let '(this', k', task') := run_alone rnd a task this k in
    run_alone rnd b task' this' k'.
Proof.
  revert task this k. induction a as [|a IH]; intros task this k; [reflexivity|].
  cbn [Nat.add run_alone].
  destruct (resume rnd task this k) as [[this' k'] task']. apply IH.
Qed.

Lemma run_alone_completed (rnd : Random num) (t : nat) (this : STLLayout num)
    (k : nat) :
  run_alone rnd t Completed this k = (this, k, Completed).
Proof. induction t as [|t IH]; [reflexivity | exact IH]. Qed.

(** [t] turns given to a job waiting at row [4 m], when it has more than
    [4 t] rows left: the [4 t] rows are marked and the job waits at row
    [4 (m + t)]. *)
Lemma run_chunks (rnd : Random num) (geo : BufferGeometry num) (mn sz : Vec3 num)
    (t : nat) :
  forall (m : nat) (this : STLLayout num) (k : nat),
  (m + t <= 7)%nat ->
  run_alone rnd t
    (AwaitTimer {| job_geo := geo; job_min := mn; job_size := sz; job_iy := 4 * m |})
    this k
  = (set_grid this this.(_bounds)
       (foldl (voxelize_row {| job_geo := geo; job_min := mn; job_size := sz;
                               job_iy := 0 |})
              this.(_voxels) (seq (4 * m) (4 * t)))
       this.(_insideCache), k,
     AwaitTimer {| job_geo := geo; job_min := mn; job_size := sz;
                   job_iy := 4 * (m + t) |}).
Proof.
  induction t as [|t IH]; intros m this k Hm.
  - cbn [run_alone]. change (4 * 0)%nat with 0%nat. cbn [seq foldl].
    rewrite set_grid_same, Nat.add_0_r. reflexivity.
  - cbn [run_alone resume]. rewrite resume_chunk by lia.
    destruct (Nat.ltb_spec m 7) as [_|]; [|lia].
    replace (4 * m + 4)%nat with (4 * S m)%nat by lia.
    rewrite IH by lia.
    rewrite (voxelize_row_job geo mn sz (4 * m) 0).
    cbn [_bounds _voxels _insideCache set_grid].
    replace (seq (4 * S m) (4 * t)) with (seq (4 * m + 4) (4 * t))
      by (f_equal; lia).
    rewrite <- foldl_app, <- seq_app.
    replace (4 + 4 * t)%nat with (4 * S t)%nat by lia.
    replace (S m + t)%nat with (m + S t)%nat by lia.
    reflexivity.
Qed.

(** A load that runs alone.  After [loadFile] is called the task is resumed
    nine times: once when the file's bytes arrive, and once for each of the
    eight chunks of four rows.  Until the ninth turn [isLoaded] stays false
    and [Math.random] is not called; with the ninth the task ends,
    [isLoaded] is set, the bounds are those of the normalised geometry, the
    grid is the one marked by the 32 rows on an all-zero grid, and the cache
    is a rearrangement of that grid's non-zero cells, shuffled with one draw
    for each cell but one.  The animation loop is left stopped, and the
    neurons and the output positions of the earlier mesh are kept. *)
Theorem load_alone_completes (rnd : Random num) (this : STLLayout num)
    (k : nat) (geo geo' : BufferGeometry num) (b : Bounds num) :
  normalizeGeometry geo = Some (geo', b) ->
  let grid := voxel_grid (job_of geo' b) in
  let run := fun turns =>
    run_alone rnd turns (loadFile this geo).2 (loadFile this geo).1 k in
  (forall turns, (turns < 9)%nat ->
     (run turns).1.1.(isLoaded) = false /\ (run turns).2 <> Completed
     /\ (run turns).1.2 = k)
  /\ (forall more, run (9 + more)%nat = run 9%nat)
  /\ (run 9%nat).2 = Completed
  /\ (run 9%nat).1.1.(isLoaded) = true
  /\ (run 9%nat).1.1.(_bounds) = b
  /\ (run 9%nat).1.1.(_voxels) = grid
  /\ Permutation (run 9%nat).1.1.(_insideCache) (inside_cells grid)
  /\ (run 9%nat).1.2 = (k + (List.length (inside_cells grid) - 1))%nat
  /\ (run 9%nat).1.1.(_rafId) = None
  /\ (run 9%nat).1.1.(_neurons) = this.(_neurons)
  /\ (run 9%nat).1.1.(_positions) = this.(_positions).
Proof.
  intros Hn grid run.
  set (this0 := set_loading (stop this) false None).
  set (this1 := set_grid this0 b
                  (replicate (Z.to_nat (GRID_SIZE * GRID_SIZE * GRID_SIZE)) 0%Z) []).
  assert (Hstep : forall t,
            run (S t) = run_alone rnd t
                          (AwaitTimer {| job_geo := geo'; job_min := b.(min);
                                         job_size := b.(size); job_iy := 4 * 0 |})
                          this1 k).
  { intros t. unfold run. cbn [run_alone loadFile fst snd resume]. rewrite Hn.
    reflexivity. }
  assert (Hpart : forall t, (t <= 7)%nat ->
            run (S t)
            = (set_grid this1 b
                 (foldl (voxelize_row (job_of geo' b)) this1.(_voxels)
                        (seq 0 (4 * t))) [],
               k,
               AwaitTimer {| job_geo := geo'; job_min := b.(min);
                             job_size := b.(size); job_iy := 4 * t |})).
  { intros t Ht. rewrite Hstep, run_chunks by lia. reflexivity. }
  assert (H9 : run 9%nat
               = let '(cache, k') := shuffle rnd k (inside_cells grid) in
                 (set_loading (set_grid this1 b grid cache) true None, k',
                  Completed)).
  { change 9%nat with (8 + 1)%nat. unfold run. rewrite run_alone_app.
    fold (run 8%nat). rewrite (Hpart 7%nat) by lia.
    cbn [run_alone resume]. rewrite (resume_chunk rnd geo' _ _ 7) by lia.
    cbn [Nat.ltb Nat.leb _bounds _voxels _insideCache set_grid app _rafId].
    rewrite (voxelize_row_job geo' (min b) (size b) (4 * 7) 0).
    fold (job_of geo' b). rewrite <- foldl_app, <- seq_app.
    change (foldl (voxelize_row (job_of geo' b)) (_voxels this1)
              (seq 0 (4 * 7 + 4))) with grid.
    destruct (shuffle rnd k (inside_cells grid)) as [cache k']. reflexivity. }
  split.
  { intros [|t] Ht.
    - unfold run. cbn. split; [reflexivity|]. split; [discriminate|reflexivity].
    - rewrite (Hpart t) by lia. cbn. split; [reflexivity|].
      split; [discriminate|reflexivity]. }
  split.
  { intros more. unfold run at 1. rewrite run_alone_app. fold (run 9%nat).
    rewrite H9. destruct (shuffle rnd k (inside_cells grid)) as [cache k'].
    apply run_alone_completed. }
  rewrite H9.
  pose proof (shuffle_perm rnd k (inside_cells grid)) as Hp.
  assert (Hk : (shuffle rnd k (inside_cells grid)).2
               = (k + (List.length (inside_cells grid) - 1))%nat)
    by apply shuffle_from_draws.
  destruct (shuffle rnd k (inside_cells grid)) as [cache k'].
  cbn in Hp, Hk. cbn.
  repeat (split; [reflexivity|]).
  split; [exact Hp|]. split; [exact Hk|]. repeat split.
Qed.

End LoadAlone.

Module LoadWitness.

Import Binary64 Block.

Lemma load_alone_completes_witness :
  exists (geo' : BufferGeometry float) (b : Bounds float),
    normalizeGeometry slab = Some (geo', b)
    /\ (run_alone half_draws 9 (loadFile (block []) slab).2
          (loadFile (block []) slab).1 0).1.1.(_bounds) = b.
Proof.
  destruct (normalizeGeometry slab) as [[geo' b]|] eqn:E;
    [|vm_compute in E; discriminate E].
  exists geo', b. split; [reflexivity|].
  exact (proj1 (proj2 (proj2 (proj2 (proj2
           (load_alone_completes half_draws (block []) 0 slab geo' b E)))))).
Defined.

End LoadWitness.

Section LoadedCache.

Context {num : Type} {JSN : JSNumber num}.

(** The grid a load builds has [32^3] bytes, each 0 or 1, and the cells its
    cache is built from are exactly the cells of the grid whose byte is 1:
    what the sampler and the interior test rely on. *)
Theorem loaded_grid_cells (job : VoxelJob num) :
  let grid := voxel_grid job in
  List.length grid = (32 * 32 * 32)%nat
  /\ binary_grid grid
  /\ forall c : Cell, c ∈ inside_cells grid <-> RealNotions.cell_ok grid c.
Proof.
  intros grid. destruct (voxel_grid_binary job) as [Hlen Hbin].
  split; [exact Hlen|]. split; [exact Hbin|].
  intros c. rewrite inside_cells_elem. unfold RealNotions.cell_ok.
  split.
  - intros (Hx & Hy & Hz & v & Hv & Hne).
    split; [exact Hx|]. split; [exact Hy|]. split; [exact Hz|].
    fold grid in Hbin. unfold binary_grid in Hbin. rewrite Forall_lookup in Hbin.
    destruct (Hbin _ _ Hv) as [->| ->]; [contradiction | exact Hv].
  - intros (Hx & Hy & Hz & Hv).
    split; [exact Hx|]. split; [exact Hy|]. split; [exact Hz|].
    exists 1%Z. split; [exact Hv | discriminate].
Qed.

End LoadedCache.

(** ** Seeding the neurons *)

Section SeedingFacts.

Context {num : Type} {JSN : JSNumber num}.
Local Open Scope js_scope.

Lemma seed_neuron_shape (this : STLLayout num) (rnd : Random num)
    (target : Vec3 num) (l i k : nat) (n : Neuron num) (k' : nat) :
  seed_neuron this rnd target l i k = Some (n, k') ->
  _findInsidePointNear this rnd k target 40 = Some n.(pos)
  /\ fresh n /\ n.(layer) = l /\ n.(idx) = i
  /\ k' = (sampler_draws this rnd k target 40 + 3)%nat.
Proof.
  unfold seed_neuron.
  destruct (_findInsidePointNear this rnd k target 40) as [p|]; [|discriminate].
  cbn [mbind option_bind]. intros [= <- <-]. cbn [pos prev force layer idx].
  repeat split.
Qed.

Lemma seed_layer_shape (this : STLLayout num) (rnd : Random num)
    (target : Vec3 num) (l n : nat) :
  forall (i k : nat) (row : list (Neuron num)) (k' : nat),
  seed_layer this rnd target l n i k = Some (row, k') ->
  labels row = map (pair l) (seq i n) /\ Forall fresh row.
Proof.
  induction n as [|n IH]; intros i k row k'; cbn [seed_layer].
  - intros [= <- <-]. split; [reflexivity | constructor].
  - destruct (seed_neuron this rnd target l i k) as [[nr k1]|] eqn:E1;
      [|discriminate].
    cbn [mbind option_bind].
    destruct (seed_layer this rnd target l n (S i) k1) as [[rest k2]|] eqn:E2;
      [|discriminate].
    cbn [mbind option_bind]. intros [= <- <-].
    apply seed_neuron_shape in E1 as (_ & Hf & Hl & Hi & _).
    destruct (IH _ _ _ _ E2) as [IHl IHf].
    split; [|constructor; assumption].
    unfold labels in *. cbn [map seq]. rewrite IHl, Hl, Hi. reflexivity.
Qed.

Lemma seed_layers_shape (this : STLLayout num) (rnd : Random num)
    (layers : list (Vec3 num * nat)) :
  forall (l k : nat) (rows : list (list (Neuron num))) (k' : nat),
  seed_layers this rnd layers l k = Some (rows, k') ->
  map List.length rows = map snd layers
  /\ labels (concat rows) = layer_labels l (map snd layers)
  /\ Forall fresh (concat rows).
Proof.
  induction layers as [|[target n] layers IH]; intros l k rows k';
    cbn [seed_layers].
  - intros [= <- <-]. split; [reflexivity|]. split; [reflexivity | constructor].
  - destruct (seed_layer this rnd target l n 0 k) as [[row k1]|] eqn:E1;
      [|discriminate].
    cbn [mbind option_bind].
    destruct (seed_layers this rnd layers (S l) k1) as [[rest k2]|] eqn:E2;
      [|discriminate].
    cbn [mbind option_bind]. intros [= <- <-].
    destruct (seed_layer_shape _ _ _ _ _ _ _ _ _ E1) as [Hl Hf].
    destruct (IH _ _ _ _ E2) as (IHn & IHl & IHf).
    cbn [map concat snd layer_labels].
    split; [|split].
    + rewrite IHn. f_equal.
      rewrite <- (length_map (fun n => (n.(layer), n.(idx)))).
      fold (labels row). rewrite Hl, length_map, length_seq. reflexivity.
    + unfold labels in *. rewrite map_app, Hl, IHl. reflexivity.
    + apply Forall_app. split; assumption.
Qed.

Lemma concat_map_map {A B : Type} (f : A -> B) (ls : list (list A)) :
  concat (map (map f) ls) = map f (concat ls).
Proof.
  induction ls as [|l ls IH]; [reflexivity|].
  cbn [map concat]. rewrite map_app, IH. reflexivity.
Qed.

(** [initNeurons] before a load has completed, or with an empty cache,
    does nothing.  Otherwise, when it returns: the grid, the cache, the
    bounds and the coefficients are untouched; there is one target per
    layer; [_positions] has one row per layer, of the layer's size, holding
    the neurons' positions in order; the neurons are labelled layer by
    layer, [0 .. size - 1] within each; and every neuron starts with
    [prev = pos] and no force. *)
Theorem initNeurons_shape (this : STLLayout num) (rnd : Random num) (k : nat)
    (network : Network) (this' : STLLayout num) (k' : nat) :
  initNeurons this rnd k network = Some (this', k') ->
  (this.(isLoaded) = false \/ this.(_insideCache) = [] ->
   this' = this /\ k' = k)
  /\ (this.(isLoaded) = true -> this.(_insideCache) <> [] ->
      (this'.(_voxels) = this.(_voxels)
       /\ this'.(_insideCache) = this.(_insideCache)
       /\ this'.(_bounds) = this.(_bounds)
       /\ this'.(isLoaded) = true /\ this'.(_rafId) = this.(_rafId)
       /\ this'.(energy) = this.(energy))
      /\ this'.(_layerTargets)
         = map (layer_target this (numLayers network))
               (seq 0 (numLayers network))
      /\ map List.length (getPositions this') = network.(layerConfigs)
      /\ concat (getPositions this') = map pos this'.(_neurons)
      /\ labels this'.(_neurons) = layer_labels 0 network.(layerConfigs)
      /\ Forall fresh this'.(_neurons)).
Proof.
  unfold initNeurons. intros H. split.
  - intros Hg.
    assert (E : negb this.(isLoaded)
                || (List.length this.(_insideCache) =? 0)%nat = true).
    { destruct Hg as [-> | ->]; [reflexivity | apply orb_true_r]. }
    rewrite E in H. injection H as <- <-. split; reflexivity.
  - intros Hl Hc.
    assert (E : negb this.(isLoaded)
                || (List.length this.(_insideCache) =? 0)%nat = false).
    { rewrite Hl. destruct (_insideCache this); [congruence | reflexivity]. }
    rewrite E in H.
    destruct (seed_layers this rnd _ 0 k) as [[rows k1]|] eqn:Es; [|discriminate].
    cbn [mbind option_bind] in H. injection H as <- <-.
    apply seed_layers_shape in Es as (Hn & Hlab & Hf).
    assert (Hsnd : map snd (zip (map (layer_target this (numLayers network))
                                     (seq 0 (numLayers network)))
                                network.(layerConfigs))
                   = network.(layerConfigs)).
    { apply snd_zip. rewrite length_map, length_seq. reflexivity. }
    rewrite Hsnd in Hn, Hlab.
    unfold getPositions.
    cbn [set_seeded _voxels _insideCache _bounds isLoaded _rafId energy
         _layerTargets _positions _neurons].
    split; [repeat split; exact Hl|].
    split; [reflexivity|].
    split; [rewrite <- Hn, map_map; apply map_ext; intros row; apply length_map|].
    split; [apply concat_map_map|].
    split; assumption.
Qed.

End SeedingFacts.

Module SeedingWitness.

Import Binary64 Block.

Lemma initNeurons_shape_witness :
  exists (this' : STLLayout float) (k' : nat),
    initNeurons (block []) half_draws 0 {| layerConfigs := [2; 1]%nat |}
      = Some (this', k')
    /\ labels this'.(_neurons) = [(0, 0); (0, 1); (1, 0)]%nat.
Proof.
  assert (Hs : match initNeurons (block []) half_draws 0
                       {| layerConfigs := [2; 1]%nat |} with
               | Some _ => true
               | None => false
               end = true) by (vm_compute; reflexivity).
  destruct (initNeurons (block []) half_draws 0 {| layerConfigs := [2; 1]%nat |})
    as [[this' k']|] eqn:E; [|discriminate Hs].
  exists this', k'. split; [reflexivity|].
  destruct (initNeurons_shape _ _ _ _ _ _ E) as [_ H].
  assert (Hc : (block []).(_insideCache) <> []) by discriminate.
  exact (proj1 (proj2 (proj2 (proj2 (proj2 (H eq_refl Hc)))))).
Defined.

End SeedingWitness.

Module SeedingIdeal.

Import Ideal IdealFacts RealNotions.
Local Open Scope R_scope.

Lemma sampler_interior (this : STLLayout R) (rnd : Random R) (k : nat)
    (target : Vec3 R) (maxTries : nat) :
  cache_wf this -> this.(_insideCache) <> [] -> unit_random rnd ->
  exists p, _findInsidePointNear this rnd k target maxTries = Some p
            /\ _isInside this p = true.
Proof.
  intros Hwf Hne Hrnd. unfold _findInsidePointNear.
  destruct (sample_tries this rnd target _ maxTries k) as [[q|] k1] eqn:E.
  { exists q. split; [reflexivity | exact (Sampler.sample_tries_inside _ _ _ _ _ _ _ _ E)]. }
  destruct (Sampler.sample_cache_inside this rnd target
              (Nat.min 60 (List.length this.(_insideCache))) k1 None None
              Hwf Hne Hrnd) as ([q|] & -> & Hq); [discriminate| |].
  { exists q. split; [reflexivity | apply Hq; reflexivity]. }
  destruct Hwf as (Hx & Hy & Hz & _ & Hcells).
  destruct (_insideCache this) as [|c cache]; [congruence|].
  inversion Hcells as [|? ? Hc _]; subst.
  eexists. split; [reflexivity|].
  apply Sampler.cell_center_inside; assumption.
Qed.

Lemma seed_neuron_interior (this : STLLayout R) (rnd : Random R)
    (target : Vec3 R) (l i k : nat) :
  cache_wf this -> this.(_insideCache) <> [] -> unit_random rnd ->
  exists n k', seed_neuron this rnd target l i k = Some (n, k')
               /\ _isInside this n.(pos) = true /\ slow n.
Proof.
  intros Hwf Hne Hrnd.
  destruct (sampler_interior this rnd k target 40 Hwf Hne Hrnd)
    as (p & Hp & Hin).
  unfold seed_neuron. rewrite Hp. cbn [mbind option_bind].
  eexists _, _. split; [reflexivity|]. cbn [pos vel]. split; [exact Hin|].
  unfold slow, dec. cbn [vel x y z]. real_ops.
  pose proof (Hrnd (sampler_draws this rnd k target 40)) as H0.
  pose proof (Hrnd (sampler_draws this rnd k target 40 + 1)%nat) as H1.
  pose proof (Hrnd (sampler_draws this rnd k target 40 + 2)%nat) as H2.
  repeat split; lra.
Qed.

Lemma seed_layer_interior (this : STLLayout R) (rnd : Random R)
    (target : Vec3 R) (l n : nat) :
  cache_wf this -> this.(_insideCache) <> [] -> unit_random rnd ->
  forall i k, exists row k',
    seed_layer this rnd target l n i k = Some (row, k')
    /\ Forall (fun m => _isInside this m.(pos) = true /\ slow m) row.
Proof.
  intros Hwf Hne Hrnd. induction n as [|n IH]; intros i k; cbn [seed_layer].
  - exists [], k. split; [reflexivity | constructor].
  - destruct (seed_neuron_interior this rnd target l i k Hwf Hne Hrnd)
      as (m & k1 & -> & Hm).
    cbn [mbind option_bind].
    destruct (IH (S i) k1) as (rest & k2 & -> & Hrest).
    cbn [mbind option_bind].
    exists (m :: rest), k2. split; [reflexivity | constructor; assumption].
Qed.

Lemma seed_layers_interior (this : STLLayout R) (rnd : Random R)
    (layers : list (Vec3 R * nat)) :
  cache_wf this -> this.(_insideCache) <> [] -> unit_random rnd ->
  forall l k, exists rows k',
    seed_layers this rnd layers l k = Some (rows, k')
    /\ Forall (fun m => _isInside this m.(pos) = true /\ slow m) (concat rows).
Proof.
  intros Hwf Hne Hrnd.
  induction layers as [|[target n] layers IH]; intros l k; cbn [seed_layers].
  - exists [], k. split; [reflexivity | constructor].
  - destruct (seed_layer_interior this rnd target l n Hwf Hne Hrnd 0%nat k)
      as (row & k1 & -> & Hrow).
    cbn [mbind option_bind].
    destruct (IH (S l) k1) as (rows & k2 & -> & Hrows).
    cbn [mbind option_bind].
    exists (row :: rows), k2. split; [reflexivity|].
    cbn [concat]. apply Forall_app. split; assumption.
Qed.

Lemma frames_interior (this : STLLayout R) (handles : list nat) :
  all_interior this -> all_interior (foldl frame this handles).
Proof.
  revert this. induction handles as [|h hs IH]; intros this H; [exact H|].
  cbn [foldl]. apply IH. unfold frame. apply step_interior. exact H.
Qed.

Lemma initNeurons_seeds (this : STLLayout R) (rnd : Random R) (k : nat)
    (network : Network) :
  cache_wf this -> this.(_insideCache) <> [] -> unit_random rnd ->
  this.(isLoaded) = true ->
  exists this' k',
    initNeurons this rnd k network = Some (this', k')
    /\ all_interior this' /\ Forall slow this'.(_neurons).
Proof.
  intros Hwf Hne Hrnd Hl. unfold initNeurons.
  assert (E : negb this.(isLoaded)
              || (List.length this.(_insideCache) =? 0)%nat = false).
  { rewrite Hl. destruct (_insideCache this); [congruence | reflexivity]. }
  rewrite E.
  destruct (seed_layers_interior this rnd
              (zip (map (layer_target this (numLayers network))
                        (seq 0 (numLayers network)))
                   network.(layerConfigs)) Hwf Hne Hrnd 0%nat k)
    as (rows & k' & -> & Hrows).
  cbn [mbind option_bind]. eexists _, _. split; [reflexivity|].
  cbn [set_seeded _neurons]. split.
  - unfold all_interior. cbn [set_seeded _neurons].
    eapply Forall_impl; [exact Hrows|].
    intros m [Hm _]. rewrite <- Hm. apply isInside_grid; reflexivity.
  - eapply Forall_impl; [exact Hrows|]. intros m [_ Hm]. exact Hm.
Qed.

(** In a loaded layout whose bounds have positive extent and whose cache
    holds interior cells of the grid, with [Math.random] answering in
    [[0, 1)]: [initNeurons] returns without a TypeError for every network,
    every neuron it places classifies as interior and has velocity
    components in [[-0.05, 0.05)]; and once the animation is started, every
    neuron still classifies as interior after any number of frames (real
    arithmetic). *)
Theorem initNeurons_interior (this : STLLayout R) (rnd : Random R) (k : nat)
    (network : Network) :
  cache_wf this -> this.(_insideCache) <> [] -> unit_random rnd ->
  this.(isLoaded) = true ->
  exists this' k',
    initNeurons this rnd k network = Some (this', k')
    /\ all_interior this'
    /\ Forall slow this'.(_neurons)
    /\ forall (handle : nat) (handles : list nat),
         all_interior (foldl frame (start this' handle) handles).
Proof.
  intros Hwf Hne Hrnd Hl.
  destruct (initNeurons_seeds this rnd k network Hwf Hne Hrnd Hl)
    as (this' & k' & Hi & Hin & Hslow).
  exists this', k'. split; [exact Hi|]. split; [exact Hin|].
  split; [exact Hslow|].
  intros handle handles. apply frames_interior.
  unfold start. destruct (_rafId this'); [exact Hin|].
  unfold all_interior in *. cbn [set_loading _neurons].
  eapply Forall_impl; [exact Hin|].
  intros m Hm. cbn beta in *. rewrite <- Hm. apply isInside_grid; reflexivity.
Qed.

Lemma initNeurons_interior_witness :
  (cache_wf real_block /\ real_block.(_insideCache) <> []
   /\ unit_random half_random /\ real_block.(isLoaded) = true)
  /\ exists this' k',
       initNeurons real_block half_random 0 {| layerConfigs := [2; 1]%nat |}
         = Some (this', k')
       /\ all_interior this'
       /\ Forall slow this'.(_neurons)
       /\ forall (handle : nat) (handles : list nat),
            all_interior (foldl frame (start this' handle) handles).
Proof.
  assert (H1 : real_block.(_insideCache) <> []) by discriminate.
  assert (H2 : unit_random half_random)
    by (intros k; unfold half_random; lra).
  split; [exact (conj Sampler.real_block_wf (conj H1 (conj H2 eq_refl)))|].
  exact (initNeurons_interior real_block half_random 0
           {| layerConfigs := [2; 1]%nat |} Sampler.real_block_wf H1 H2 eq_refl).
Defined.

End SeedingIdeal.

(** ** Where the layer targets are *)

Module LayerTargets.

Import Ideal IdealFacts RealNotions.
Local Open Scope R_scope.

Lemma component_set_same (a : Axis) (v : Vec3 R) (c : R) :
  component a (set_component a v c) = c.
Proof. destruct a; reflexivity. Qed.

Lemma component_set_other (a b : Axis) (v : Vec3 R) (c : R) :
  b <> a -> component b (set_component a v c) = component b v.
Proof. destruct a, b; intros H; try reflexivity; congruence. Qed.

Lemma principal_axis_longest (sz : Vec3 R) :
  component (principal_axis sz) sz = Rmax (Rmax sz.(x) sz.(y)) sz.(z).
Proof.
  unfold principal_axis. cbn [num_le real_number].
  destruct (Rleb (y sz) (x sz)) eqn:E1; destruct (Rleb (z sz) (x sz)) eqn:E2;
    cbn [andb]; try destruct (Rleb (z sz) (y sz)) eqn:E3;
    rewrite ?Rleb_spec, ?Rleb_nle in *; cbn [component];
    unfold Rmax; repeat destruct (Rle_dec _ _); lra.
Qed.

(** The fraction of the principal extent at which layer [l] of [n] sits. *)
Lemma layer_fraction (n l : nat) :
  (l < n)%nat ->
  0 <= (if (n =? 1)%nat then 1 / 2 else IZR (Z.of_nat l) / (IZR (Z.of_nat n) - 1)) <= 1.
Proof.
  intros Hl. destruct (Nat.eqb_spec n 1) as [->|Hn]; [lra|].
  assert (H1 : 1 <= IZR (Z.of_nat n) - 1).
  { assert (H : IZR 2 <= IZR (Z.of_nat n)) by (apply IZR_le; lia). lra. }
  assert (H2 : 0 <= IZR (Z.of_nat l)) by (apply IZR_le; lia).
  assert (H3 : IZR (Z.of_nat l) <= IZR (Z.of_nat n) - 1).
  { assert (H : IZR (Z.of_nat l) <= IZR (Z.of_nat n - 1)) by (apply IZR_le; lia).
    rewrite minus_IZR in H. exact H. }
  split.
  - apply Rmult_le_pos; [exact H2|]. apply Rlt_le, Rinv_0_lt_compat. lra.
  - apply (Rmult_le_reg_r (IZR (Z.of_nat n) - 1)); [lra|].
    unfold Rdiv. rewrite Rmult_assoc, Rinv_l by lra. lra.
Qed.

(** The layer targets lie on the line through the centre of the bounding
    box along its longest dimension (the principal axis): the other two
    coordinates are the centre's.  Along the axis, a single layer sits at
    the middle of the extent, and two or more layers are spread evenly from
    13% to 87% of it, so every target is within those two marks (real
    arithmetic). *)
Theorem layer_targets_spread (this : STLLayout R) (n l : nat) :
  let mn := this.(_bounds).(min) in
  let sz := this.(_bounds).(size) in
  let a := principal_axis sz in
  let centre := multiplyScalar (add mn this.(_bounds).(max)) (1 / 2) in
  let at_ := fun l => component a (layer_target this n l) in
  component a sz = Rmax (Rmax sz.(x) sz.(y)) sz.(z)
  /\ (forall b, b <> a ->
        component b (layer_target this n l) = component b centre)
  /\ ((l < n)%nat -> 0 <= component a sz ->
      component a mn + component a sz * (13 / 100) <= at_ l
      <= component a mn + component a sz * (87 / 100))
  /\ (n = 1%nat -> at_ 0%nat = component a mn + component a sz * (1 / 2))
  /\ ((1 < n)%nat ->
      at_ 0%nat = component a mn + component a sz * (13 / 100)
      /\ at_ (n - 1)%nat = component a mn + component a sz * (87 / 100)
      /\ at_ (S l) - at_ l
         = component a sz * (74 / 100) / (IZR (Z.of_nat n) - 1)).
Proof.
  intros mn sz a centre at_.
  assert (Hat : forall l, at_ l
            = component a mn
              + component a sz
                * ((if (n =? 1)%nat then 1 / 2
                    else IZR (Z.of_nat l) / (IZR (Z.of_nat n) - 1))
                   * (74 / 100) + 13 / 100)).
  { intros l0. unfold at_, layer_target. fold mn sz a.
    rewrite component_set_same.
    unfold dec. real_ops. destruct (n =? 1)%nat; reflexivity. }
  split; [apply principal_axis_longest|]. split.
  { intros b Hb. unfold layer_target. fold mn sz a.
    rewrite component_set_other by exact Hb.
    unfold centre, dec. real_ops. reflexivity. }
  split.
  { intros Hl Hsz. rewrite Hat. pose proof (layer_fraction n l Hl) as Ht.
    set (t := if (n =? 1)%nat then _ else _) in *.
    split; apply Rplus_le_compat_l, Rmult_le_compat_l; lra. }
  split.
  { intros ->. rewrite Hat. cbn [Nat.eqb]. lra. }
  intros Hn. rewrite !Hat.
  destruct (Nat.eqb_spec n 1) as [->|_]; [lia|].
  assert (H1 : 1 <= IZR (Z.of_nat n) - 1).
  { assert (H : IZR 2 <= IZR (Z.of_nat n)) by (apply IZR_le; lia). lra. }
  split; [|split].
  - cbn [Z.of_nat]. unfold Rdiv at 1. rewrite Rmult_0_l. lra.
  - replace (IZR (Z.of_nat (n - 1))) with (IZR (Z.of_nat n) - 1).
    + unfold Rdiv at 1. rewrite Rinv_r by lra. lra.
    + rewrite Nat2Z.inj_sub by lia. rewrite minus_IZR. reflexivity.
  - rewrite Nat2Z.inj_succ, succ_IZR. field. lra.
Qed.

End LayerTargets.

(** ** Bounds without extent: nothing is interior *)

Module FlatFacts.

Import Binary64 Block Flat.
Local Open Scope js_scope.

Lemma div_zero_non_finite (a s : float) :
  is_zero s = true -> is_finite (a / s) = false.
Proof.
  destruct s as [sg| | |]; try discriminate. intros _.
  destruct a as [|[]| |]; reflexivity.
Qed.

Lemma cell_flat (a m s : float) :
  is_zero s = true ->
  is_finite (Math_floor ((a - m) / s * #GRID_SIZE)) = false.
Proof.
  intros H.
  apply NonFinite.floor_non_finite, NonFinite.mul_non_finite, div_zero_non_finite, H.
Qed.

(** When the bounds have zero extent along an axis (a mesh lying in a
    plane normal to it), the division by the extent yields an infinity or
    NaN for every point, and [_isInside] answers false everywhere, also at
    the centres of cells whose byte is 1 (binary64). *)
Theorem isInside_flat_bounds (this : STLLayout float) (p : Vec3 float) :
  flat_bounds this.(_bounds) = true -> _isInside this p = false.
Proof.
  intros H. unfold _isInside.
  set (ix := Math_floor ((x p - _) / _ * _)).
  set (iy := Math_floor ((y p - _) / _ * _)).
  set (iz := Math_floor ((z p - _) / _ * _)).
  assert (Hc : is_finite ix = false \/ is_finite iy = false \/ is_finite iz = false).
  { unfold flat_bounds in H. apply orb_true_iff in H as [H|H];
      [apply orb_true_iff in H as [H|H]|].
    - left. apply cell_flat, H.
    - right; left. apply cell_flat, H.
    - right; right. apply cell_flat, H. }
  assert (Hx : ((ix <? #0) || (ix >=? #GRID_SIZE) = true) \/ ix = S754_nan
               \/ is_finite ix = true).
  { destruct (is_finite ix) eqn:E; [auto|].
    destruct (NonFinite.guard_non_finite ix E); auto. }
  assert (Hy : ((iy <? #0) || (iy >=? #GRID_SIZE) = true) \/ iy = S754_nan
               \/ is_finite iy = true).
  { destruct (is_finite iy) eqn:E; [auto|].
    destruct (NonFinite.guard_non_finite iy E); auto. }
  assert (Hz : ((iz <? #0) || (iz >=? #GRID_SIZE) = true) \/ iz = S754_nan
               \/ is_finite iz = true).
  { destruct (is_finite iz) eqn:E; [auto|].
    destruct (NonFinite.guard_non_finite iz E); auto. }
  assert (Hg : (ix <? #0) || (ix >=? #GRID_SIZE) || (iy <? #0) || (iy >=? #GRID_SIZE)
               || (iz <? #0) || (iz >=? #GRID_SIZE)
               = ((ix <? #0) || (ix >=? #GRID_SIZE))
                 || (((iy <? #0) || (iy >=? #GRID_SIZE))
                     || ((iz <? #0) || (iz >=? #GRID_SIZE)))).
  { destruct (ix <? #0), (ix >=? #GRID_SIZE), (iy <? #0), (iy >=? #GRID_SIZE),
      (iz <? #0), (iz >=? #GRID_SIZE); reflexivity. }
  rewrite Hg. clear Hg.
  destruct ((ix <? #0) || (ix >=? #GRID_SIZE)) eqn:Gx; [reflexivity|].
  destruct ((iy <? #0) || (iy >=? #GRID_SIZE)) eqn:Gy; [reflexivity|].
  destruct ((iz <? #0) || (iz >=? #GRID_SIZE)) eqn:Gz; [reflexivity|].
  cbn [orb].
  assert (E : ix * #GRID_SIZE * #GRID_SIZE + iy * #GRID_SIZE + iz = S754_nan).
  { destruct Hx as [Hx|[Hx|Hx]]; [discriminate| |].
    { rewrite Hx. reflexivity. }
    destruct Hy as [Hy|[Hy|Hy]]; [discriminate| |].
    { rewrite Hy, NonFinite.mul_nan_l, NonFinite.add_nan_r. reflexivity. }
    destruct Hz as [Hz|[Hz|Hz]]; [discriminate| |].
    { rewrite Hz. apply NonFinite.add_nan_r. }
    destruct Hc as [Hc|[Hc|Hc]]; congruence. }
  rewrite E. reflexivity.
Qed.

Lemma isInside_flat_bounds_witness :
  flat_bounds flat_block.(_bounds) = true
  /\ RealNotions.cell_ok flat_block.(_voxels) {| ix := 16; iy := 16; iz := 16 |}
  /\ _isInside flat_block (_cellToWorld flat_block 16 16 16) = false.
Proof.
  split; [reflexivity|]. split.
  - unfold RealNotions.cell_ok. cbn [ix iy iz].
    split; [lia|]. split; [lia|]. split; [lia|]. vm_compute. reflexivity.
  - exact (isInside_flat_bounds flat_block (_cellToWorld flat_block 16 16 16) eq_refl).
Defined.

End FlatFacts.

(** ** Forces and energy over the reals *)

Module ForcesIdeal.

Import Ideal IdealFacts RealNotions.
Local Open Scope R_scope.

Lemma neighbourhood_range (dx dy dz : Z) :
  (dx, dy, dz) ∈ neighbourhood ->
  (-2 <= dx <= 2)%Z /\ (-2 <= dy <= 2)%Z /\ (-2 <= dz <= 2)%Z.
Proof.
  unfold neighbourhood. intros H.
  apply list_elem_of_bind in H as (a & H & Ha).
  apply list_elem_of_bind in H as (b & H & Hb).
  apply list_elem_of_bind in H as (c & H & Hc).
  apply list_elem_of_singleton in H. injection H as -> -> ->.
  apply elem_of_seqZ in Ha, Hb, Hc. lia.
Qed.

Lemma boundary_cell_solid (this : STLLayout R) (p : Vec3 R) (i j k : Z)
    (f : Vec3 R) (d : Z * Z * Z) :
  solid_around this.(_voxels) i j k = true -> d ∈ neighbourhood ->
  boundary_cell this p (IZR i) (IZR j) (IZR k) f d = f.
Proof.
  intros Hs Hd. unfold solid_around in Hs. rewrite forallb_forall in Hs.
  assert (Hin : In d neighbourhood) by (apply list_elem_of_In; exact Hd).
  specialize (Hs d Hin). destruct d as [[dx dy] dz].
  unfold boundary_cell.
  destruct ((dx =? 0)%Z && (dy =? 0)%Z && (dz =? 0)%Z); [reflexivity|].
  cbn [orb] in Hs.
  apply andb_true_iff in Hs as [Hr Hv].
  repeat (apply andb_true_iff in Hr as [Hr ?]).
  cbv zeta. cbn [num_of_Z num_add num_mul num_lt num_le real_number].
  change (IZR GRID_SIZE) with 32.
  rewrite <- !plus_IZR.
  assert (Bx : 0 <= IZR (i + dx) < 32)
    by (split; [apply IZR_le | apply IZR_lt]; lia).
  assert (By : 0 <= IZR (j + dy) < 32)
    by (split; [apply IZR_le | apply IZR_lt]; lia).
  assert (Bz : 0 <= IZR (k + dz) < 32)
    by (split; [apply IZR_le | apply IZR_lt]; lia).
  rewrite !Rltb_false, !Rleb_false by lra. cbn [orb].
  unfold voxel_falsy, voxel_at. cbn [num_to_Z real_number].
  replace (IZR (i + dx) * 32 * 32 + IZR (j + dy) * 32 + IZR (k + dz))
    with (IZR (cell_index (i + dx) (j + dy) (k + dz)))
    by (unfold cell_index; change GRID_SIZE with 32%Z;
        repeat (rewrite plus_IZR || rewrite mult_IZR); ring).
  rewrite R_to_Z_IZR.
  destruct (Z.leb_spec 0 (cell_index (i + dx) (j + dy) (k + dz))) as [_|Hneg].
  2:{ unfold cell_index in Hneg. change GRID_SIZE with 32%Z in Hneg. lia. }
  destruct (_voxels this !! _) as [b|]; [|discriminate].
  destruct (b =? 0)%Z; [discriminate | reflexivity].
Qed.

(** Deep inside the mesh there is no boundary force: when the 124 cells
    around the neuron's cell (two cells in every direction) are all in the
    grid and set, the boundary loop leaves the neuron's force as it was
    (real arithmetic). *)
Theorem boundary_force_deep_inside (this : STLLayout R) (n : Neuron R)
    (i j k : Z) :
  let mn := this.(_bounds).(min) in
  let sz := this.(_bounds).(size) in
  Rfloor ((n.(pos).(x) - mn.(x)) / sz.(x) * 32) = IZR i ->
  Rfloor ((n.(pos).(y) - mn.(y)) / sz.(y) * 32) = IZR j ->
  Rfloor ((n.(pos).(z) - mn.(z)) / sz.(z) * 32) = IZR k ->
  solid_around this.(_voxels) i j k = true ->
  (boundary_force this n).(force) = n.(force)
  /\ same_body (boundary_force this n) n.
Proof.
  intros mn sz Hi Hj Hk Hs. split; [|repeat split].
  unfold boundary_force. cbn [set_force force].
  cbn [num_of_Z num_sub num_mul num_div Math_floor real_number].
  change (IZR GRID_SIZE) with 32. fold mn sz. rewrite Hi, Hj, Hk.
  generalize (force n) as f.
  assert (Hall : forall d, d ∈ neighbourhood -> d ∈ neighbourhood) by auto.
  revert Hall. generalize neighbourhood at 1 3 as ds.
  induction ds as [|d ds IH]; intros Hall f; [reflexivity|].
  cbn [foldl].
  rewrite (boundary_cell_solid this (pos n) i j k f d Hs)
    by (apply Hall, list_elem_of_here).
  apply IH. intros d' Hd'. apply Hall, list_elem_of_further, Hd'.
Qed.

Lemma boundary_force_deep_inside_witness :
  let n := {| pos := _cellToWorld real_block 16 16 16;
              prev := Vector3 0 0 0; vel := Vector3 0 0 0;
              force := Vector3 1 2 3; layer := 0; idx := 0 |} in
  solid_around real_block.(_voxels) 16 16 16 = true
  /\ (boundary_force real_block n).(force) = Vector3 1 2 3.
Proof.
  intros n.
  assert (Hs : solid_around real_block.(_voxels) 16 16 16 = true)
    by (vm_compute; reflexivity).
  assert (Hx : 0 < real_block.(_bounds).(size).(x))
    by (cbn [real_block _bounds size x]; lra).
  assert (Hy : 0 < real_block.(_bounds).(size).(y))
    by (cbn [real_block _bounds size y]; lra).
  assert (Hz : 0 < real_block.(_bounds).(size).(z))
    by (cbn [real_block _bounds size z]; lra).
  split; [exact Hs|].
  exact (proj1 (boundary_force_deep_inside real_block n 16 16 16
           (Sampler.cell_coordinate _ _ 16 Hx ltac:(lia))
           (Sampler.cell_coordinate _ _ 16 Hy ltac:(lia))
           (Sampler.cell_coordinate _ _ 16 Hz ltac:(lia)) Hs)).
Defined.

Lemma sum_sq_nonneg (vs : list (Vec3 R)) (ke : R) :
  0 <= ke -> 0 <= foldl (fun ke v => ke + lengthSq v) ke vs.
Proof.
  revert ke. induction vs as [|v vs IH]; intros ke H; [exact H|].
  cbn [foldl]. apply IH. real_ops. pose proof (RepulsionIdeal.norm2_nonneg v) as Hv.
  rewrite RepulsionIdeal.lengthSq_real. unfold norm2 in *. lra.
Qed.

Lemma sum_sq_zero (vs : list (Vec3 R)) (ke : R) :
  0 <= ke ->
  foldl (fun ke v => ke + lengthSq v) ke vs = 0 ->
  ke = 0 /\ Forall (fun v => v = Vector3 0 0 0) vs.
Proof.
  revert ke. induction vs as [|v vs IH]; intros ke H0 H; [split; [exact H | constructor]|].
  cbn [foldl] in H.
  pose proof (RepulsionIdeal.norm2_nonneg v) as Hv.
  assert (Hk : 0 <= ke + lengthSq v).
  { real_ops. rewrite RepulsionIdeal.lengthSq_real. unfold norm2 in *. lra. }
  destruct (IH _ Hk H) as [E Hvs].
  assert (Ev : norm2 v = 0).
  { revert E. real_ops. rewrite RepulsionIdeal.lengthSq_real. unfold norm2 in *. lra. }
  split; [revert E; real_ops; rewrite RepulsionIdeal.lengthSq_real; unfold norm2 in *; lra|].
  constructor; [apply RepulsionIdeal.norm2_zero, Ev | exact Hvs].
Qed.

(** The energy a substep reports is never negative, and it is zero exactly
    when every neuron's integrated velocity is zero (real arithmetic). *)
Theorem energy_nonneg (this : STLLayout R) (dt : R) :
  this.(_neurons) <> [] ->
  0 <= (_subStep this dt).(energy)
  /\ ((_subStep this dt).(energy) = 0
      <-> Forall (fun m => integrated_vel this dt m = Vector3 0 0 0)
                 (accumulate_forces this)).
Proof.
  intros Hne. rewrite subStep_energy by exact Hne. unfold mean_sq.
  set (vs := map (integrated_vel this dt) (accumulate_forces this)).
  assert (HN : 0 < IZR (Z.of_nat (List.length vs))).
  { apply IZR_lt. unfold vs. rewrite length_map, accumulate_forces_length.
    destruct (_neurons this); [congruence | cbn; lia]. }
  pose proof (sum_sq_nonneg vs 0 (Rle_refl 0)) as Hs.
  cbn [num_of_Z num_div real_number] in *.
  set (S := foldl _ _ vs) in *.
  split.
  - apply Rmult_le_pos; [exact Hs|]. apply Rlt_le, Rinv_0_lt_compat, HN.
  - split.
    + intros E.
      assert (ES : S = 0).
      { apply (Rmult_eq_reg_r (/ IZR (Z.of_nat (List.length vs)))).
        - rewrite Rmult_0_l. exact E.
        - apply Rinv_neq_0_compat. lra. }
      destruct (sum_sq_zero vs 0 (Rle_refl 0) ES) as [_ Hall].
      unfold vs in Hall. rewrite Forall_map in Hall. exact Hall.
    + intros Hall.
      assert (ES : S = 0).
      { unfold S, vs. clear -Hall.
        induction Hall as [|m ms Hm Hall IH]; [reflexivity|].
        cbn [map foldl]. rewrite Hm.
        replace (0 + lengthSq (Vector3 0 0 0 : Vec3 R)) with 0
          by (unfold lengthSq; cbn [x y z]; real_ops; ring).
        exact IH. }
      rewrite ES. unfold Rdiv. apply Rmult_0_l.
Qed.

Lemma energy_nonneg_witness :
  (set_neurons real_block apart 0).(_neurons) <> []
  /\ 0 <= (_subStep (set_neurons real_block apart 0) (1 / 180)).(energy).
Proof.
  assert (H : (set_neurons real_block apart 0).(_neurons) <> []) by discriminate.
  split; [exact H|].
  exact (proj1 (energy_nonneg (set_neurons real_block apart 0) (1 / 180) H)).
Defined.

End ForcesIdeal.

(** ** Deduplication is idempotent *)

Module DedupeIdeal.

Import Ideal IdealFacts RealNotions.
Local Open Scope R_scope.

Lemma dedupe_from_fixed (last : R) (l : list R) :
  HdRel gap last l -> Sorted gap l -> dedupe_from last l = l.
Proof.
  revert last. induction l as [|h l IH]; intros last Hh Hs; [reflexivity|].
  cbn [dedupe_from]. cbn [num_lt num_sub real_number].
  inversion Hh as [|? ? Hg]; subst. inversion Hs as [|? ? Hs' Hh']; subst.
  unfold gap in Hg. unfold dec. cbn [num_of_Z num_div real_number].
  rewrite Rltb_true by lra. f_equal. apply IH; assumption.
Qed.

(** A list of hits in which consecutive ones are more than [1e-5] apart is
    left as it is by the deduplication loop; hence deduplicating twice is
    deduplicating once (real arithmetic). *)
Theorem dedupe_idempotent (l : list R) :
  (Sorted gap l -> dedupe l = l) /\ dedupe (dedupe l) = dedupe l.
Proof.
  assert (H : forall l', Sorted gap l' -> dedupe l' = l').
  { intros [|h l'] Hs; [reflexivity|]. cbn [dedupe]. f_equal.
    inversion Hs; subst. apply dedupe_from_fixed; assumption. }
  split; [apply H | apply H, Scanline.dedupe_gapped].
Qed.

End DedupeIdeal.

(** ** From a voxelisation to the seeded neurons *)

Section VoxelizeAlone.

Context {num : Type} {JSN : JSNumber num}.

Lemma bind_length_le {A B : Type} (f : A -> list B) (l : list A) (n : nat) :
  (forall a, List.length (f a) <= n)%nat ->
  (List.length (l ≫= f) <= List.length l * n)%nat.
Proof.
  intros Hf. induction l as [|a l IH]; [cbn; lia|].
  rewrite bind_cons, length_app. cbn [List.length]. specialize (Hf a). lia.
Qed.

Lemma inside_cells_length (voxels : list Z) :
  (List.length (inside_cells voxels) <= 32 * 32 * 32)%nat.
Proof.
  unfold inside_cells. change (Z.to_nat GRID_SIZE) with 32%nat.
  etransitivity; [apply (bind_length_le _ _ (32 * 32))|rewrite length_seq; lia].
  intros i. etransitivity; [apply (bind_length_le _ _ 32)|rewrite length_seq; lia].
  intros j. etransitivity; [apply (bind_length_le _ _ 1)|rewrite length_seq; lia].
  intros k. destruct (voxels !! _) as [b|]; [|cbn; lia].
  destruct (b =? 0)%Z; cbn; lia.
Qed.

(** [_voxelize(geo)] run alone: after the eight turns of its chunks the
    task has ended with the 32 rows marked on the all-zero grid and the
    cache shuffled. *)
Lemma voxelize_alone (rnd : Random num) (this : STLLayout num)
    (geo : BufferGeometry num) (k : nat) :
  let job := job_of geo this.(_bounds) in
  let grid := voxel_grid job in
  run_alone rnd 8 (AwaitTimer (voxelize_begin this geo).2)
            (voxelize_begin this geo).1 k
  = let '(cache, k') := shuffle rnd k (inside_cells grid) in
    (set_loading (set_grid this this.(_bounds) grid cache) true this.(_rafId),
     k', Completed).
Proof.
  intros job grid.
  change 8%nat with (7 + 1)%nat. rewrite run_alone_app.
  unfold voxelize_begin. cbn [fst snd].
  rewrite (run_chunks rnd geo (min (_bounds this)) (size (_bounds this)) 7 0)
    by lia.
  cbn [run_alone resume].
  rewrite (resume_chunk rnd geo _ _ 7) by lia.
  cbn [Nat.ltb Nat.leb _bounds _voxels _insideCache set_grid app _rafId isLoaded].
  rewrite (voxelize_row_job geo _ _ (4 * 7) 0).
  fold (job_of geo (_bounds this)). fold job.
  rewrite <- foldl_app, <- seq_app.
  change (foldl (voxelize_row job) _ (seq (4 * 0) (4 * 7 + 4))) with grid.
  destruct (shuffle rnd k (inside_cells grid)) as [cache k']. reflexivity.
Qed.

Lemma inside_cells_ok (voxels : list Z) (c : Cell) :
  binary_grid voxels -> c ∈ inside_cells voxels -> RealNotions.cell_ok voxels c.
Proof.
  intros Hbin Hc. apply inside_cells_elem in Hc as (Hx & Hy & Hz & v & Hv & Hne).
  unfold RealNotions.cell_ok.
  split; [exact Hx|]. split; [exact Hy|]. split; [exact Hz|].
  unfold binary_grid in Hbin. rewrite Forall_lookup in Hbin.
  destruct (Hbin _ _ Hv) as [->| ->]; [contradiction | exact Hv].
Qed.

End VoxelizeAlone.

Module Pipeline.

Import Ideal IdealFacts RealNotions.
Local Open Scope R_scope.

(** A voxelisation that runs alone in bounds of positive extent ends in a
    state in which the sampler's precondition holds: the cache has fewer
    than [2^31] entries, each one a cell of the grid whose byte is 1.  So,
    when that cache is not empty, [initNeurons] then returns without a
    TypeError and every neuron it has placed classifies as interior (real
    arithmetic). *)
Theorem voxelize_then_seed (this : STLLayout R) (rnd : Random R) (k : nat)
    (geo : BufferGeometry R) (network : Network) :
  positive_extent this -> unit_random rnd ->
  let r := run_alone rnd 8 (AwaitTimer (voxelize_begin this geo).2)
                     (voxelize_begin this geo).1 k in
  r.2 = Completed
  /\ cache_wf r.1.1
  /\ r.1.1.(isLoaded) = true
  /\ (r.1.1.(_insideCache) <> [] ->
      exists this' k',
        initNeurons r.1.1 rnd r.1.2 network = Some (this', k')
        /\ all_interior this').
Proof.
  intros (Hx & Hy & Hz) Hrnd r.
  assert (Hr : r = let '(cache, k') :=
                     shuffle rnd k (inside_cells (voxel_grid (job_of geo this.(_bounds)))) in
                   (set_loading (set_grid this this.(_bounds)
                                   (voxel_grid (job_of geo this.(_bounds))) cache)
                                true this.(_rafId), k', Completed))
    by apply voxelize_alone.
  set (grid := voxel_grid (job_of geo this.(_bounds))) in *.
  pose proof (shuffle_perm rnd k (inside_cells grid)) as Hp.
  destruct (shuffle rnd k (inside_cells grid)) as [cache k'].
  cbn [fst] in Hp. rewrite Hr. cbn [fst snd].
  set (final := set_loading (set_grid this this.(_bounds) grid cache)
                            true this.(_rafId)).
  assert (Hwf : cache_wf final).
  { unfold cache_wf. cbn [final set_loading set_grid _bounds _insideCache _voxels].
    split; [exact Hx|]. split; [exact Hy|]. split; [exact Hz|]. split.
    - rewrite (Permutation_length Hp).
      pose proof (inside_cells_length grid). lia.
    - rewrite Hp. apply Forall_forall. intros c Hc.
      apply inside_cells_ok; [|exact Hc].
      exact (proj2 (voxel_grid_binary (job_of geo this.(_bounds)))). }
  split; [reflexivity|]. split; [exact Hwf|]. split; [reflexivity|].
  intros Hne.
  destruct (SeedingIdeal.initNeurons_seeds final rnd k' network Hwf Hne Hrnd eq_refl)
    as (this' & k2 & Hi & Hin & _).
  exists this', k2. split; assumption.
Qed.

Lemma voxelize_then_seed_witness :
  (positive_extent real_block /\ unit_random half_random)
  /\ cache_wf (run_alone half_random 8
                 (AwaitTimer (voxelize_begin real_block tri_geo).2)
                 (voxelize_begin real_block tri_geo).1 0).1.1.
Proof.
  assert (H1 : positive_extent real_block).
  { unfold positive_extent. cbn [real_block _bounds size x y z]. lra. }
  assert (H2 : unit_random half_random)
    by (intros k; unfold half_random; lra).
  split; [exact (conj H1 H2)|].
  exact (proj1 (proj2 (voxelize_then_seed real_block half_random 0 tri_geo
                         {| layerConfigs := [] |} H1 H2))).
Defined.

End Pipeline.

(** ** Layer sizes, draws, and a grid without set cells *)

Section SeedingCost.

Local Open Scope js_scope.
Context {num : Type} {JSN : JSNumber num}.

Lemma ToInt32_range (a : num) : (- 2 ^ 31 <= ToInt32 a < 2 ^ 31)%Z.
Proof.
  unfold ToInt32. destruct (num_to_Z (trunc a)) as [n|]; [|lia].
  pose proof (Z.mod_pos_bound (n + 2 ^ 31) (2 ^ 32) ltac:(lia)). lia.
Qed.

(** Whatever sizes are asked for (zero, negative, fractional, NaN), a
    configured network has as many layers as asked and every layer has at
    least one and fewer than [2^31] neurons. *)
Theorem configure_sizes (sizes : list num) :
  numLayers (configure sizes) = List.length sizes
  /\ Forall (fun n => (1 <= Z.of_nat n < 2 ^ 31)%Z) (configure sizes).(layerConfigs).
Proof.
  unfold numLayers, configure. cbn [layerConfigs]. split; [apply length_map|].
  apply Forall_map, Forall_forall. intros s _. cbn beta.
  pose proof (ToInt32_range s) as H. lia.
Qed.

Lemma sample_tries_draws (this : STLLayout num) (rnd : Random num)
    (target : Vec3 num) (spread : num) (tries : nat) :
  forall k,
  let r := sample_tries this rnd target spread tries k in
  (k <= r.2 <= k + 3 * tries)%nat
  /\ (r.1 = None -> r.2 = (k + 3 * tries)%nat)
  /\ ((0 < tries)%nat -> (k + 3 <= r.2)%nat).
Proof.
  induction tries as [|tries IH]; intros k; cbn [sample_tries].
  - cbn. split; [lia|]. split; [auto | lia].
  - match goal with
    | |- context [if _isInside this ?q then _ else _] =>
        destruct (_isInside this q)
    end.
    + cbn. split; [lia|]. split; [discriminate | lia].
    + destruct (IH (k + 3)%nat) as (H1 & H2 & _). cbn zeta in *.
      split; [lia|]. split; [|lia]. intros E. rewrite (H2 E). lia.
Qed.

Lemma sampler_draws_bound (this : STLLayout num) (rnd : Random num) (k : nat)
    (target : Vec3 num) (maxTries : nat) :
  (0 < maxTries)%nat ->
  (k + 3 <= sampler_draws this rnd k target maxTries <= k + 3 * maxTries + 60)%nat.
Proof.
  intros Hm. unfold sampler_draws.
  destruct (sample_tries_draws this rnd target
              (vec_length this.(_bounds).(size) * dec 25 100) maxTries k)
    as (H1 & H2 & H3).
  cbn zeta in *. specialize (H3 Hm).
  destruct (sample_tries this rnd target _ maxTries k) as [[p|] k1];
    cbn [fst snd] in *; [lia|].
  specialize (H2 eq_refl). lia.
Qed.

Lemma seed_layer_draws (this : STLLayout num) (rnd : Random num)
    (target : Vec3 num) (l n : nat) :
  forall (i k : nat) (row : list (Neuron num)) (k' : nat),
  seed_layer this rnd target l n i k = Some (row, k') ->
  (k + 6 * List.length row <= k' <= k + 183 * List.length row)%nat.
Proof.
  induction n as [|n IH]; intros i k row k'; cbn [seed_layer].
  - intros [= <- <-]. cbn. lia.
  - destruct (seed_neuron this rnd target l i k) as [[nr k1]|] eqn:E1;
      [|discriminate].
    cbn [mbind option_bind].
    destruct (seed_layer this rnd target l n (S i) k1) as [[rest k2]|] eqn:E2;
      [|discriminate].
    cbn [mbind option_bind]. intros [= <- <-].
    apply seed_neuron_shape in E1 as (_ & _ & _ & _ & ->).
    pose proof (sampler_draws_bound this rnd k target 40 ltac:(lia)).
    specialize (IH _ _ _ _ E2). cbn [List.length]. lia.
Qed.

Lemma seed_layers_draws (this : STLLayout num) (rnd : Random num)
    (layers : list (Vec3 num * nat)) :
  forall (l k : nat) (rows : list (list (Neuron num))) (k' : nat),
  seed_layers this rnd layers l k = Some (rows, k') ->
  (k + 6 * List.length (concat rows) <= k'
   <= k + 183 * List.length (concat rows))%nat.
Proof.
  induction layers as [|[target n] layers IH]; intros l k rows k';
    cbn [seed_layers].
  - intros [= <- <-]. cbn. lia.
  - destruct (seed_layer this rnd target l n 0 k) as [[row k1]|] eqn:E1;
      [|discriminate].
    cbn [mbind option_bind].
    destruct (seed_layers this rnd layers (S l) k1) as [[rest k2]|] eqn:E2;
      [|discriminate].
    cbn [mbind option_bind]. intros [= <- <-].
    apply seed_layer_draws in E1. specialize (IH _ _ _ _ E2).
    cbn [concat]. rewrite length_app. lia.
Qed.

(** [initNeurons] calls [Math.random] at least 6 and at most 183 times for
    each neuron it places: between one and forty tries of three draws,
    at most sixty draws of the fallback, and three for the velocity. *)
Theorem initNeurons_draws (this : STLLayout num) (rnd : Random num) (k : nat)
    (network : Network) (this' : STLLayout num) (k' : nat) :
  initNeurons this rnd k network = Some (this', k') ->
  this.(isLoaded) = true -> this.(_insideCache) <> [] ->
  (k + 6 * List.length this'.(_neurons) <= k'
   <= k + 183 * List.length this'.(_neurons))%nat.
Proof.
  unfold initNeurons. intros H Hl Hc.
  assert (E : negb this.(isLoaded)
              || (List.length this.(_insideCache) =? 0)%nat = false).
  { rewrite Hl. destruct (_insideCache this); [congruence | reflexivity]. }
  rewrite E in H.
  destruct (seed_layers this rnd _ 0 k) as [[rows k1]|] eqn:Es; [|discriminate].
  cbn [mbind option_bind] in H. injection H as <- <-.
  cbn [set_seeded _neurons]. eapply seed_layers_draws, Es.
Qed.

Lemma isInside_unset (this : STLLayout num) (p : Vec3 num) :
  Forall (fun b => b <> 1%Z) this.(_voxels) -> _isInside this p = false.
Proof.
  intros H. unfold _isInside.
  match goal with |- (if ?g then _ else _) = _ => destruct g end; [reflexivity|].
  unfold voxel_at.
  destruct (num_to_Z _) as [n|]; [|reflexivity].
  destruct (0 <=? n)%Z; [|reflexivity].
  destruct (_voxels this !! Z.to_nat n) as [b|] eqn:E; [|reflexivity].
  rewrite Forall_lookup in H. specialize (H _ _ E).
  destruct b as [|[]|]; try reflexivity. contradiction.
Qed.

Lemma subStep_frozen (this : STLLayout num) (dt : num) :
  (forall p, _isInside this p = false) ->
  map pos (_subStep this dt).(_neurons) = map pos this.(_neurons).
Proof.
  intros H. rewrite subStep_neurons.
  pose proof (accumulate_forces_same_body this) as HF.
  induction HF as [|n m ns ms Hnm HF IH]; [reflexivity|].
  cbn [map]. rewrite IH. f_equal.
  unfold integrate. rewrite H. cbn [negb pos]. symmetry. apply Hnm.
Qed.

(** While no cell of the grid is set to 1 (as from the moment a
    voxelisation has installed its all-zero grid until a row is marked),
    no point classifies as interior, so every substep reverts every neuron:
    substeps and whole ticks leave all positions where they were. *)
Theorem unset_grid_freezes (this : STLLayout num) (dt : num) :
  Forall (fun b => b <> 1%Z) this.(_voxels) ->
  (forall p, _isInside this p = false)
  /\ map pos (_subStep this dt).(_neurons) = map pos this.(_neurons)
  /\ map pos (_step this).(_neurons) = map pos this.(_neurons).
Proof.
  intros H.
  assert (Hin : forall s : STLLayout num, s.(_voxels) = this.(_voxels) ->
                forall p, _isInside s p = false).
  { intros s Hs p. apply isInside_unset. rewrite Hs. exact H. }
  split; [apply Hin; reflexivity|].
  split; [apply subStep_frozen, Hin; reflexivity|].
  destruct (step_neurons this) as (-> & _).
  unfold subSteps. generalize (Z.to_nat SUB_STEPS) as n.
  induction n as [|n IH]; [reflexivity|].
  rewrite Nat.iter_succ, subStep_frozen; [exact IH|].
  apply Hin.
  assert (Hg : forall m, (Nat.iter m (fun s => _subStep s FIXED_DT) this).(_voxels)
                         = this.(_voxels)).
  { induction m as [|m IHm]; [reflexivity|].
    rewrite Nat.iter_succ. rewrite (proj2 (subStep_grid _ _)). exact IHm. }
  apply Hg.
Qed.

End SeedingCost.

Module CostWitness.

Import Binary64 Block.
Local Open Scope js_scope.

Lemma initNeurons_draws_witness :
  exists (this' : STLLayout float) (k' : nat),
    initNeurons (block []) half_draws 0 {| layerConfigs := [1; 2]%nat |}
      = Some (this', k')
    /\ (0 + 6 * List.length this'.(_neurons) <= k'
        <= 0 + 183 * List.length this'.(_neurons))%nat.
Proof.
  assert (Hs : match initNeurons (block []) half_draws 0
                       {| layerConfigs := [1; 2]%nat |} with
               | Some _ => true
               | None => false
               end = true) by (vm_compute; reflexivity).
  destruct (initNeurons (block []) half_draws 0 {| layerConfigs := [1; 2]%nat |})
    as [[this' k']|] eqn:E; [|discriminate Hs].
  exists this', k'. split; [reflexivity|].
  assert (Hc : (block []).(_insideCache) <> []) by discriminate.
  exact (initNeurons_draws _ _ _ _ _ _ E eq_refl Hc).
Defined.

Lemma unset_grid_freezes_witness :
  let begun := (voxelize_begin two_neurons slab).1 in
  Forall (fun b => b <> 1%Z) begun.(_voxels)
  /\ map pos (_step begun).(_neurons) = map pos two_neurons.(_neurons).
Proof.
  intros begun.
  assert (H : Forall (fun b => b <> 1%Z) begun.(_voxels))
    by (apply Forall_replicate; discriminate).
  split; [exact H|].
  exact (proj2 (proj2 (unset_grid_freezes begun FIXED_DT H))).
Defined.

End CostWitness.

(** ** The sampler after two overlapping loads *)

Section JobAlone.

Local Open Scope js_scope.
Context {num : Type} {JSN : JSNumber num}.

(** A job at row 0 that is given its eight turns in a row, on whatever
    layout it finds: it marks its 32 rows in that layout's grid, appends the
    grid's non-zero cells to that layout's cache, shuffles it and ends. *)
Lemma job_alone (rnd : Random num) (geo : BufferGeometry num) (mn sz : Vec3 num)
    (this : STLLayout num) (k : nat) :
  let job := {| job_geo := geo; job_min := mn; job_size := sz; job_iy := 0 |} in
  let grid := foldl (voxelize_row job) this.(_voxels) (seq 0 32) in
  run_alone rnd 8 (AwaitTimer job) this k
  = let '(cache, k') :=
      shuffle rnd k (this.(_insideCache) ++ inside_cells grid) in
    (set_loading (set_grid this this.(_bounds) grid cache) true this.(_rafId),
     k', Completed).
Proof.
  intros job grid.
  change 8%nat with (7 + 1)%nat. rewrite run_alone_app.
  rewrite (run_chunks rnd geo mn sz 7 0) by lia.
  cbn [run_alone resume].
  rewrite (resume_chunk rnd geo _ _ 7) by lia.
  cbn [Nat.ltb Nat.leb _bounds _voxels _insideCache set_grid _rafId isLoaded].
  rewrite (voxelize_row_job geo _ _ (4 * 7) 0). fold job.
  rewrite <- foldl_app, <- seq_app.
  change (foldl (voxelize_row job) _ (seq (4 * 0) (4 * 7 + 4))) with grid.
  destruct (shuffle rnd k (_insideCache this ++ inside_cells grid)) as [cache k'].
  reflexivity.
Qed.

Lemma sample_tries_fail (this : STLLayout num) (rnd : Random num)
    (target : Vec3 num) (spread : num) (tries : nat) :
  (forall p, _isInside this p = false) ->
  forall k, sample_tries this rnd target spread tries k = (None, (k + 3 * tries)%nat).
Proof.
  intros H. induction tries as [|tries IH]; intros k; cbn [sample_tries].
  - f_equal. lia.
  - rewrite H, IH. f_equal. lia.
Qed.

Lemma grows_set (voxels after : list Z) (c : nat) :
  grows voxels after -> voxels !! c = Some 1%Z -> after !! c = Some 1%Z.
Proof. intros [_ H]. apply H. Qed.

End JobAlone.

Module SamplerExamples.

Import Binary64 Block Flat.
Local Open Scope js_scope.

Lemma isInside_broken_cell (this : STLLayout float) (p : Vec3 float) :
  let mn := this.(_bounds).(min) in
  let sz := this.(_bounds).(size) in
  is_finite (Math_floor ((p.(x) - mn.(x)) / sz.(x) * #GRID_SIZE)) = false
  \/ is_finite (Math_floor ((p.(y) - mn.(y)) / sz.(y) * #GRID_SIZE)) = false
  \/ is_finite (Math_floor ((p.(z) - mn.(z)) / sz.(z) * #GRID_SIZE)) = false ->
  _isInside this p = false.
Proof.
  intros mn sz Hc. unfold _isInside. fold mn sz.
  set (ix := Math_floor ((x p - _) / _ * _)) in *.
  set (iy := Math_floor ((y p - _) / _ * _)) in *.
  set (iz := Math_floor ((z p - _) / _ * _)) in *.
  assert (Hg : forall v, is_finite v = false ->
                 (v <? #0) || (v >=? #GRID_SIZE) = false -> v = S754_nan).
  { intros v Hv Hf. destruct (NonFinite.guard_non_finite v Hv); congruence. }
  destruct (ix <? #0) eqn:X1; [reflexivity|].
  destruct (ix >=? #GRID_SIZE) eqn:X2; [reflexivity|].
  destruct (iy <? #0) eqn:Y1; [reflexivity|].
  destruct (iy >=? #GRID_SIZE) eqn:Y2; [reflexivity|].
  destruct (iz <? #0) eqn:Z1; [reflexivity|].
  destruct (iz >=? #GRID_SIZE) eqn:Z2; [reflexivity|].
  cbn [orb].
  assert (E : ix * #GRID_SIZE * #GRID_SIZE + iy * #GRID_SIZE + iz = S754_nan).
  { destruct Hc as [Hc|[Hc|Hc]].
    - rewrite (Hg ix Hc) by (rewrite X1, X2; reflexivity). reflexivity.
    - rewrite (Hg iy Hc) by (rewrite Y1, Y2; reflexivity).
      rewrite NonFinite.mul_nan_l, NonFinite.add_nan_r. reflexivity.
    - rewrite (Hg iz Hc) by (rewrite Z1, Z2; reflexivity).
      apply NonFinite.add_nan_r. }
  rewrite E. reflexivity.
Qed.

Lemma flat_nothing_inside (this : STLLayout float) :
  is_zero this.(_bounds).(size).(x) = true ->
  forall p, _isInside this p = false.
Proof.
  intros H p. apply isInside_broken_cell. left. apply FlatFacts.cell_flat, H.
Qed.

Lemma ToInt32_zero_times (k : nat) (a : float) :
  ToInt32 (zero_draws k * a) = 0%Z.
Proof. destruct a as [s|s| |s m e]; try destruct s; reflexivity. Qed.

Lemma sample_cache_zero_draws (this : STLLayout float) (target : Vec3 float)
    (sample : nat) :
  this.(_insideCache) <> [] ->
  forall k best bestDist,
  exists best', sample_cache this zero_draws target sample k best bestDist
                = Some best'.
Proof.
  intros Hne. induction sample as [|sample IH]; intros k best bestDist;
    cbn [sample_cache].
  - eexists. reflexivity.
  - rewrite ToInt32_zero_times.
    unfold cell_at. cbn [Z.leb Z.compare].
    destruct (_insideCache this) as [|c cache] eqn:Ec; [congruence|].
    change ((c :: cache) !! Z.to_nat 0) with (Some c).
    cbn [mbind option_bind]. cbv zeta.
    match goal with |- context [if ?b then _ else _] => destruct b end; apply IH.
Qed.

(** In bounds without extent along X and with a cache that is not empty,
    the sampler returns a point (here with [Math.random] answering 0), and
    the point is not interior. *)
Lemma sampler_exterior (this : STLLayout float) (k : nat) (target : Vec3 float)
    (maxTries : nat) :
  is_zero this.(_bounds).(size).(x) = true -> this.(_insideCache) <> [] ->
  exists p, _findInsidePointNear this zero_draws k target maxTries = Some p
            /\ _isInside this p = false.
Proof.
  intros Hflat Hne. unfold _findInsidePointNear.
  rewrite (sample_tries_fail this zero_draws target _ maxTries
             (flat_nothing_inside this Hflat)).
  destruct (sample_cache_zero_draws this target
              (Nat.min 60 (List.length this.(_insideCache))) Hne
              (k + 3 * maxTries)%nat None None) as (best & ->).
  cbn [mbind option_bind].
  destruct best as [p|].
  - exists p. split; [reflexivity | apply flat_nothing_inside, Hflat].
  - destruct (_insideCache this) as [|c cache]; [congruence|].
    change ((c :: cache) !! 0%nat) with (Some c). cbn [mbind option_bind].
    eexists. split; [reflexivity | apply flat_nothing_inside, Hflat].
Qed.

(** C9 (as the specification words it) fails.  A second file is chosen
    while the first is still being voxelised: the second load installs the
    bounds of its flat mesh (no extent along X), a fresh grid and an empty
    cache; the first job, never cancelled, marks its rows in that grid,
    pushes the marked cells onto that cache and ends, and the first
    [loadFile] sets [isLoaded].  In this state the cache is not empty, and
    the sampler returns a point that does not classify as interior: with no
    extent along X, [_isInside] is false everywhere. *)
Lemma sampler_exterior_after_overlapping_loads :
  overlapped.2 = Completed
  /\ overlapped.1.1.(isLoaded) = true
  /\ overlapped.1.1.(_insideCache) <> []
  /\ is_zero overlapped.1.1.(_bounds).(size).(x) = true
  /\ exists p,
       _findInsidePointNear overlapped.1.1 zero_draws overlapped.1.2
         (Vector3 #0 #0 #0) 40 = Some p
       /\ _isInside overlapped.1.1 p = false.
Proof.
  assert (F1 : match normalizeGeometry slab with
               | Some (g, b) =>
                   match voxelize_scanline (job_of g b) 0 0
                           (replicate (Z.to_nat (GRID_SIZE * GRID_SIZE * GRID_SIZE)) 0%Z)
                         !! 0%nat with
                   | Some 1%Z => true
                   | _ => false
                   end
               | None => false
               end = true) by (vm_compute; reflexivity).
  assert (F2 : match normalizeGeometry flat_sheet with
               | Some (g, b) => is_zero b.(size).(x)
               | None => false
               end = true) by (vm_compute; reflexivity).
  unfold overlapped, sheet_begun, sheet_started, slab_begun, first_started.
  cbn [loadFile resume fst snd].
  destruct (normalizeGeometry slab) as [[g1 b1]|]; [|discriminate F1].
  cbn [voxelize_begin fst snd set_grid set_loading stop _bounds _voxels
       _insideCache _rafId isLoaded min size].
  destruct (normalizeGeometry flat_sheet) as [[g2 b2]|]; [|discriminate F2].
  cbn [voxelize_begin fst snd set_grid set_loading stop _bounds _voxels
       _insideCache _rafId isLoaded min size].
  rewrite job_alone.
  cbn [set_grid set_loading stop _voxels _insideCache _bounds _rafId isLoaded
       app].
  set (zeros := replicate (Z.to_nat (GRID_SIZE * GRID_SIZE * GRID_SIZE)) 0%Z) in *.
  set (job := {| job_geo := g1; job_min := min b1; job_size := size b1; job_iy := 0 |}).
  set (grid := foldl (voxelize_row job) zeros (seq 0 32)).
  assert (Hset : grid !! 0%nat = Some 1%Z).
  { unfold grid. change (seq 0 32) with (0%nat :: seq 1 31). cbn [foldl].
    eapply grows_set; [apply foldl_grows; intros v iy; apply row_grows|].
    unfold voxelize_row. change (seq 0 (Z.to_nat GRID_SIZE)) with (0%nat :: seq 1 31).
    cbn [foldl].
    eapply grows_set; [apply foldl_grows; intros v iz; apply scanline_grows|].
    change job with (job_of g1 b1).
    destruct (voxelize_scanline (job_of g1 b1) 0 0 zeros !! 0%nat) as [[|[]|]|];
      try discriminate F1. reflexivity. }
  assert (Hin : {| ix := 0; iy := 0; iz := 0 |} ∈ inside_cells grid).
  { apply inside_cells_elem. cbn [ix iy iz].
    split; [lia|]. split; [lia|]. split; [lia|].
    exists 1%Z. split; [exact Hset | discriminate]. }
  pose proof (shuffle_perm zero_draws 0 (inside_cells grid)) as Hp.
  destruct (shuffle zero_draws 0 (inside_cells grid)) as [cache k'].
  cbn [fst snd] in *.
  assert (Hne : cache <> []).
  { intros ->. apply Permutation_nil in Hp. rewrite Hp in Hin. inversion Hin. }
  split; [reflexivity|]. split; [reflexivity|].
  cbn [set_loading set_grid _insideCache _bounds].
  split; [exact Hne|]. split; [exact F2|].
  apply sampler_exterior; [exact F2 | exact Hne].
Qed.

End SamplerExamples.

(** ** Every voxel is decided by its own scanline *)

Section ScanlineLocal.

Local Open Scope js_scope.
Context {num : Type} {JSN : JSNumber num}.

Lemma writes_local (v1 v2 : list Z) (ks : list Z) (c : nat) :
  List.length v1 = List.length v2 -> v1 !! c = v2 !! c ->
  foldl voxel_write v1 ks !! c = foldl voxel_write v2 ks !! c.
Proof.
  revert v1 v2. induction ks as [|k ks IH]; intros v1 v2 Hlen Hc; [exact Hc|].
  cbn [foldl]. apply IH; [rewrite !voxel_write_length; exact Hlen|].
  unfold voxel_write. destruct (0 <=? k)%Z; [|exact Hc].
  destruct (decide (Z.to_nat k = c)) as [E|Hne].
  - rewrite E. destruct (decide (c < List.length v1)%nat) as [Hlt|Hge].
    + rewrite (list_lookup_insert_eq v1) by lia.
      rewrite (list_lookup_insert_eq v2) by lia. reflexivity.
    + rewrite (lookup_ge_None_2 (<[c:=1%Z]> v1)) by (rewrite length_insert; lia).
      rewrite (lookup_ge_None_2 (<[c:=1%Z]> v2)) by (rewrite length_insert; lia).
      reflexivity.
  - rewrite !list_lookup_insert_ne by exact Hne. exact Hc.
Qed.

Lemma scanline_local (job : VoxelJob num) (iy iz : nat) (v1 v2 : list Z)
    (c : nat) :
  List.length v1 = List.length v2 -> v1 !! c = v2 !! c ->
  voxelize_scanline job iy iz v1 !! c = voxelize_scanline job iy iz v2 !! c.
Proof. rewrite !voxelize_scanline_unfold. apply writes_local. Qed.

Lemma foldl_keeps {A : Type} (f : list Z -> A -> list Z) (l : list A)
    (v : list Z) (c : nat) :
  (forall v' a, a ∈ l -> f v' a !! c = v' !! c) ->
  foldl f v l !! c = v !! c.
Proof.
  revert v. induction l as [|a l IH]; intros v H; [reflexivity|].
  cbn [foldl]. rewrite IH.
  - apply H, list_elem_of_here.
  - intros v' a' Ha'. apply H, list_elem_of_further, Ha'.
Qed.

Lemma foldl_length {A : Type} (f : list Z -> A -> list Z) (l : list A)
    (v : list Z) :
  (forall v' a, List.length (f v' a) = List.length v') ->
  List.length (foldl f v l) = List.length v.
Proof.
  intros H. revert v. induction l as [|a l IH]; intros v; [reflexivity|].
  cbn [foldl]. rewrite IH. apply H.
Qed.

Lemma seq_split (i n : nat) :
  (i < n)%nat -> seq 0 n = seq 0 i ++ i :: seq (S i) (n - S i).
Proof.
  intros H. transitivity (seq 0 (i + S (n - S i))); [f_equal; lia|].
  rewrite seq_app. reflexivity.
Qed.

End ScanlineLocal.

Module GridByScanline.

Import Ideal IdealFacts RealNotions.
Local Open Scope R_scope.

Lemma scanline_other (job : VoxelJob R) (ix iy iz iy' iz' : nat)
    (voxels : list Z) :
  (iy < 32)%nat -> (iz < 32)%nat -> (iy' < 32)%nat -> (iz' < 32)%nat ->
  (iy', iz') <> (iy, iz) ->
  voxelize_scanline job iy' iz' voxels !! (ix * 32 * 32 + iy * 32 + iz)%nat
  = voxels !! (ix * 32 * 32 + iy * 32 + iz)%nat.
Proof.
  intros Hy Hz Hy' Hz' Hne.
  rewrite voxelize_scanline_unfold. apply writes_elsewhere.
  intros Hw. apply ScanlineColumn.written_in_column in Hw as (i & Hi & E).
  apply Hne. f_equal; lia.
Qed.

Lemma row_own (job : VoxelJob R) (ix iy iz : nat) (voxels : list Z) :
  (iy < 32)%nat -> (iz < 32)%nat ->
  voxelize_row job voxels iy !! (ix * 32 * 32 + iy * 32 + iz)%nat
  = voxelize_scanline job iy iz voxels !! (ix * 32 * 32 + iy * 32 + iz)%nat.
Proof.
  intros Hy Hz. unfold voxelize_row. change (Z.to_nat GRID_SIZE) with 32%nat.
  rewrite (seq_split iz 32 Hz), foldl_app. cbn [foldl].
  rewrite foldl_keeps.
  2:{ intros v' a Ha. apply elem_of_seq in Ha.
      apply scanline_other; try lia. intros [= E]. lia. }
  apply scanline_local.
  - apply foldl_length. intros v' a. apply scanline_grows.
  - apply foldl_keeps. intros v' a Ha. apply elem_of_seq in Ha.
    apply scanline_other; try lia. intros [= E]. lia.
Qed.

Lemma row_other (job : VoxelJob R) (ix iy iz iy' : nat) (voxels : list Z) :
  (iy < 32)%nat -> (iz < 32)%nat -> (iy' < 32)%nat -> iy' <> iy ->
  voxelize_row job voxels iy' !! (ix * 32 * 32 + iy * 32 + iz)%nat
  = voxels !! (ix * 32 * 32 + iy * 32 + iz)%nat.
Proof.
  intros Hy Hz Hy' Hne. unfold voxelize_row.
  change (Z.to_nat GRID_SIZE) with 32%nat.
  apply foldl_keeps. intros v' a Ha. apply elem_of_seq in Ha.
  apply scanline_other; try lia. intros [= E _]. contradiction.
Qed.

(** A cell of the grid a voxelisation builds is decided by its own
    scanline alone: cell [(ix, iy, iz)] holds what the scanline [(iy, iz)],
    run on the all-zero grid, leaves there; it is 1 exactly when that
    scanline's marking loop writes it (real arithmetic). *)
Theorem voxel_by_own_scanline (job : VoxelJob R) (ix iy iz : nat) :
  (ix < 32)%nat -> (iy < 32)%nat -> (iz < 32)%nat ->
  let c := (ix * 32 * 32 + iy * 32 + iz)%nat in
  let zeros := replicate (Z.to_nat (GRID_SIZE * GRID_SIZE * GRID_SIZE)) 0%Z in
  voxel_grid job !! c = voxelize_scanline job iy iz zeros !! c
  /\ (voxel_grid job !! c = Some 1%Z
      <-> written c (scanline_writes job iy iz
                       (dedupe (sort_hits (scanline_hits job iy iz))))).
Proof.
  intros Hx Hy Hz c zeros.
  assert (E : voxel_grid job !! c = voxelize_scanline job iy iz zeros !! c).
  { unfold voxel_grid. fold zeros. change (Z.to_nat GRID_SIZE) with 32%nat.
    rewrite (seq_split iy 32 Hy), foldl_app. cbn [foldl].
    unfold c. rewrite foldl_keeps.
    2:{ intros v' a Ha. apply elem_of_seq in Ha. apply row_other; lia. }
    rewrite row_own by assumption.
    apply scanline_local.
    - apply foldl_length. intros v' a. apply row_grows.
    - apply foldl_keeps. intros v' a Ha. apply elem_of_seq in Ha.
      apply row_other; lia. }
  split; [exact E|].
  rewrite E, voxelize_scanline_unfold, writes_lookup.
  assert (Hlen : List.length zeros = (32 * 32 * 32)%nat)
    by (unfold zeros; rewrite length_replicate; reflexivity).
  split.
  - intros [H|[H _]]; [|exact H].
    unfold zeros in H. apply lookup_replicate in H as [H _]. discriminate.
  - intros H. right. split; [exact H|]. rewrite Hlen. unfold c. lia.
Qed.

Lemma voxel_by_own_scanline_witness :
  ((1 < 32)%nat /\ (2 < 32)%nat /\ (3 < 32)%nat)
  /\ voxel_grid (job_of tri_geo real_block.(_bounds))
       !! (1 * 32 * 32 + 2 * 32 + 3)%nat
     = voxelize_scanline (job_of tri_geo real_block.(_bounds)) 2 3
         (replicate (Z.to_nat (GRID_SIZE * GRID_SIZE * GRID_SIZE)) 0%Z)
       !! (1 * 32 * 32 + 2 * 32 + 3)%nat.
Proof.
  assert (H1 : (1 < 32)%nat) by lia.
  assert (H2 : (2 < 32)%nat) by lia.
  assert (H3 : (3 < 32)%nat) by lia.
  split; [exact (conj H1 (conj H2 H3))|].
  exact (proj1 (voxel_by_own_scanline (job_of tri_geo real_block.(_bounds))
                  1 2 3 H1 H2 H3)).
Defined.

End GridByScanline.
